(** * Finance mentor: the deterministic decision core

    A shallow embedding of the budget calculator, the impact simulator,
    the JSON-backed storage engine and the financial state agent, with
    Python's [float] modelled as IEEE 754 binary64. *)

From Stdlib Require Import ZArith QArith Qabs Qpower Bool List String Lia Lqa SpecFloat.
From Stdlib Require Import Ascii DecimalString.
Import ListNotations.

Local Open Scope Z_scope.

(** ** Python floats

    A Python [float] is an IEEE 754 binary64 number.  It is modelled by
    [spec_float] at precision 53 and maximal exponent 1024, whose
    operations round to nearest, ties to even, as the hardware does. *)
Module Binary64.

Definition prec : Z := 53.
Definition emax : Z := 1024.

Definition float : Type := spec_float.

(** The values a Python float can take: zeros, infinities, NaN and the
    finite numbers whose mantissa and exponent are canonical. *)
Definition valid (x : float) : Prop := valid_binary prec emax x = true.

Definition add : float -> float -> float := SFadd prec emax.
Definition sub : float -> float -> float := SFsub prec emax.
Definition mul : float -> float -> float := SFmul prec emax.
Definition div : float -> float -> float := SFdiv prec emax.
Definition abs : float -> float := SFabs.
Definition ltb : float -> float -> bool := SFltb.
Definition leb : float -> float -> bool := SFleb.
Definition eqb : float -> float -> bool := SFeqb.

(** [x > y] and [x >= y] are [y < x] and [y <= x], also on NaN. *)
Definition gtb (x y : float) : bool := ltb y x.
Definition geb (x y : float) : bool := leb y x.

(** An integer as a float (rounded when it needs more than 53 bits). *)
Definition of_Z (n : Z) : float := binary_normalize prec emax n 0 false.

(** The literals of the source. *)
Definition zero : float := S754_zero false.                          (* 0.0, and the int 0 *)
Definition lit_0_5 : float := S754_finite false 4503599627370496 (-53).   (* 0.5  *)
Definition lit_0_40 : float := S754_finite false 7205759403792794 (-54).  (* 0.40 *)
Definition lit_0_60 : float := S754_finite false 5404319552844595 (-53).  (* 0.60 *)
Definition lit_0_50 : float := lit_0_5.                                   (* 0.50 *)
Definition lit_0_30 : float := S754_finite false 5404319552844595 (-54).  (* 0.30 *)
Definition lit_0_20 : float := S754_finite false 7205759403792794 (-55).  (* 0.20 *)
Definition lit_100 : float := S754_finite false 7036874417766400 (-46).   (* 100  *)

(** The rational value of a float; NaN and the infinities have none. *)
Definition pow2Q (e : Z) : Q := (2 ^ e)%Q.

Definition to_Q (x : float) : option Q :=
  match x with
  | S754_zero _ => Some 0%Q
  | S754_finite s m e => Some (inject_Z (cond_Zopp s (Zpos m)) * pow2Q e)%Q
  | S754_infinity _ | S754_nan => None
  end.

(** A decimal literal [n / d] rounded to the nearest float, as the
    parser of Python does (both [n] and [d] below 2^53). *)
Definition of_ratio (n d : Z) : float := div (of_Z n) (of_Z d).

(** The float Python prints as 66.66666666666666. *)
Definition percent_66_67 : float := S754_finite false 4691249611844266 (-46).

(** The float nearest to 30000000.2. *)
Definition income_30000000_2 : float := of_ratio 300000002 10.

(** *** Vocabulary of the rounding analysis *)

(** [x] is an infinity or a finite number of sign [s]. *)
Definition signed (s : bool) (x : float) : Prop :=
  match x with
  | S754_finite s' _ _ | S754_infinity s' => s' = s
  | S754_zero _ | S754_nan => False
  end.

(** Where the bits dropped by a right shift of [k] places, [rem], lie in
    [0, 2^k), as the round bit [r] and the sticky bit [s] record it. *)
Definition rem_class (k rem : Z) (r s : bool) : Prop :=
  match r, s with
  | false, false => rem = 0
  | false, true => 0 < rem /\ 2 * rem < 2 ^ k
  | true, false => 2 * rem = 2 ^ k
  | true, true => 2 ^ k < 2 * rem /\ rem < 2 ^ k
  end.

(** The record [mrs] is the number [m] shifted right by [k] places. *)
Definition shifted (m k : Z) (mrs : shr_record) : Prop :=
  0 <= shr_m mrs
  /\ rem_class k (m - shr_m mrs * 2 ^ k) (shr_r mrs) (shr_s mrs).

(** The value of the positive number [m * 2^e]. *)
Definition dyadic (m e : Z) : Q := (inject_Z m * pow2Q e)%Q.

(** Half a unit in the last place of the rounded [m * 2^e], as a number
    of units [2^e]: nothing when no bit is dropped. *)
Definition half_ulp (m : positive) (e : Z) : Z :=
  let n := fexp prec emax (Z.pos (digits2_pos m) + e) - e in
  if n <=? 0 then 0 else 2 ^ (n - 1).

(** A float that is not negative, from its mantissa and exponent. *)
Definition nonneg_float (m e : Z) : float :=
  match m with
  | Z0 => S754_zero false
  | Zpos q => S754_finite false q e
  | Zneg _ => S754_nan
  end.

(** The unit roundoff and the least error of binary64. *)
Definition unit_roundoff : Q := pow2Q (-53).
Definition least_error : Q := pow2Q (-1075).

End Binary64.

(** ** Exceptions *)

Inductive exn : Type :=
| ZeroDivisionError.

Inductive result (A : Type) : Type :=
| Ok (a : A)
| Raise (e : exn).

Arguments Ok {A} a.
Arguments Raise {A} e.

(** Python's [/] on floats: a zero divisor of either sign raises. *)
Definition truediv (x y : Binary64.float) : result Binary64.float :=
  if Binary64.eqb y Binary64.zero then Raise ZeroDivisionError
  else Ok (Binary64.div x y).

(** Python's [sum] over floats with the default start [0]: the items are
    added from left to right.  (The start is the int 0, which a float
    addition turns into 0.0; interpreters that carry a compensation term
    through the additions are not modelled.) *)
Definition sum (l : list Binary64.float) : Binary64.float :=
  fold_left Binary64.add l Binary64.zero.

(** ** tools/impact_simulator.py *)
Module ImpactSimulator.
Import Binary64.

(** The dictionary returned by [assess_transaction]; a key that one of
    the two return statements leaves out is [None]. *)
Record assessment : Type := {
  status : string;
  reason : string;
  remaining_balance : float;
  impact_on_savings : option string;
  cost_percentage_of_free_cash : option float
}.

Definition assess_transaction
    (current_discretionary_balance current_savings savings_goal item_cost : float)
    : result assessment :=
  let remaining_balance := sub current_discretionary_balance item_cost in
  if ltb remaining_balance zero then
    Ok {| status := "DANGER";
          reason := "Insufficient funds. This purchase puts you in debt.";
          remaining_balance := remaining_balance;
          impact_on_savings := Some "N/A"%string;
          cost_percentage_of_free_cash := None |}
  else
    let '(risk_level, advice) :=
      if gtb item_cost (mul current_discretionary_balance lit_0_5)
      then ("CAUTION"%string,
            "This uses more than 50% of your remaining monthly 'fun money'."%string)
      else ("SAFE"%string, "You have enough budget for this."%string) in
    match truediv item_cost current_discretionary_balance with
    | Raise e => Raise e
    | Ok q =>
        Ok {| status := risk_level;
              reason := advice;
              remaining_balance := remaining_balance;
              impact_on_savings := None;
              cost_percentage_of_free_cash := Some (mul q lit_100) |}
    end.

End ImpactSimulator.

(** ** tools/budget_calculator.py *)
Module BudgetCalculator.
Import Binary64.

(** The dictionary of [calculate_50_30_20]. *)
Record split : Type := {
  needs : float;
  wants : float;
  savings : float
}.

Definition calculate_50_30_20 (income : float) : split :=
  {| needs := mul income lit_0_50;
     wants := mul income lit_0_30;
     savings := mul income lit_0_20 |}.

(** The dictionary of [calculate_remaining_after_fixed]: the deficit
    record has the keys [status], [discretionary] and [needs_gap], the
    surplus record has [status] and the four others. *)
Record plan : Type := {
  status : string;
  discretionary : option float;
  needs_gap : option float;
  needs_total : option float;
  discretionary_total : option float;
  recommended_savings : option float;
  recommended_wants : option float
}.

Definition calculate_remaining_after_fixed (income fixed_expenses_total : float) : plan :=
  let discretionary := sub income fixed_expenses_total in
  if ltb discretionary zero then
    {| status := "deficit";
       discretionary := Some zero;
       needs_gap := Some (abs discretionary);
       needs_total := None;
       discretionary_total := None;
       recommended_savings := None;
       recommended_wants := None |}
  else
    {| status := "surplus";
       discretionary := None;
       needs_gap := None;
       needs_total := Some fixed_expenses_total;
       discretionary_total := Some discretionary;
       recommended_savings := Some (mul discretionary lit_0_40);
       recommended_wants := Some (mul discretionary lit_0_60) |}.

End BudgetCalculator.

(** ** memory/storage.py *)
Module StorageEngine.
Import Binary64.

Record profile : Type := {
  monthly_income : float;
  savings_goal : float;
  currency : string
}.

(** An entry of [fixed_expenses]: [{name, amount}]. *)
Record fixed_expense : Type := {
  name : string;
  amount : float
}.

(** An entry of [transactions]:
    [{date, description, amount, category, type}].  The field [type]
    is read with [dict.get], so a document may lack it. *)
Record transaction : Type := {
  date : string;
  description : string;
  tx_amount : float;
  category : string;
  tx_type : option string
}.

(** A JSON scalar of the stored budget plan. *)
Inductive scalar : Type :=
| Num (x : float)
| Str (s : string).

(** The JSON document behind [db_path]. *)
Record data : Type := {
  user_profile : profile;
  fixed_expenses : list fixed_expense;
  transactions : list transaction;
  budget_plan : list (string * scalar)
}.

Definition initial_data : data :=
  {| user_profile := {| monthly_income := zero;
                        savings_goal := zero;
                        currency := "â‚¹" |};
     fixed_expenses := [];
     transactions := [];
     budget_plan := [] |}.

(** [_initialize_db]: the document is created when the file is absent
    ([None]) and left alone otherwise. *)
Definition _initialize_db (file : option data) : data :=
  match file with
  | None => initial_data
  | Some d => d
  end.

(** Each operation below loads the whole document, changes it and
    saves it back; [json] reads back the floats it wrote, so the state is
    the document. *)

Definition update_user_profile (income savings_goal : float) (d : data) : data :=
  {| user_profile := {| monthly_income := income;
                        savings_goal := savings_goal;
                        currency := currency (user_profile d) |};
     fixed_expenses := fixed_expenses d;
     transactions := transactions d;
     budget_plan := budget_plan d |}.

Definition get_user_profile (d : data) : profile := user_profile d.

(** [e["name"] != name] *)
Definition name_differs (n : string) (e : fixed_expense) : bool :=
  negb (String.eqb (name e) n).

Definition add_fixed_expense (n : string) (a : float) (d : data) : data :=
  {| user_profile := user_profile d;
     fixed_expenses :=
       filter (name_differs n) (fixed_expenses d) ++ [{| name := n; amount := a |}];
     transactions := transactions d;
     budget_plan := budget_plan d |}.

Definition get_fixed_expenses (d : data) : list fixed_expense := fixed_expenses d.

Definition log_transaction (t : transaction) (d : data) : data :=
  {| user_profile := user_profile d;
     fixed_expenses := fixed_expenses d;
     transactions := transactions d ++ [t];
     budget_plan := budget_plan d |}.

Definition get_transactions (d : data) : list transaction := transactions d.

Definition save_budget_plan (p : list (string * scalar)) (d : data) : data :=
  {| user_profile := user_profile d;
     fixed_expenses := fixed_expenses d;
     transactions := transactions d;
     budget_plan := p |}.

Definition get_budget_plan (d : data) : list (string * scalar) := budget_plan d.

(** The entries of the document named [n]. *)
Definition named (n : string) (d : data) : list fixed_expense :=
  filter (fun e => String.eqb (name e) n) (fixed_expenses d).

(** Every transaction of the document has the type "expense". *)
Definition all_expenses (d : data) : Prop :=
  Forall (fun t => tx_type t = Some "expense"%string) (transactions d).

(** A document with the rent and the phone bill. *)
Definition two_expenses : data :=
  add_fixed_expense "Phone" (of_Z 40) (add_fixed_expense "Rent" (of_Z 500) initial_data).

End StorageEngine.

(** ** agents/state_agent.py *)
Module FinancialStateAgent.
Import Binary64.

Definition get_profile (d : StorageEngine.data) : StorageEngine.profile :=
  StorageEngine.get_user_profile d.

Definition update_profile (income savings_goal : float)
    (d : StorageEngine.data) : StorageEngine.data :=
  StorageEngine.update_user_profile income savings_goal d.

Definition add_fixed_expense (n : string) (a : float)
    (d : StorageEngine.data) : StorageEngine.data :=
  StorageEngine.add_fixed_expense n a d.

Definition get_total_fixed_expenses (d : StorageEngine.data) : float :=
  sum (map StorageEngine.amount (StorageEngine.get_fixed_expenses d)).

(** [now] is the string [datetime.now().isoformat()] gave at the call. *)
Definition log_transaction (now item_name : string) (a : float) (cat : string)
    (d : StorageEngine.data) : StorageEngine.data :=
  let transaction :=
    {| StorageEngine.date := now;
       StorageEngine.description := item_name;
       StorageEngine.tx_amount := a;
       StorageEngine.category := cat;
       StorageEngine.tx_type := Some "expense"%string |} in
  StorageEngine.log_transaction transaction d.

(** [t.get('type') == 'expense'] *)
Definition is_expense (t : StorageEngine.transaction) : bool :=
  match StorageEngine.tx_type t with
  | Some k => String.eqb k "expense"
  | None => false
  end.

(** [sum(t['amount'] for t in transactions if t.get('type') == 'expense')]:
    the generator hands [sum] the amounts of the transactions that pass
    the test, one by one, and [sum] adds each to its running total. *)
Definition variable_spend (ts : list StorageEngine.transaction) : float :=
  fold_left
    (fun acc t => if is_expense t then add acc (StorageEngine.tx_amount t) else acc)
    ts zero.

(** The dictionary of [get_todays_state].  The document always has the
    keys [monthly_income] and [savings_goal], so the defaults given to
    [profile.get] are never used. *)
Record snapshot : Type := {
  income : float;
  total_fixed_expenses : float;
  variable_expenses : float;
  savings_goal : float;
  free_cash_flow : float
}.

Definition get_todays_state (d : StorageEngine.data) : snapshot :=
  let profile := get_profile d in
  let fixed := get_total_fixed_expenses d in
  let transactions := StorageEngine.get_transactions d in
  let variable_spend := variable_spend transactions in
  {| income := StorageEngine.monthly_income profile;
     total_fixed_expenses := fixed;
     variable_expenses := variable_spend;
     savings_goal := StorageEngine.savings_goal profile;
     free_cash_flow :=
       sub (sub (StorageEngine.monthly_income profile) fixed) variable_spend |}.

(** The methods of the agent, as requests. *)
Inductive request : Type :=
| GetProfile
| UpdateProfile (income savings_goal : float)
| AddFixedExpense (n : string) (a : float)
| GetTotalFixedExpenses
| LogTransaction (now item_name : string) (a : float) (cat : string)
| GetTodaysState.

(** The document a request leaves behind. *)
Definition handle (r : request) (d : StorageEngine.data) : StorageEngine.data :=
  match r with
  | UpdateProfile i g => update_profile i g d
  | AddFixedExpense n a => add_fixed_expense n a d
  | LogTransaction now item a cat => log_transaction now item a cat d
  | GetProfile | GetTotalFixedExpenses | GetTodaysState => d
  end.

Definition run (rs : list request) (d : StorageEngine.data) : StorageEngine.data :=
  fold_left (fun acc r => handle r acc) rs d.

End FinancialStateAgent.

(** ** agents/purchase_agent.py and agents/budget_agent.py *)
Module PurchaseImpactAgent.
Import Binary64.

(** The assessment with the keys [item] and [cost] added. *)
Record report : Type := {
  assessment : ImpactSimulator.assessment;
  item : string;
  cost : float
}.

Definition analyze_purchase (item_name : string) (c : float) (cat : string)
    (d : StorageEngine.data) : result report :=
  let state := FinancialStateAgent.get_todays_state d in
  let discretionary_income := FinancialStateAgent.free_cash_flow state in
  let savings_goal := FinancialStateAgent.savings_goal state in
  match ImpactSimulator.assess_transaction discretionary_income zero savings_goal c with
  | Raise e => Raise e
  | Ok a => Ok {| assessment := a; item := item_name; cost := c |}
  end.

Definition confirm_purchase (now item_name : string) (c : float) (cat : string)
    (d : StorageEngine.data) : StorageEngine.data :=
  FinancialStateAgent.log_transaction now item_name c cat d.

End PurchaseImpactAgent.

Module BudgetPlanningAgent.
Import Binary64.

Record budget : Type := {
  income : float;
  fixed_expenses : float;
  plan_details : BudgetCalculator.plan;
  strategy : string
}.

Definition create_budget_plan (d : StorageEngine.data) : budget :=
  let state := FinancialStateAgent.get_todays_state d in
  let income := FinancialStateAgent.income state in
  let fixed_expenses := FinancialStateAgent.total_fixed_expenses state in
  let plan := BudgetCalculator.calculate_remaining_after_fixed income fixed_expenses in
  {| income := income;
     fixed_expenses := fixed_expenses;
     plan_details := plan;
     strategy := "Needs-First Allocation" |}.

End BudgetPlanningAgent.

(** ** agents/reflection_agent.py *)
Module ReflectionAgent.

(** [f"{count}"] for the length of a list: its decimal digits. *)
Definition str_int (n : nat) : string := NilEmpty.string_of_uint (Nat.to_uint n).

Definition generate_monthly_review (d : StorageEngine.data) : string :=
  let transactions := StorageEngine.get_transactions d in
  match transactions with
  | [] => "No transaction history to review yet."
  | _ :: _ =>
      let count := List.length transactions in
      ("I notice you have logged " ++ str_int count
         ++ " transactions. Keep tracking to get better insights!")%string
  end.

End ReflectionAgent.

(** ** llm/llm_interface.py

    A Python [str] is kept as the bytes of its UTF-8 encoding.  The
    conversion of a float to text, [format(x, spec)], which an f-string
    calls with the empty spec for [{x}] and with ".2f" for [{x:.2f}], is
    a parameter [format]; so is the answer of the remote model,
    [hugging_face]. *)

(** The context that the mentor hands to the providers. *)
Record context : Type := {
  user_income : Binary64.float;
  ctx_savings_goal : Binary64.float;
  ctx_item : string;
  ctx_cost : Binary64.float;
  ctx_status : string;
  ctx_reason : string;
  ctx_remaining_balance : Binary64.float
}.

(** The line feed. *)
Definition nl : string := String (Ascii.ascii_of_nat 10) EmptyString.

Module MockLLMProvider.
Import Binary64.

(** The context built by the mentor has all its keys, so the defaults
    given to [context.get] are not used. *)
Definition generate_response (format : float -> string -> string) (c : context)
    : string :=
  let item_name := ctx_item c in
  let cost := ctx_cost c in
  let status := ctx_status c in
  let reason := ctx_reason c in
  let remaining := ctx_remaining_balance c in
  if String.eqb status "DANGER" then
    ("🚫 **Mentor Advice**: I strongly advise against buying the **" ++ item_name
       ++ "** (₹" ++ format cost "" ++ ")." ++ nl ++ nl
       ++ "**Why?** " ++ reason ++ nl
       ++ "Buying this would leave you with only ₹" ++ format remaining ".2f"
       ++ ", which is financially dangerous."
       ++ nl ++ nl
       ++ "**Recommendation**: Wait until next month or look for a cheaper alternative.")%string
  else if String.eqb status "CAUTION" then
    ("⚠️ **Mentor Advice**: Proceed with caution regarding the **" ++ item_name
       ++ "** (₹" ++ format cost "" ++ ")." ++ nl ++ nl
       ++ "**Why?** " ++ reason ++ nl
       ++ "You can afford it, but it might stretch your budget. You will have ₹"
       ++ format remaining ".2f" ++ " left."
       ++ nl ++ nl
       ++ "**Recommendation**: If this is a 'Want', maybe sleep on it for 24 hours.")%string
  else if String.eqb status "SAFE" then
    ("✅ **Mentor Advice**: This purchase of **" ++ item_name
       ++ "** (₹" ++ format cost "" ++ ") is within your budget." ++ nl ++ nl
       ++ "**Analysis**: " ++ reason ++ nl
       ++ "You will still have ₹" ++ format remaining ".2f" ++ " available."
       ++ nl ++ nl
       ++ "**Recommendation**: Enjoy your purchase guilt-free!")%string
  else "I cannot assess this purchase without a valid risk status.".

End MockLLMProvider.

Module LLMInterface.
Import Binary64.

(** The providers that [_select_provider] can return. *)
Inductive LLMProvider : Type :=
| HuggingFaceProvider (api_token : string)
| MockProvider.

(** [hf_token] is what [os.getenv] gave for HF_TOKEN: [None] when the
    variable is not set; a string is true when it is not empty. *)
Definition _select_provider (hf_token : option string) : LLMProvider :=
  match hf_token with
  | Some (String _ _ as token) => HuggingFaceProvider token
  | Some EmptyString | None => MockProvider
  end.

Definition generate_response
    (format : float -> string -> string)
    (hugging_face : string -> context -> string)
    (_provider : LLMProvider) (c : context) : string :=
  match _provider with
  | HuggingFaceProvider api_token => hugging_face api_token c
  | MockProvider => MockLLMProvider.generate_response format c
  end.

End LLMInterface.

(** ** agents/mentor_agent.py *)
Module MentorReasoningAgent.

(** [llm] is the [generate_response] of the interface the agent holds. *)
Definition provide_advice (llm : context -> string)
    (user_profile : StorageEngine.profile)
    (purchase_analysis : PurchaseImpactAgent.report) : string :=
  let a := PurchaseImpactAgent.assessment purchase_analysis in
  llm {| user_income := StorageEngine.monthly_income user_profile;
         ctx_savings_goal := StorageEngine.savings_goal user_profile;
         ctx_item := PurchaseImpactAgent.item purchase_analysis;
         ctx_cost := PurchaseImpactAgent.cost purchase_analysis;
         ctx_status := ImpactSimulator.status a;
         ctx_reason := ImpactSimulator.reason a;
         ctx_remaining_balance := ImpactSimulator.remaining_balance a |}.

End MentorReasoningAgent.

(** ** app.py

    The script is run from top to bottom once for each interaction with
    a widget, with the button that was pressed true and the others
    false; [st.rerun()] ends the run and starts another one in which no
    button is pressed.  The values that the widgets hold in a run come
    with the button. *)
Module App.
Import Binary64.

(** The keys of [st.session_state] that the script uses;
    [analysis_done] is only ever set to [True], so [false] stands for
    the key being absent. *)
Record session_state : Type := {
  analysis_done : bool;
  current_analysis : option PurchaseImpactAgent.report;
  current_advice : option string
}.

Definition new_session : session_state :=
  {| analysis_done := false; current_analysis := None; current_advice := None |}.

(** [del st.session_state['analysis_done']] *)
Definition del_analysis_done (s : session_state) : session_state :=
  {| analysis_done := false;
     current_analysis := current_analysis s;
     current_advice := current_advice s |}.

Inductive button : Type :=
| NoButton
| UpdateProfile (income savings_goal : float)
| AddExpense (exp_name : string) (exp_amount : float)
| AnalyzePurchase (item_name : string) (item_cost : float) (category : string)
| IBoughtThis (now category : string)
| IChangedMyMind.

(** What can end a run early. *)
Inductive error : Type :=
| Uncaught (e : exn)
| KeyError (key : string).

Inductive outcome (A : Type) : Type :=
| Done (a : A)
| Rerun (a : A)
| Failed (e : error).

Arguments Done {A} a.
Arguments Rerun {A} a.
Arguments Failed {A} e.

(** The slice [transactions[-5:]] of the side bar. *)
Definition recent_purchases (d : StorageEngine.data) : list StorageEngine.transaction :=
  let transactions := StorageEngine.get_transactions d in
  skipn (List.length transactions - 5) transactions.

(** What the dashboard shows: three metrics, and either the two
    recommended amounts or the warning ([None]). *)
Record dashboard_view : Type := {
  shown_income : float;
  shown_fixed_expenses : float;
  shown_free_cash_flow : float;
  shown_recommendation : option (float * float)
}.

Definition dashboard (d : StorageEngine.data) : error + dashboard_view :=
  let todays_state := FinancialStateAgent.get_todays_state d in
  let budget_plan := BudgetPlanningAgent.create_budget_plan d in
  let plan_details := BudgetPlanningAgent.plan_details budget_plan in
  let view r :=
    {| shown_income := FinancialStateAgent.income todays_state;
       shown_fixed_expenses := FinancialStateAgent.total_fixed_expenses todays_state;
       shown_free_cash_flow := FinancialStateAgent.free_cash_flow todays_state;
       shown_recommendation := r |} in
  if String.eqb (BudgetCalculator.status plan_details) "surplus" then
    match BudgetCalculator.recommended_savings plan_details with
    | None => inl (KeyError "recommended_savings")
    | Some rec_savings =>
        match BudgetCalculator.recommended_wants plan_details with
        | None => inl (KeyError "recommended_wants")
        | Some rec_wants => inr (view (Some (rec_savings, rec_wants)))
        end
    end
  else inr (view None).

(** One run of the script. *)
Definition script (llm : context -> string) (b : button)
    (d : StorageEngine.data) (s : session_state)
    : outcome (StorageEngine.data * session_state) :=
  match b with
  | UpdateProfile income savings_goal =>
      Rerun (FinancialStateAgent.update_profile income savings_goal d, s)
  | AddExpense exp_name exp_amount =>
      Rerun (FinancialStateAgent.add_fixed_expense exp_name exp_amount d, s)
  | _ =>
      match dashboard d with
      | inl e => Failed e
      | inr _ =>
          let analysed :=
            match b with
            | AnalyzePurchase item_name item_cost category =>
                if gtb item_cost zero then
                  match PurchaseImpactAgent.analyze_purchase item_name item_cost category d with
                  | Raise e => inl (Uncaught e)
                  | Ok analysis =>
                      let advice :=
                        MentorReasoningAgent.provide_advice llm
                          (FinancialStateAgent.get_profile d) analysis in
                      inr {| analysis_done := true;
                             current_analysis := Some analysis;
                             current_advice := Some advice |}
                  end
                else inr s
            | _ => inr s
            end in
          match analysed with
          | inl e => Failed e
          | inr s =>
              if analysis_done s then
                match current_analysis s with
                | None => Failed (KeyError "current_analysis")
                | Some analysis =>
                    match current_advice s with
                    | None => Failed (KeyError "current_advice")
                    | Some advice =>
                        match b with
                        | IBoughtThis now category =>
                            Rerun (PurchaseImpactAgent.confirm_purchase now
                                     (PurchaseImpactAgent.item analysis)
                                     (PurchaseImpactAgent.cost analysis) category d,
                                   del_analysis_done s)
                        | IChangedMyMind => Rerun (d, del_analysis_done s)
                        | _ => Done (d, s)
                        end
                    end
                end
              else Done (d, s)
          end
      end
  end.

(** An interaction: the run it starts, and the run that follows a
    [st.rerun()]. *)
Definition interact (llm : context -> string) (b : button)
    (st : StorageEngine.data * session_state)
    : error + StorageEngine.data * session_state :=
  match script llm b (fst st) (snd st) with
  | Done st' => inr st'
  | Rerun st' =>
      match script llm NoButton (fst st') (snd st') with
      | Done st'' | Rerun st'' => inr st''
      | Failed e => inl e
      end
  | Failed e => inl e
  end.

(** A visit: the interactions one after the other, up to the first
    that fails. *)
Fixpoint visit (llm : context -> string) (bs : list button)
    (st : StorageEngine.data * session_state)
    : error + StorageEngine.data * session_state :=
  match bs with
  | [] => inr st
  | b :: bs' =>
      match interact llm b st with
      | inl e => inl e
      | inr st' => visit llm bs' st'
      end
  end.

End App.

(** ** Vocabulary of the statements *)
Module Ledger.
Import Binary64 StorageEngine.

(** The amounts that the requests [rs] give to the expense [n], in the
    order of the requests. *)
Definition written (n : string) (rs : list FinancialStateAgent.request) : list float :=
  flat_map (fun r => match r with
                     | FinancialStateAgent.AddFixedExpense m a =>
                         if String.eqb m n then [a] else []
                     | _ => []
                     end) rs.

(** The transactions that the requests [rs] log, in their order. *)
Definition logged (rs : list FinancialStateAgent.request) : list transaction :=
  flat_map (fun r => match r with
                     | FinancialStateAgent.LogTransaction now item_name a cat =>
                         [ {| date := now; description := item_name; tx_amount := a;
                              category := cat; tx_type := Some "expense"%string |} ]
                     | _ => []
                     end) rs.

(** The floats of the document are floats of the format. *)
Definition valid_amounts (d : data) : Prop :=
  valid (monthly_income (user_profile d))
  /\ Forall valid (map amount (fixed_expenses d))
  /\ Forall valid (map tx_amount (transactions d)).

(** No amount of the document is negative or NaN. *)
Definition amounts_not_negative (d : data) : Prop :=
  Forall (fun x => geb x zero = true) (map amount (fixed_expenses d))
  /\ Forall (fun x => geb x zero = true) (map tx_amount (transactions d)).

(** The sum of whole numbers. *)
Definition total (l : list Z) : Z := fold_right Z.add 0 l.

(** A value of a dictionary, when the key is there, is not below zero. *)
Definition not_negative (o : option float) : Prop :=
  match o with
  | Some x => ltb x zero = false
  | None => True
  end.

End Ledger.

Module Visits.
Import Binary64 StorageEngine App.

(** When an analysis is on display, the session holds it and its
    advice, and its cost is above zero. *)
Definition session_ok (s : session_state) : Prop :=
  analysis_done s = true ->
  exists r advice,
    current_analysis s = Some r /\ current_advice s = Some advice
    /\ gtb (PurchaseImpactAgent.cost r) zero = true.

(** The number of analyses asked for with a cost above zero. *)
Definition analyses (bs : list button) : nat :=
  List.length (filter (fun b => match b with
                                | AnalyzePurchase _ item_cost _ => gtb item_cost zero
                                | _ => false
                                end) bs).

(** An expense of a cost above zero. *)
Definition purchase (t : transaction) : Prop :=
  tx_type t = Some "expense"%string /\ gtb (tx_amount t) zero = true.

(** One when an analysis is on display, zero otherwise. *)
Definition flag (s : session_state) : nat :=
  if analysis_done s then 1%nat else 0%nat.





End Visits.

Module Located.
Import Binary64.

(** Where a remainder [rem] of a division by [W] lies in [0, W), as the
    round bit [r] and the sticky bit [s] record it. *)
Definition rem_class_w (W rem : Z) (r s : bool) : Prop :=
  match r, s with
  | false, false => rem = 0
  | false, true => 0 < rem /\ 2 * rem < W
  | true, false => 2 * rem = W
  | true, true => W < 2 * rem /\ rem < W
  end.

(** The record [mrs] holds the quotient of [N] by [W], rounded down,
    and the place of the remainder. *)
Definition shifted_w (N W : Z) (mrs : shr_record) : Prop :=
  0 <= shr_m mrs
  /\ rem_class_w W (N - shr_m mrs * W) (shr_r mrs) (shr_s mrs).

(** The float of the sign [sx], the mantissa [m] and the exponent [e],
    an infinity when the exponent is above the largest. *)
Definition float_of (sx : bool) (m e : Z) : float :=
  match m with
  | Z0 => S754_zero sx
  | Zpos q => if e <=? 971 then S754_finite sx q e else S754_infinity sx
  | Zneg _ => S754_nan
  end.

(** The mantissa [m] at the exponent [e] is the way the format writes
    its number. *)
Definition canonical (m e : Z) : Prop :=
  0 < m /\ fexp prec emax (Zdigits2 m + e) = e.

(** No number of the format lies between [x] and [m * 2^e], which is
    zero or a number of the format itself (exponent range apart). *)
Definition faithful (x : Q) (m e : Z) : Prop :=
  0 <= m
  /\ (m = 0 \/ canonical m e)
  /\ forall M E, canonical M E ->
       ((x <= dyadic M E)%Q -> (dyadic m e <= dyadic M E)%Q)
       /\ ((dyadic M E <= x)%Q -> (dyadic M E <= dyadic m e)%Q).

(** The quotient of [N] by [D], in units of [2^e]. *)
Definition quotient (N D e : Z) : Q := (inject_Z N / inject_Z D * pow2Q e)%Q.

(** [R] is the whole number nearest to [t], the even one of the two
    when [t] lies half way. *)
Definition nearest_even (t : Q) (R : Z) : Prop :=
  (Qabs (inject_Z R - t) <= 1 # 2)%Q
  /\ ((Qabs (inject_Z R - t) == 1 # 2)%Q -> Z.even R = true).

(** [v] is [x] rounded to nearest, ties to even, in the format: [x]
    lies in the binade below [2^g], and [v] is the multiple of the
    step of that binade nearest to [x].  Nothing is said of overflow:
    [v] may be [2^1024]. *)
Definition rounds (x v : Q) : Prop :=
  exists g R,
    (pow2Q (g - 1) <= x < pow2Q g)%Q
    /\ nearest_even (x / pow2Q (fexp prec emax g)) R
    /\ (v == dyadic R (fexp prec emax g))%Q.

(** The float [r] is the number [z] rounded to nearest, with its
    sign: a zero for zero, and the rounded size of [z] under the sign
    of [z] otherwise (an infinity on overflow). *)
Definition rounded (z : Q) (r : float) : Prop :=
  ((z == 0)%Q -> exists s, r = S754_zero s)
  /\ ((0 < z)%Q ->
      exists m e, r = float_of false m e /\ 0 <= m /\ (m = 0 \/ canonical m e)
                  /\ rounds z (dyadic m e))
  /\ ((z < 0)%Q ->
      exists m e, r = float_of true m e /\ 0 <= m /\ (m = 0 \/ canonical m e)
                  /\ rounds (- z) (dyadic m e)).

End Located.

Module Samples.
Import Binary64 StorageEngine.

(** A document with an income of 50000, a rent of 20000, a phone bill
    of 500 and one purchase of 2000. *)
Definition sample_document : data :=
  FinancialStateAgent.run
    [ FinancialStateAgent.UpdateProfile (of_Z 50000) (of_Z 100000);
      FinancialStateAgent.AddFixedExpense "Rent" (of_Z 20000);
      FinancialStateAgent.AddFixedExpense "Phone" (of_Z 500);
      FinancialStateAgent.LogTransaction "2024-01-01T10:00:00" "Shoes" (of_Z 2000) "Wants" ]
    initial_data.

(** A visit: a book of 500 is analysed and bought. *)
Definition sample_visit : list App.button :=
  [ App.AddExpense "Gym" (of_Z 1500);
    App.AnalyzePurchase "Book" (of_Z 500) "Wants";
    App.IBoughtThis "2024-01-02T09:30:00" "Wants" ].

(** A provider that answers with the status it is given. *)
Definition echo_status (c : context) : string := ctx_status c.

(** A conversion of floats to text that tells nothing. *)
Definition no_digits (x : float) (spec : string) : string := "?".

End Samples.

(** * Facts about binary64 arithmetic *)
Module Binary64Facts.
Import Binary64.

(** The exponent binary64 gives a number whose leading bit has position
    [k]: 53 bits of mantissa, and no exponent below -1074. *)
Lemma fexp_eq (k : Z) : fexp prec emax k = Z.max (k - 53) (-1074).
Proof. reflexivity. Qed.

Lemma digits2_pos_size (p : positive) : digits2_pos p = Pos.size p.
Proof. induction p; simpl; congruence. Qed.

(** A positive number of [d] binary digits lies in [2^(d-1), 2^d). *)
Lemma digits_bounds (p : positive) :
  2 ^ (Z.pos (digits2_pos p) - 1) <= Z.pos p < 2 ^ Z.pos (digits2_pos p).
Proof.
  rewrite digits2_pos_size. split.
  - pose proof (Pos.size_le p) as H.
    assert (H2 : 2 ^ Z.pos (Pos.size p) <= 2 * Z.pos p).
    { change (2 * Z.pos p) with (Z.pos p~0).
      rewrite <- Pos2Z.inj_pow. apply Pos2Z.pos_le_pos. exact H. }
    replace (Z.pos (Pos.size p)) with (Z.succ (Z.pos (Pos.size p) - 1)) in H2 by lia.
    rewrite Z.pow_succ_r in H2 by lia. lia.
  - pose proof (Pos.size_gt p) as H.
    rewrite <- Pos2Z.inj_pow. apply Pos2Z.pos_lt_pos. exact H.
Qed.

(** Shifting right: the iteration, and what it does to the mantissa. *)
Lemma iter_pos_iter {A : Type} (f : A -> A) (p : positive) (x : A) :
  iter_pos f p x = Pos.iter f x p.
Proof.
  revert x. induction p as [p IH | p IH | ]; intro x; simpl.
  - rewrite !IH. rewrite <- !Pos.iter_swap. reflexivity.
  - rewrite !IH. reflexivity.
  - reflexivity.
Qed.

Lemma shr_1_m (mrs : shr_record) :
  0 <= shr_m mrs -> shr_m (shr_1 mrs) = Z.div2 (shr_m mrs).
Proof.
  destruct mrs as [m r s]. simpl. intros Hm.
  destruct m as [ | [ p | p | ] | p ]; try reflexivity; lia.
Qed.

Lemma iter_shr_1_m (p : positive) (mrs : shr_record) :
  0 <= shr_m mrs ->
  shr_m (iter_pos shr_1 p mrs) = shr_m mrs / 2 ^ Z.pos p.
Proof.
  rewrite iter_pos_iter. revert mrs.
  induction p as [ | p IH ] using Pos.peano_ind; intros mrs Hm.
  - simpl. rewrite shr_1_m by assumption. rewrite Z.div2_div. reflexivity.
  - rewrite Pos.iter_succ. rewrite shr_1_m.
    + rewrite IH by assumption. rewrite Z.div2_div.
      rewrite Z.div_div by lia.
      rewrite Pos2Z.inj_succ. rewrite Z.pow_succ_r by lia.
      f_equal. lia.
    + rewrite IH by assumption. apply Z.div_pos; lia.
Qed.

(** The first step of rounding keeps a positive mantissa positive when
    the exponent is not below the least one. *)
Lemma shr_fexp_pos (m : positive) (e : Z) (l : location) :
  -1074 <= e ->
  0 < shr_m (fst (shr_fexp prec emax (Z.pos m) e l))
  /\ -1074 <= snd (shr_fexp prec emax (Z.pos m) e l).
Proof.
  intros He. unfold shr_fexp. rewrite fexp_eq. simpl Zdigits2.
  pose proof (digits_bounds m) as [Hlo Hhi].
  set (d := Z.pos (digits2_pos m)) in *.
  assert (Hrec : shr_m (shr_record_of_loc (Z.pos m) l) = Z.pos m).
  { destruct l as [ | [ | | ] ]; reflexivity. }
  destruct (Z.max (d + e - 53) (-1074) - e) as [ | n | n ] eqn:Hn; simpl.
  - rewrite Hrec. lia.
  - rewrite iter_shr_1_m by (rewrite Hrec; lia). rewrite Hrec.
    assert (Hnd : Z.pos n <= d - 1) by lia.
    split; [ | lia ].
    apply Z.div_str_pos. split; [ lia | ].
    apply Z.le_trans with (2 ^ (d - 1)); [ | exact Hlo ].
    apply Z.pow_le_mono_r; lia.
  - rewrite Hrec. lia.
Qed.

Lemma round_nearest_even_ge (m : Z) (l : location) :
  m <= round_nearest_even m l.
Proof.
  destruct l as [ | [ | | ] ]; simpl; try lia.
  destruct (Z.even m); lia.
Qed.

(** Rounding a nonzero number never gives a zero: there is no
    underflow to zero from an exponent the format has. *)
Lemma binary_round_aux_signed (s : bool) (m : positive) (e : Z) (l : location) :
  -1074 <= e -> signed s (binary_round_aux prec emax s (Z.pos m) e l).
Proof.
  intros He. unfold binary_round_aux.
  pose proof (shr_fexp_pos m e l He) as [H1 H1e].
  destruct (shr_fexp prec emax (Z.pos m) e l) as [mrs' e'].
  simpl in H1, H1e.
  pose proof (round_nearest_even_ge (shr_m mrs') (loc_of_shr_record mrs')) as Hr.
  destruct (round_nearest_even (shr_m mrs') (loc_of_shr_record mrs'))
    as [ | q | q ]; try lia.
  pose proof (shr_fexp_pos q e' loc_Exact H1e) as [H2 _].
  destruct (shr_fexp prec emax (Z.pos q) e' loc_Exact) as [mrs'' e''].
  simpl in H2.
  destruct (shr_m mrs'') as [ | q' | q' ]; try lia.
  destruct (e'' <=? emax - prec); reflexivity.
Qed.

Lemma pos_iter_xO (m d : positive) :
  Z.pos (Pos.iter xO m d) = Z.pos m * 2 ^ Z.pos d.
Proof.
  induction d as [ | d IH ] using Pos.peano_ind.
  - simpl. lia.
  - rewrite Pos.iter_succ. rewrite Pos2Z.inj_xO, IH.
    rewrite Pos2Z.inj_succ, Z.pow_succ_r by lia. lia.
Qed.

(** Aligning a mantissa to a smaller exponent multiplies it by the
    matching power of two. *)
Lemma shl_align_fst (m : positive) (e e' : Z) :
  e' <= e -> Z.pos (fst (shl_align m e e')) = Z.pos m * 2 ^ (e - e').
Proof.
  intros Hle. unfold shl_align.
  destruct (e' - e) as [ | d | d ] eqn:Hd; simpl.
  - replace (e - e') with 0 by lia. rewrite Z.pow_0_r. lia.
  - lia.
  - rewrite pos_iter_xO. replace (e - e') with (Z.pos d) by lia. reflexivity.
Qed.

Lemma shl_align_snd (m : positive) (e e' : Z) :
  -1074 <= e -> -1074 <= e' -> -1074 <= snd (shl_align m e e').
Proof.
  intros He He'. unfold shl_align.
  destruct (e' - e); simpl; assumption.
Qed.

Lemma binary_round_signed (s : bool) (m : positive) (e : Z) :
  -1074 <= e -> signed s (binary_round prec emax s m e).
Proof.
  intros He. unfold binary_round.
  pose proof (shl_align_snd m e (fexp prec emax (Z.pos (digits2_pos m) + e)) He) as Hs.
  destruct (shl_align m e (fexp prec emax (Z.pos (digits2_pos m) + e))) as [mz ez].
  simpl in Hs. apply binary_round_aux_signed. apply Hs.
  rewrite fexp_eq. lia.
Qed.

Lemma ltb_zero_signed (s : bool) (x : float) :
  signed s x -> ltb x zero = s.
Proof.
  destruct x as [ s' | s' | | s' m e ]; simpl; intros H; try contradiction;
    subst s'; destruct s; reflexivity.
Qed.

(** The sign of a rounded integer multiple of [2^e]. *)
Lemma binary_normalize_ltb_zero (n e : Z) :
  -1074 <= e ->
  ltb (binary_normalize prec emax n e false) zero = (n <? 0).
Proof.
  intros He. destruct n as [ | q | q ]; simpl.
  - reflexivity.
  - apply (ltb_zero_signed false). apply binary_round_signed. exact He.
  - apply (ltb_zero_signed true). apply binary_round_signed. exact He.
Qed.

(** What validity says of a finite float. *)
Lemma valid_finite (s : bool) (m : positive) (e : Z) :
  valid (S754_finite s m e) ->
  -1074 <= e <= 971
  /\ Z.pos (digits2_pos m) <= 53
  /\ (-1074 < e -> Z.pos (digits2_pos m) = 53).
Proof.
  unfold valid. simpl. unfold bounded, canonical_mantissa.
  rewrite fexp_eq. intros H.
  apply andb_true_iff in H. destruct H as [H1 H2].
  apply Z.eqb_eq in H1. apply Z.leb_le in H2.
  change (emax - prec) with 971 in H2. lia.
Qed.

(** Among valid floats the one of larger exponent is the larger. *)
Lemma valid_exponent_lt (s1 s2 : bool) (m1 m2 : positive) (e1 e2 : Z) :
  valid (S754_finite s1 m1 e1) -> valid (S754_finite s2 m2 e2) ->
  e1 < e2 -> Z.pos m1 < Z.pos m2 * 2 ^ (e2 - e1).
Proof.
  intros V1 V2 Hlt.
  apply valid_finite in V1. apply valid_finite in V2.
  destruct V1 as (He1 & Hd1 & _). destruct V2 as (He2 & _ & Hn2).
  pose proof (digits_bounds m1) as [_ Hhi].
  pose proof (digits_bounds m2) as [Hlo _].
  rewrite Hn2 in Hlo by lia.
  assert (H53 : 2 ^ Z.pos (digits2_pos m1) <= 2 ^ 53)
    by (apply Z.pow_le_mono_r; lia).
  assert (H2 : 2 ^ 1 <= 2 ^ (e2 - e1)) by (apply Z.pow_le_mono_r; lia).
  change (2 ^ (53 - 1)) with 4503599627370496 in Hlo.
  change (2 ^ 53) with 9007199254740992 in H53.
  change (2 ^ 1) with 2 in H2.
  nia.
Qed.

(** Closes the cases of an operation where an operand is a zero, an
    infinity or NaN, by computing. *)
Ltac special_cases :=
  lazymatch goal with
  | |- context [sub (S754_finite _ _ _) (S754_finite _ _ _)] => idtac
  | _ =>
      solve [ repeat match goal with s : bool |- _ => destruct s end;
              cbv; congruence ]
  end.

Lemma mul_comm (x y : float) : mul x y = mul y x.
Proof.
  destruct x as [ sx | sx | | sx mx ex ]; destruct y as [ sy | sy | | sy my ey ];
    try reflexivity; unfold mul; simpl; rewrite ?(xorb_comm sx sy);
    try reflexivity.
  rewrite (Pos.mul_comm mx my), (Z.add_comm ex ey). reflexivity.
Qed.

Ltac decide_ltb :=
  cbn [cond_Zopp CompOpp]; symmetry;
  first [ apply Z.ltb_lt | apply Z.ltb_ge ]; lia.

(** [x < y] on valid finite floats is the order of their mantissas
    once aligned to the smaller exponent. *)
Lemma finite_ltb_aligned (sx sy : bool) (mx my : positive) (ex ey : Z) :
  valid (S754_finite sx mx ex) -> valid (S754_finite sy my ey) ->
  ltb (S754_finite sx mx ex) (S754_finite sy my ey)
  = (cond_Zopp sx (Z.pos (fst (shl_align mx ex (Z.min ex ey))))
     - cond_Zopp sy (Z.pos (fst (shl_align my ey (Z.min ex ey)))) <? 0).
Proof.
  intros Vx Vy.
  pose proof (valid_exponent_lt sx sy mx my ex ey Vx Vy) as Hxy.
  pose proof (valid_exponent_lt sy sx my mx ey ex Vy Vx) as Hyx.
  rewrite !shl_align_fst by lia.
  unfold ltb, SFltb, SFcompare.
  destruct (Z.compare_spec ex ey) as [Heq | Hlt | Hgt].
  - subst ey. rewrite Z.min_id, Z.sub_diag, Z.pow_0_r, !Z.mul_1_r.
    change (Pos.compare_cont Eq mx my) with (Pos.compare mx my).
    destruct (Pos.compare_spec mx my) as [E | L | G];
      destruct sx, sy; decide_ltb.
  - rewrite Z.min_l by lia. rewrite Z.sub_diag, Z.pow_0_r, Z.mul_1_r.
    specialize (Hxy Hlt). destruct sx, sy; decide_ltb.
  - rewrite Z.min_r by lia. rewrite Z.sub_diag, Z.pow_0_r, Z.mul_1_r.
    specialize (Hyx Hgt). destruct sx, sy; decide_ltb.
Qed.

(** The difference of two floats is negative exactly when the first is
    the smaller: a subtraction never rounds a nonzero difference to
    zero, nor a negative one to a positive. *)
Lemma sub_ltb_zero (x y : float) :
  valid x -> valid y -> ltb (sub x y) zero = ltb x y.
Proof.
  intros Vx Vy.
  destruct x as [ sx | sx | | sx mx ex ]; destruct y as [ sy | sy | | sy my ey ];
    special_cases.
  unfold sub, SFsub. cbv zeta.
  rewrite binary_normalize_ltb_zero.
  - symmetry. apply finite_ltb_aligned; assumption.
  - apply valid_finite in Vx. apply valid_finite in Vy. lia.
Qed.

Lemma abs_binary_round (s : bool) (m : positive) (e : Z) :
  abs (binary_round prec emax s m e) = binary_round prec emax false m e.
Proof.
  unfold binary_round.
  destruct (shl_align m e (fexp prec emax (Z.pos (digits2_pos m) + e))) as [mz ez].
  unfold binary_round_aux.
  destruct (shr_fexp prec emax (Z.pos mz) ez loc_Exact) as [mrs' e'].
  destruct (shr_fexp prec emax (round_nearest_even (shr_m mrs') (loc_of_shr_record mrs'))
              e' loc_Exact) as [mrs'' e''].
  destruct (shr_m mrs''); try reflexivity.
  destruct (e'' <=? emax - prec); reflexivity.
Qed.

(** Rounding is symmetric: the magnitude of a negative difference is
    the difference taken the other way round. *)
Lemma abs_sub_neg (x y : float) :
  ltb (sub x y) zero = true -> abs (sub x y) = sub y x.
Proof.
  destruct x as [ sx | sx | | sx mx ex ]; destruct y as [ sy | sy | | sy my ey ];
    special_cases.
  unfold sub, SFsub. cbv zeta. rewrite (Z.min_comm ey ex).
  set (X := cond_Zopp sx (Z.pos (fst (shl_align mx ex (Z.min ex ey))))).
  set (Y := cond_Zopp sy (Z.pos (fst (shl_align my ey (Z.min ex ey))))).
  replace (Y - X) with (- (X - Y)) by lia.
  destruct (X - Y) as [ | q | q ]; simpl.
  - discriminate.
  - intros H. exfalso. revert H.
    unfold binary_round.
    destruct (shl_align q (Z.min ex ey)
                (fexp prec emax (Z.pos (digits2_pos q) + Z.min ex ey))) as [mz ez].
    unfold binary_round_aux.
    destruct (shr_fexp prec emax (Z.pos mz) ez loc_Exact) as [mrs' e'].
    destruct (shr_fexp prec emax
                (round_nearest_even (shr_m mrs') (loc_of_shr_record mrs'))
                e' loc_Exact) as [mrs'' e''].
    destruct (shr_m mrs''); try discriminate.
    destruct (e'' <=? emax - prec); discriminate.
  - intros _. apply abs_binary_round.
Qed.

(** Comparing the other way round gives the opposite answer. *)
Lemma compare_antisym (x y : float) :
  SFcompare y x = option_map CompOpp (SFcompare x y).
Proof.
  destruct x as [ sx | sx | | sx mx ex ]; destruct y as [ sy | sy | | sy my ey ];
    try reflexivity;
    try (destruct sx; reflexivity);
    try (destruct sy; reflexivity);
    try (destruct sx, sy; reflexivity).
  assert (Hm : Pos.compare_cont Eq my mx = CompOpp (Pos.compare_cont Eq mx my))
    by (symmetry; exact (Pos.compare_cont_antisym mx my Eq)).
  simpl. rewrite (Z.compare_antisym ex ey), Hm.
  destruct sx, sy; try reflexivity;
    destruct (ex ?= ey); simpl; try reflexivity;
    destruct (Pos.compare_cont Eq mx my); reflexivity.
Qed.

Lemma leb_not_gtb (x y : float) : leb x y = true -> ltb y x = false.
Proof.
  unfold leb, ltb, SFleb, SFltb. rewrite (compare_antisym x y).
  destruct (SFcompare x y) as [ [ | | ] | ]; simpl; congruence.
Qed.

Lemma gtb_zero_nonzero (x : float) : ltb zero x = true -> eqb x zero = false.
Proof.
  destruct x as [ s | s | | s m e ]; try destruct s; cbv; congruence.
Qed.

Lemma eqb_zero_inv (x : float) : eqb x zero = true -> exists s, x = S754_zero s.
Proof.
  destruct x as [ s | s | | s m e ]; try destruct s; cbv; try congruence.
  all: intros _; eexists; reflexivity.
Qed.

End Binary64Facts.

(** * Rounding to nearest: how far the result is from the exact value *)
Module Binary64Rounding.
Import Binary64 Binary64Facts.

(** The invariant of the right shift: before any step, after one more
    step, and after [p] steps. *)
Lemma shifted_init (m : Z) :
  0 <= m -> shifted m 0 (shr_record_of_loc m loc_Exact).
Proof.
  intros Hm. split; cbn [shr_record_of_loc shr_m shr_r shr_s rem_class];
    [ exact Hm | ].
  rewrite Z.pow_0_r. lia.
Qed.

Lemma shifted_shr_1 (m k : Z) (mrs : shr_record) :
  0 <= k -> shifted m k mrs -> shifted m (k + 1) (shr_1 mrs).
Proof.
  intros Hk [Hpos Hcl].
  assert (Hp : 0 < 2 ^ k) by (apply Z.pow_pos_nonneg; lia).
  assert (Hs : 2 ^ (k + 1) = 2 * 2 ^ k)
    by (rewrite Z.pow_add_r by lia; change (2 ^ 1) with 2; lia).
  destruct mrs as [m' r s].
  destruct m' as [ | [ q | q | ] | q ]; destruct r, s;
    unfold shifted, rem_class in *;
    cbn [shr_1 shr_m shr_r shr_s orb] in *;
    rewrite Hs; set (P := 2 ^ k) in *; split; try lia; nia.
Qed.

Lemma shifted_iter (m : Z) (p : positive) :
  0 <= m ->
  shifted m (Z.pos p) (iter_pos shr_1 p (shr_record_of_loc m loc_Exact)).
Proof.
  intros Hm. rewrite iter_pos_iter.
  induction p as [ | p IH ] using Pos.peano_ind.
  - cbn [Pos.iter]. change (Z.pos 1) with (0 + 1).
    apply (shifted_shr_1 m 0); [ lia | ].
    apply shifted_init. exact Hm.
  - rewrite Pos.iter_succ, Pos2Z.inj_succ.
    apply (shifted_shr_1 m (Z.pos p)); [ lia | exact IH ].
Qed.

(** Rounding the shifted number to nearest, ties to even, lands within
    half a unit of the exact quotient. *)
Lemma round_shifted (m k : Z) (mrs : shr_record) :
  0 <= k -> shifted m k mrs ->
  let m2 := round_nearest_even (shr_m mrs) (loc_of_shr_record mrs) in
  shr_m mrs <= m2 <= shr_m mrs + 1
  /\ 2 * Z.abs (m2 * 2 ^ k - m) <= 2 ^ k.
Proof.
  intros Hk [Hpos Hcl].
  destruct mrs as [m' r s]. cbn [shr_m shr_r shr_s] in Hpos, Hcl.
  assert (Hp : 0 < 2 ^ k) by (apply Z.pow_pos_nonneg; lia).
  set (P := 2 ^ k) in *.
  destruct r, s; unfold rem_class in Hcl;
    cbn [shr_m loc_of_shr_record round_nearest_even];
    try destruct (Z.even m'); split; try lia; nia.
Qed.

(** Powers of two among the rationals. *)
Lemma pow2Q_pos (e : Z) : (0 < pow2Q e)%Q.
Proof. apply Qpower_0_lt. reflexivity. Qed.

Lemma pow2Q_add (a b : Z) : (pow2Q (a + b) == pow2Q a * pow2Q b)%Q.
Proof. apply Qpower_plus. discriminate. Qed.

Lemma pow2Q_Z (n : Z) : 0 <= n -> (inject_Z (2 ^ n) == pow2Q n)%Q.
Proof. intros Hn. apply (Zpower_Qpower 2 n Hn). Qed.

Lemma pow2Q_le (a b : Z) : a <= b -> (pow2Q a <= pow2Q b)%Q.
Proof. intros H. apply Qpower_le_compat_l; [ exact H | discriminate ]. Qed.

Lemma pow2Q_lt_inv (a b : Z) : (pow2Q a < pow2Q b)%Q -> a < b.
Proof. intros H. apply (Qpower_lt_compat_l_inv 2); [ exact H | reflexivity ]. Qed.

Lemma pow2Q_cancel (n : Z) : (pow2Q n * pow2Q (- n) == 1)%Q.
Proof. rewrite <- pow2Q_add, Z.add_opp_diag_r. reflexivity. Qed.

(** Dyadic numbers: moving a power of two between mantissa and
    exponent, order and sum at a common exponent. *)
Lemma dyadic_shift (m k e : Z) :
  0 <= k -> (dyadic m (e + k) == dyadic (m * 2 ^ k) e)%Q.
Proof.
  intros Hk. unfold dyadic.
  rewrite inject_Z_mult, (pow2Q_Z k Hk), pow2Q_add. ring.
Qed.

Lemma dyadic_le (a b e : Z) : a <= b -> (dyadic a e <= dyadic b e)%Q.
Proof.
  intros H. unfold dyadic. apply Qmult_le_compat_r.
  - rewrite <- Zle_Qle. exact H.
  - apply Qlt_le_weak, pow2Q_pos.
Qed.

Lemma dyadic_add (a b e : Z) : (dyadic (a + b) e == dyadic a e + dyadic b e)%Q.
Proof. unfold dyadic. rewrite inject_Z_plus. ring. Qed.

(** Half an ulp is at most the number times [2^-53], or [2^-1075] below
    the normal range. *)
Lemma half_ulp_bound (m : positive) (e : Z) :
  (dyadic (half_ulp m e) e <= dyadic (Z.pos m) e * pow2Q (-53) + pow2Q (-1075))%Q.
Proof.
  unfold half_ulp. rewrite fexp_eq.
  pose proof (digits_bounds m) as [Hlo _].
  set (d := Z.pos (digits2_pos m)) in *.
  pose proof (pow2Q_pos e) as He.
  pose proof (pow2Q_pos (-53)) as H53.
  pose proof (pow2Q_pos (-1075)) as H1075.
  assert (Hm : (0 < inject_Z (Z.pos m))%Q) by (rewrite <- (Zlt_Qlt 0); lia).
  assert (Hx : (0 < dyadic (Z.pos m) e)%Q) by (unfold dyadic; nra).
  assert (Hx' : (0 < dyadic (Z.pos m) e * pow2Q (-53))%Q) by nra.
  destruct (Z.leb_spec (Z.max (d + e - 53) (-1074) - e) 0) as [Hn | Hn].
  - unfold dyadic at 1. change (inject_Z 0) with 0%Q. lra.
  - destruct (Z_le_gt_dec (-1074) (d + e - 53)) as [Hc | Hc].
    + rewrite Z.max_l by lia.
      replace (d + e - 53 - e - 1) with (d - 54) by lia.
      assert (Hz : 2 ^ (d - 54) * 2 ^ 53 <= Z.pos m).
      { rewrite <- Z.pow_add_r by lia. replace (d - 54 + 53) with (d - 1) by lia.
        exact Hlo. }
      clear Hx Hx'. apply (dyadic_le _ _ e) in Hz. unfold dyadic in *.
      rewrite inject_Z_mult, (pow2Q_Z 53) in Hz by lia.
      pose proof (pow2Q_cancel 53) as Hcz. change (- (53)) with (-53) in Hcz.
      set (A := inject_Z (2 ^ (d - 54))) in *.
      assert (HA : (0 <= A)%Q).
      { unfold A. rewrite <- (Zle_Qle 0). apply Z.pow_nonneg. lia. }
      set (P := pow2Q 53) in *. set (P' := pow2Q (-53)) in *.
      set (M := inject_Z (Z.pos m)) in *. set (E := pow2Q e) in *.
      assert (H1 : (A * E * (P * P') <= M * E * P')%Q) by nra.
      rewrite Hcz in H1. lra.
    + rewrite Z.max_r by lia.
      unfold dyadic at 1. rewrite pow2Q_Z by lia.
      rewrite <- pow2Q_add. replace (-1074 - e - 1 + e) with (-1075) by lia.
      lra.
Qed.

(** The mantissa kept by a shift is the quotient by [2^k], rounded down. *)
Lemma shifted_bounds (m k : Z) (mrs : shr_record) :
  0 <= k -> shifted m k mrs ->
  shr_m mrs * 2 ^ k <= m < (shr_m mrs + 1) * 2 ^ k.
Proof.
  intros Hk [Hpos Hcl].
  assert (Hp : 0 < 2 ^ k) by (apply Z.pow_pos_nonneg; lia).
  destruct mrs as [m' r s]. cbn [shr_m shr_r shr_s] in *.
  set (P := 2 ^ k) in *.
  destruct r, s; unfold rem_class in Hcl; nia.
Qed.

(** What rounding an exact positive number [m * 2^e] computes: a mantissa
    [m3] at the exponent [e + k], where [k] is the number [N] of bits
    dropped or one more, within half of [2^N] units of [m]; and a
    canonical one when [e] is not above the exponent of the format. *)
Lemma binary_round_aux_spec (sx : bool) (m : positive) (e : Z) :
  let N := Z.max 0 (fexp prec emax (Z.pos (digits2_pos m) + e) - e) in
  exists m3 k,
    0 <= m3 /\ N <= k <= N + 1 /\
    2 * Z.abs (m3 * 2 ^ k - Z.pos m) <= 2 ^ N /\
    (e <= fexp prec emax (Z.pos (digits2_pos m) + e) ->
     fexp prec emax (Zdigits2 m3 + (e + k)) = e + k \/ m3 = 0) /\
    binary_round_aux prec emax sx (Z.pos m) e loc_Exact
    = match m3 with
      | Z0 => S754_zero sx
      | Zpos q => if e + k <=? 971 then S754_finite sx q (e + k) else S754_infinity sx
      | Zneg _ => S754_nan
      end.
Proof.
  intros N. subst N. unfold binary_round_aux, shr_fexp. cbn [Zdigits2].
  rewrite !fexp_eq.
  pose proof (digits_bounds m) as [Hlo Hhi].
  set (d := Z.pos (digits2_pos m)) in *.
  destruct (Z.max (d + e - 53) (-1074) - e) as [ | p | p ] eqn:Hn.
  - cbn [shr shr_record_of_loc shr_m loc_of_shr_record round_nearest_even Zdigits2].
    fold d. rewrite fexp_eq, Hn. cbn [shr shr_record_of_loc shr_m].
    exists (Z.pos m), 0. rewrite Z.add_0_r, Z.mul_1_r, Z.sub_diag.
    change (emax - prec) with 971. cbn [Zdigits2]. fold d. rewrite fexp_eq.
    repeat split; try lia; cbn; lia.
  - cbn [shr]. rewrite (Z.max_r 0 (Z.pos p)) by lia.
    pose proof (shifted_iter (Z.pos m) p ltac:(lia)) as Hsh.
    set (mrs' := iter_pos shr_1 p (shr_record_of_loc (Z.pos m) loc_Exact)) in *.
    pose proof (round_shifted (Z.pos m) (Z.pos p) mrs' ltac:(lia) Hsh) as [Hm2 Herr].
    pose proof (shifted_bounds (Z.pos m) (Z.pos p) mrs' ltac:(lia) Hsh) as Hquo.
    destruct Hsh as [Hm1 _].
    set (m2 := round_nearest_even (shr_m mrs') (loc_of_shr_record mrs')) in *.
    assert (He' : -1074 <= e + Z.pos p) by lia.
    assert (Hp : 0 < 2 ^ Z.pos p) by (apply Z.pow_pos_nonneg; lia).
    assert (Hd : 2 ^ d <= 2 ^ Z.pos p * 2 ^ 53).
    { rewrite <- Z.pow_add_r by lia. apply Z.pow_le_mono_r; lia. }
    assert (Hm2' : m2 <= 2 ^ 53) by nia.
    assert (Hnorm : -1074 < e + Z.pos p -> 2 ^ 52 <= shr_m mrs').
    { intros Hgt. assert (Hpd : Z.pos p = d - 53) by lia.
      assert (Hd1 : 2 ^ (d - 1) = 2 ^ 52 * 2 ^ Z.pos p).
      { rewrite <- Z.pow_add_r by lia. f_equal. lia. }
      nia. }
    set (e' := e + Z.pos p) in *.
    destruct m2 as [ | q | q ] eqn:Eq2; [ | | lia ].
    + cbn [Zdigits2]. rewrite fexp_eq.
      destruct (Z.max (0 + e' - 53) (-1074) - e') as [ | p' | p' ] eqn:Hn';
        try lia; cbn [shr shr_record_of_loc shr_m]; exists 0, (Z.pos p);
        repeat split; lia.
    + destruct (Z.eq_dec (Z.pos q) (2 ^ 53)) as [Heq | Hne].
      * change (2 ^ 53) with (Z.pos 9007199254740992) in Heq.
        injection Heq as ->.
        change (Zdigits2 (Z.pos 9007199254740992)) with 54.
        rewrite fexp_eq.
        replace (Z.max (54 + e' - 53) (-1074) - e') with 1 by lia.
        cbn [shr iter_pos shr_1 shr_record_of_loc shr_m orb].
        exists (Z.pos 4503599627370496), (Z.pos p + 1).
        replace (e + (Z.pos p + 1)) with (e' + 1) by (unfold e'; lia).
        change (emax - prec) with 971.
        change (Zdigits2 (Z.pos 4503599627370496)) with 53.
        rewrite fexp_eq.
        rewrite Z.pow_add_r by lia. change (2 ^ 1) with 2.
        repeat split; try lia.
      * assert (Hq : Z.pos q < 2 ^ 53) by lia.
        pose proof (digits_bounds q) as [Hqlo Hqhi].
        assert (Hdq : Z.pos (digits2_pos q) <= 53).
        { destruct (Z_le_gt_dec (Z.pos (digits2_pos q)) 53) as [ | Hgt ]; [ assumption | ].
          exfalso.
          assert (2 ^ 53 <= 2 ^ (Z.pos (digits2_pos q) - 1))
            by (apply Z.pow_le_mono_r; lia).
          lia. }
        assert (Hcan : -1074 < e' -> Z.pos (digits2_pos q) = 53).
        { intros Hgt. specialize (Hnorm Hgt).
          destruct (Z_le_gt_dec 53 (Z.pos (digits2_pos q))) as [ | Hlt ]; [ lia | ].
          exfalso.
          assert (2 ^ Z.pos (digits2_pos q) <= 2 ^ 52)
            by (apply Z.pow_le_mono_r; lia).
          lia. }
        cbn [Zdigits2]. rewrite !fexp_eq.
        change (emax - prec) with 971.
        destruct (Z.max (Z.pos (digits2_pos q) + e' - 53) (-1074) - e')
          as [ | p' | p' ] eqn:Hn'; try lia;
          cbn [shr shr_record_of_loc shr_m];
          exists (Z.pos q), (Z.pos p); fold e'; cbn [Zdigits2]; rewrite ?fexp_eq;
          repeat split; lia.
  - cbn [shr shr_record_of_loc shr_m loc_of_shr_record round_nearest_even Zdigits2].
    fold d. rewrite fexp_eq, Hn. cbn [shr shr_record_of_loc shr_m].
    exists (Z.pos m), 0. rewrite Z.add_0_r, Z.mul_1_r, Z.sub_diag.
    change (emax - prec) with 971. cbn [Zdigits2]. fold d. rewrite fexp_eq.
    repeat split; try lia; cbn; lia.
Qed.

Lemma to_Q_nonneg_float (m e : Z) :
  0 <= m -> exists q, to_Q (nonneg_float m e) = Some q /\ (q == dyadic m e)%Q.
Proof.
  intros Hm. destruct m as [ | p | p ]; [ | | lia ]; simpl.
  - exists 0%Q. split; [ reflexivity | ]. unfold dyadic. ring.
  - eexists. split; [ reflexivity | ]. reflexivity.
Qed.

(** Rounding a positive number that does not overflow: the float
    obtained and its distance to the number. *)
Lemma binary_round_aux_error (m : positive) (e : Z) :
  e <= 970 -> Z.pos (digits2_pos m) + e <= 1023 ->
  exists m3 e3,
    0 <= m3
    /\ binary_round_aux prec emax false (Z.pos m) e loc_Exact = nonneg_float m3 e3
    /\ (dyadic (Z.pos m) e - dyadic (half_ulp m e) e <= dyadic m3 e3
        <= dyadic (Z.pos m) e + dyadic (half_ulp m e) e)%Q.
Proof.
  intros He Hd.
  destruct (binary_round_aux_spec false m e) as (m3 & k & Hm3 & Hk & Herr & _ & Hr).
  revert Hk Herr. unfold half_ulp. rewrite fexp_eq.
  set (n := Z.max (Z.pos (digits2_pos m) + e - 53) (-1074) - e).
  intros Hk Herr.
  exists m3, (e + k). split; [ exact Hm3 | ]. split.
  - rewrite Hr. destruct m3 as [ | q | q ]; try reflexivity.
    simpl. replace (e + k <=? 971) with true; [ reflexivity | ].
    symmetry. apply Z.leb_le. lia.
  - assert (Hz : Z.pos m - (if n <=? 0 then 0 else 2 ^ (n - 1)) <= m3 * 2 ^ k
                 <= Z.pos m + (if n <=? 0 then 0 else 2 ^ (n - 1))).
    { destruct (Z.leb_spec n 0) as [Hn | Hn].
      - rewrite Z.max_l in Herr by lia. change (2 ^ 0) with 1 in Herr. lia.
      - rewrite Z.max_r in Herr by lia.
        replace n with (Z.succ (n - 1)) in Herr at 1 by lia.
        rewrite Z.pow_succ_r in Herr by lia. lia. }
    rewrite (dyadic_shift m3 k e) by lia.
    set (H := if n <=? 0 then 0 else 2 ^ (n - 1)) in *.
    destruct Hz as [Hz1 Hz2].
    apply (dyadic_le _ _ e) in Hz1. apply (dyadic_le _ _ e) in Hz2.
    rewrite dyadic_add in Hz2.
    replace (Z.pos m - H) with (Z.pos m + - H) in Hz1 by lia.
    rewrite dyadic_add in Hz1.
    assert (Hopp : (dyadic (- H) e == - dyadic H e)%Q).
    { unfold dyadic. rewrite inject_Z_opp. ring. }
    rewrite Hopp in Hz1. split; lra.
Qed.

Lemma dyadic_pos (m : positive) (e : Z) : (0 < dyadic (Z.pos m) e)%Q.
Proof.
  unfold dyadic. pose proof (pow2Q_pos e).
  assert (0 < inject_Z (Z.pos m))%Q by (rewrite <- (Zlt_Qlt 0); lia).
  nra.
Qed.

(** A number below [2^K] has its leading bit below position [K]. *)
Lemma digits_of_value (m : positive) (e K : Z) :
  (dyadic (Z.pos m) e < pow2Q K)%Q -> Z.pos (digits2_pos m) + e <= K.
Proof.
  intros H. pose proof (digits_bounds m) as [Hlo _].
  apply (dyadic_le _ _ e) in Hlo. unfold dyadic at 1 in Hlo.
  rewrite pow2Q_Z, <- pow2Q_add in Hlo by lia.
  assert (Hlt : (pow2Q (Z.pos (digits2_pos m) - 1 + e) < pow2Q K)%Q) by lra.
  apply pow2Q_lt_inv in Hlt. lia.
Qed.

Lemma exponent_of_value (m : positive) (e K : Z) :
  (dyadic (Z.pos m) e < pow2Q K)%Q -> e < K.
Proof.
  intros H. apply digits_of_value in H. lia.
Qed.

(** The standard model of rounding, for a positive number away from
    overflow: relative error [unit_roundoff] at most, or absolute error [least_error]. *)
Lemma binary_round_aux_rel (m : positive) (e : Z) :
  e <= 970 -> (dyadic (Z.pos m) e < pow2Q 1023)%Q ->
  exists m3 e3,
    0 <= m3
    /\ binary_round_aux prec emax false (Z.pos m) e loc_Exact = nonneg_float m3 e3
    /\ (dyadic (Z.pos m) e - (dyadic (Z.pos m) e * unit_roundoff + least_error) <= dyadic m3 e3
        <= dyadic (Z.pos m) e + (dyadic (Z.pos m) e * unit_roundoff + least_error))%Q.
Proof.
  intros He Hv. apply digits_of_value in Hv.
  destruct (binary_round_aux_error m e He Hv) as (m3 & e3 & H0 & Hr & Hb).
  exists m3, e3. split; [ exact H0 | ]. split; [ exact Hr | ].
  pose proof (half_ulp_bound m e) as Hh. fold unit_roundoff least_error in Hh. lra.
Qed.

Lemma binary_round_rel (m : positive) (e : Z) :
  (dyadic (Z.pos m) e < pow2Q 1023)%Q ->
  exists m3 e3,
    0 <= m3
    /\ binary_round prec emax false m e = nonneg_float m3 e3
    /\ (dyadic (Z.pos m) e - (dyadic (Z.pos m) e * unit_roundoff + least_error) <= dyadic m3 e3
        <= dyadic (Z.pos m) e + (dyadic (Z.pos m) e * unit_roundoff + least_error))%Q.
Proof.
  intros Hv. unfold binary_round.
  pose proof (digits_of_value m e 1023 Hv) as Hd.
  rewrite fexp_eq. unfold shl_align.
  set (d := Z.pos (digits2_pos m)) in *.
  destruct (Z.max (d + e - 53) (-1074) - e) as [ | p | p ] eqn:Hn.
  - apply binary_round_aux_rel; [ lia | exact Hv ].
  - apply binary_round_aux_rel; [ lia | exact Hv ].
  - assert (Hsame : (dyadic (Z.pos (Pos.iter xO m p)) (Z.max (d + e - 53) (-1074))
                     == dyadic (Z.pos m) e)%Q).
    { rewrite pos_iter_xO. rewrite <- (dyadic_shift (Z.pos m) (Z.pos p)) by lia.
      replace (Z.max (d + e - 53) (-1074) + Z.pos p) with e by lia. reflexivity. }
    destruct (binary_round_aux_rel (Pos.iter xO m p) (Z.max (d + e - 53) (-1074)))
      as (m3 & e3 & H0 & Hr & Hb).
    + lia.
    + rewrite Hsame. exact Hv.
    + exists m3, e3. split; [ exact H0 | ]. split; [ exact Hr | ].
      rewrite Hsame in Hb. exact Hb.
Qed.

Lemma unit_roundoff_pos : (0 < unit_roundoff)%Q.
Proof. apply pow2Q_pos. Qed.

Lemma least_error_pos : (0 < least_error)%Q.
Proof. apply pow2Q_pos. Qed.

Lemma dyadic_mul (m1 m2 : positive) (e1 e2 : Z) :
  (dyadic (Z.pos (m1 * m2)) (e1 + e2)
   == dyadic (Z.pos m1) e1 * dyadic (Z.pos m2) e2)%Q.
Proof.
  unfold dyadic. rewrite Pos2Z.inj_mul, inject_Z_mult, pow2Q_add. ring.
Qed.

(** The product of two positive floats. *)
Lemma mul_rel (m1 m2 : positive) (e1 e2 : Z) :
  e1 + e2 <= 970 ->
  (dyadic (Z.pos m1) e1 * dyadic (Z.pos m2) e2 < pow2Q 1023)%Q ->
  exists m3 e3,
    0 <= m3
    /\ mul (S754_finite false m1 e1) (S754_finite false m2 e2) = nonneg_float m3 e3
    /\ (let x := dyadic (Z.pos m1) e1 * dyadic (Z.pos m2) e2 in
        x - (x * unit_roundoff + least_error) <= dyadic m3 e3 <= x + (x * unit_roundoff + least_error))%Q.
Proof.
  intros He Hv. rewrite <- dyadic_mul in Hv.
  destruct (binary_round_aux_rel (m1 * m2) (e1 + e2) He Hv)
    as (m3 & e3 & H0 & Hr & Hb).
  exists m3, e3. split; [ exact H0 | ]. split; [ exact Hr | ].
  cbv zeta. rewrite <- dyadic_mul. exact Hb.
Qed.

Lemma dyadic_align (m : positive) (e e' : Z) :
  e' <= e ->
  (dyadic (Z.pos (fst (shl_align m e e'))) e' == dyadic (Z.pos m) e)%Q.
Proof.
  intros Hle. rewrite shl_align_fst by exact Hle.
  rewrite <- (dyadic_shift (Z.pos m) (e - e') e') by lia.
  replace (e' + (e - e')) with e by lia. reflexivity.
Qed.

(** The sum of two floats that are not negative. *)
Lemma add_rel (m1 m2 e1 e2 : Z) :
  0 <= m1 -> 0 <= m2 ->
  (dyadic m1 e1 + dyadic m2 e2 < pow2Q 1023)%Q ->
  exists m3 e3,
    0 <= m3
    /\ add (nonneg_float m1 e1) (nonneg_float m2 e2) = nonneg_float m3 e3
    /\ (let x := dyadic m1 e1 + dyadic m2 e2 in
        x - (x * unit_roundoff + least_error) <= dyadic m3 e3 <= x + (x * unit_roundoff + least_error))%Q.
Proof.
  intros H1 H2 Hv. pose proof unit_roundoff_pos as Hu. pose proof least_error_pos as Heta.
  assert (Hzero : forall e, (dyadic 0 e == 0)%Q) by (intro; unfold dyadic; ring).
  destruct m1 as [ | p1 | p1 ]; [ | | lia ];
    destruct m2 as [ | p2 | p2 ]; try lia; cbv zeta.
  - exists 0, 0. split; [ lia | ]. split; [ reflexivity | ].
    rewrite !Hzero. lra.
  - exists (Z.pos p2), e2. split; [ lia | ]. split; [ reflexivity | ].
    rewrite Hzero. pose proof (dyadic_pos p2 e2). nra.
  - exists (Z.pos p1), e1. split; [ lia | ]. split; [ reflexivity | ].
    rewrite Hzero. pose proof (dyadic_pos p1 e1). nra.
  - assert (Hsum : (dyadic (Z.pos (fst (shl_align p1 e1 (Z.min e1 e2))
                                   + fst (shl_align p2 e2 (Z.min e1 e2))))
                      (Z.min e1 e2)
                    == dyadic (Z.pos p1) e1 + dyadic (Z.pos p2) e2)%Q).
    { rewrite Pos2Z.inj_add, dyadic_add.
      rewrite !dyadic_align by lia. reflexivity. }
    rewrite <- Hsum in Hv.
    destruct (binary_round_rel _ _ Hv) as (m3 & e3 & H0 & Hr & Hb).
    exists m3, e3. split; [ exact H0 | ]. split; [ exact Hr | ].
    rewrite Hsum in Hb. exact Hb.
Qed.

Lemma unit_roundoff_value : (unit_roundoff == 1 # 9007199254740992)%Q.
Proof. reflexivity. Qed.

Lemma least_error_small : (least_error <= 1 # 1000000000000000000000)%Q.
Proof. vm_compute. discriminate. Qed.

(** 0.40 and 0.60, as the floats that stand for them, add up to 1. *)
Lemma split_40_60 :
  (dyadic 7205759403792794 (-54) + dyadic 5404319552844595 (-53) == 1)%Q.
Proof. reflexivity. Qed.

(** The two shares of a discretionary amount [d] add up to [d] but for
    the rounding of the two products and of their sum: a relative error of
    [u] when the shares are added exactly, of [2u + u^2] when they are
    added as floats. *)
Lemma surplus_sum_relative_error (d : float) (qd : Q) :
  ltb d zero = false -> to_Q d = Some qd -> (qd <= pow2Q 1000)%Q ->
  exists qs qw qsum,
    to_Q (mul lit_0_40 d) = Some qs
    /\ to_Q (mul lit_0_60 d) = Some qw
    /\ to_Q (add (mul lit_0_40 d) (mul lit_0_60 d)) = Some qsum
    /\ (Qabs (qs + qw - qd) <= qd * unit_roundoff + 2 * least_error)%Q
    /\ (Qabs (qsum - qd)
        <= qd * (2 * unit_roundoff + unit_roundoff * unit_roundoff)
           + 4 * least_error)%Q.
Proof.
  intros Hsign Hq Hb.
  pose proof unit_roundoff_value as Hu. pose proof least_error_small as Heta.
  pose proof least_error_pos as Heta0.
  destruct d as [ s | s | | s md ed ]; try discriminate Hq.
  - injection Hq as <-.
    exists 0%Q, 0%Q, 0%Q.
    destruct s; (do 3 (split; [ reflexivity | ]));
      rewrite Hu; split; apply Qabs_Qle_condition; lra.
  - destruct s; [ discriminate Hsign | ].
    injection Hq as <-.
    cbn [cond_Zopp] in *. fold (dyadic (Z.pos md) ed) in *.
    rewrite (mul_comm lit_0_40), (mul_comm lit_0_60).
    set (qd := dyadic (Z.pos md) ed) in *.
    set (A := dyadic 7205759403792794 (-54)).
    set (B := dyadic 5404319552844595 (-53)).
    assert (HA : (0 < A)%Q) by apply dyadic_pos.
    assert (HB : (0 < B)%Q) by apply dyadic_pos.
    assert (HAB : (A + B == 1)%Q) by apply split_40_60.
    assert (Hqd : (0 < qd)%Q) by apply dyadic_pos.
    assert (H0 : (1 <= pow2Q 1000)%Q) by (apply (pow2Q_le 0 1000); lia).
    assert (H2 : (4 * pow2Q 1000 <= pow2Q 1023)%Q).
    { change 4%Q with (pow2Q 2). rewrite <- pow2Q_add. apply pow2Q_le. lia. }
    assert (Hed : ed < 1023).
    { apply (exponent_of_value md). fold qd. lra. }
    assert (Hsplit : (qd * A + qd * B == qd)%Q).
    { rewrite <- Qmult_plus_distr_r, HAB. ring. }
    destruct (mul_rel md 7205759403792794 ed (-54)) as (ms & es & Hs0 & Hs & Hsb).
    { lia. }
    { fold qd A. nra. }
    destruct (mul_rel md 5404319552844595 ed (-53)) as (mw & ew & Hw0 & Hw & Hwb).
    { lia. }
    { fold qd B. nra. }
    fold qd A in Hsb. fold qd B in Hwb. cbv zeta in Hsb, Hwb.
    unfold lit_0_40, lit_0_60. rewrite Hs, Hw.
    set (XA := (qd * A)%Q) in *. set (XB := (qd * B)%Q) in *.
    assert (HXA : (0 < XA)%Q) by (unfold XA; nra).
    assert (HXB : (0 < XB)%Q) by (unfold XB; nra).
    rewrite Hu in Hsb, Hwb.
    destruct (add_rel ms mw es ew Hs0 Hw0) as (mz & ez & Hz0 & Hz & Hzb).
    { lra. }
    cbv zeta in Hzb. rewrite Hu in Hzb. rewrite Hz.
    destruct (to_Q_nonneg_float ms es Hs0) as (qs & Hqs & Eqs).
    destruct (to_Q_nonneg_float mw ew Hw0) as (qw & Hqw & Eqw).
    destruct (to_Q_nonneg_float mz ez Hz0) as (qz & Hqz & Eqz).
    exists qs, qw, qz.
    split; [ exact Hqs | ]. split; [ exact Hqw | ]. split; [ exact Hqz | ].
    rewrite <- Eqs, <- Eqw in Hzb. rewrite <- Eqs in Hsb. rewrite <- Eqw in Hwb.
    rewrite <- Eqz in Hzb. rewrite Hu.
    split; apply Qabs_Qle_condition; lra.
Qed.

Lemma digits_shift (m p : positive) :
  Z.pos (digits2_pos (Pos.iter xO m p)) = Z.pos (digits2_pos m) + Z.pos p.
Proof.
  induction p as [ | p IH ] using Pos.peano_ind.
  - cbn [Pos.iter digits2_pos]. lia.
  - rewrite Pos.iter_succ. cbn [digits2_pos]. lia.
Qed.

(** Aligning to the exponent of the format keeps the position of the
    leading bit and leaves an exponent not above that of the format. *)
Lemma shl_align_fexp (m : positive) (e : Z) :
  let '(mz, ez) := shl_align m e (fexp prec emax (Z.pos (digits2_pos m) + e)) in
  Z.pos (digits2_pos mz) + ez = Z.pos (digits2_pos m) + e
  /\ ez <= fexp prec emax (Z.pos (digits2_pos m) + e)
  /\ ez <= e
  /\ Z.pos mz = Z.pos m * 2 ^ (e - ez).
Proof.
  rewrite fexp_eq. unfold shl_align.
  set (d := Z.pos (digits2_pos m)).
  destruct (Z.max (d + e - 53) (-1074) - e) as [ | p | p ] eqn:Hn.
  - fold d. rewrite Z.sub_diag, Z.pow_0_r. lia.
  - fold d. rewrite Z.sub_diag, Z.pow_0_r. lia.
  - rewrite digits_shift, pos_iter_xO. fold d.
    replace (e - Z.max (d + e - 53) (-1074)) with (Z.pos p) by lia. lia.
Qed.

(** A rounded number is a float of the format. *)
Lemma binary_round_valid (sx : bool) (m : positive) (e : Z) :
  valid (binary_round prec emax sx m e).
Proof.
  unfold binary_round.
  pose proof (shl_align_fexp m e) as Hal.
  destruct (shl_align m e (fexp prec emax (Z.pos (digits2_pos m) + e))) as [mz ez].
  destruct Hal as (Hdig & Hle & _ & _).
  destruct (binary_round_aux_spec sx mz ez) as (m3 & k & _ & _ & _ & Hcan & ->).
  rewrite Hdig in Hcan. specialize (Hcan Hle).
  destruct m3 as [ | q | q ]; try reflexivity.
  destruct (Z.leb_spec (ez + k) 971) as [Hb | Hb]; [ | reflexivity ].
  destruct Hcan as [Hcan | Hcan]; [ | discriminate ].
  unfold valid. cbn [valid_binary]. unfold bounded, canonical_mantissa.
  cbn [Zdigits2] in Hcan. rewrite Hcan, Z.eqb_refl.
  change (emax - prec) with 971. apply Z.leb_le in Hb. rewrite Hb. reflexivity.
Qed.

(** The difference of two floats is a float. *)
Lemma sub_valid (x y : float) : valid x -> valid y -> valid (sub x y).
Proof.
  intros Vx Vy.
  destruct x as [ sx | sx | | sx mx ex ]; destruct y as [ sy | sy | | sy my ey ];
    try (destruct sx; reflexivity); try (destruct sy; reflexivity);
    try (destruct sx, sy; reflexivity); try reflexivity;
    try exact Vx; try exact Vy.
  unfold sub, SFsub. cbv zeta.
  destruct (cond_Zopp sx (Z.pos (fst (shl_align mx ex (Z.min ex ey))))
            - cond_Zopp sy (Z.pos (fst (shl_align my ey (Z.min ex ey)))))
    as [ | q | q ]; cbn [binary_normalize].
  - reflexivity.
  - apply binary_round_valid.
  - apply binary_round_valid.
Qed.

(** Rounding a positive number that does not overflow puts it on the
    grid of its binade, at most half a step away. *)
Lemma binary_round_aux_grid (m : positive) (e : Z) :
  e <= 970 -> Z.pos (digits2_pos m) + e <= 1023 ->
  exists m3 e3,
    0 <= m3
    /\ binary_round_aux prec emax false (Z.pos m) e loc_Exact = nonneg_float m3 e3
    /\ fexp prec emax (Z.pos (digits2_pos m) + e) <= e3
    /\ (dyadic (Z.pos m) e - pow2Q (fexp prec emax (Z.pos (digits2_pos m) + e) - 1)
        <= dyadic m3 e3
        <= dyadic (Z.pos m) e
           + pow2Q (fexp prec emax (Z.pos (digits2_pos m) + e) - 1))%Q.
Proof.
  intros He Hd.
  destruct (binary_round_aux_spec false m e)
    as (m3 & k & Hm3 & Hk & Herr & _ & Hr).
  revert Hk Herr. rewrite fexp_eq.
  set (E := Z.max (Z.pos (digits2_pos m) + e - 53) (-1074)).
  intros Hk Herr.
  exists m3, (e + k). split; [ exact Hm3 | ]. split; [ | split; [ lia | ] ].
  - rewrite Hr. destruct m3 as [ | q | q ]; try reflexivity.
    cbn [nonneg_float]. replace (e + k <=? 971) with true; [ reflexivity | ].
    symmetry. apply Z.leb_le. unfold E in *. lia.
  - rewrite (dyadic_shift m3 k e) by lia.
    pose proof (pow2Q_pos (E - 1)) as HE.
    destruct (Z_le_gt_dec (E - e) 0) as [Hn | Hn].
    + rewrite Z.max_l in Herr by lia. change (2 ^ 0) with 1 in Herr.
      assert (Heq : m3 * 2 ^ k = Z.pos m) by lia.
      rewrite Heq. lra.
    + rewrite Z.max_r in Herr by lia.
      assert (Hz : Z.pos m - 2 ^ (E - e - 1) <= m3 * 2 ^ k
                   <= Z.pos m + 2 ^ (E - e - 1)).
      { replace (E - e) with (Z.succ (E - e - 1)) in Herr by lia.
        rewrite Z.pow_succ_r in Herr by lia. lia. }
      destruct Hz as [Hz1 Hz2].
      apply (dyadic_le _ _ e) in Hz1. apply (dyadic_le _ _ e) in Hz2.
      rewrite dyadic_add in Hz2.
      replace (Z.pos m - 2 ^ (E - e - 1)) with (Z.pos m + - 2 ^ (E - e - 1))
        in Hz1 by lia.
      rewrite dyadic_add in Hz1.
      assert (Hopp : (dyadic (- 2 ^ (E - e - 1)) e == - dyadic (2 ^ (E - e - 1)) e)%Q).
      { unfold dyadic. rewrite inject_Z_opp. ring. }
      assert (Hstep : (dyadic (2 ^ (E - e - 1)) e == pow2Q (E - 1))%Q).
      { unfold dyadic. rewrite pow2Q_Z by lia. rewrite <- pow2Q_add.
        replace (E - e - 1 + e) with (E - 1) by lia. reflexivity. }
      rewrite Hopp, Hstep in Hz1. rewrite Hstep in Hz2. split; lra.
Qed.

Lemma binary_round_grid (m : positive) (e : Z) :
  Z.pos (digits2_pos m) + e <= 1023 ->
  exists m3 e3,
    0 <= m3
    /\ binary_round prec emax false m e = nonneg_float m3 e3
    /\ fexp prec emax (Z.pos (digits2_pos m) + e) <= e3
    /\ (dyadic (Z.pos m) e - pow2Q (fexp prec emax (Z.pos (digits2_pos m) + e) - 1)
        <= dyadic m3 e3
        <= dyadic (Z.pos m) e
           + pow2Q (fexp prec emax (Z.pos (digits2_pos m) + e) - 1))%Q.
Proof.
  intros Hd. unfold binary_round.
  pose proof (shl_align_fexp m e) as Hal.
  destruct (shl_align m e (fexp prec emax (Z.pos (digits2_pos m) + e))) as [mz ez].
  destruct Hal as (Hdig & Hle & Hez & Hmz).
  assert (Hsame : (dyadic (Z.pos mz) ez == dyadic (Z.pos m) e)%Q).
  { rewrite Hmz. rewrite <- (dyadic_shift (Z.pos m) (e - ez) ez) by lia.
    replace (ez + (e - ez)) with e by lia. reflexivity. }
  destruct (binary_round_aux_grid mz ez) as (m3 & e3 & H0 & Hr & Hg & Hb).
  - rewrite fexp_eq in Hle. lia.
  - lia.
  - exists m3, e3. rewrite Hdig, Hsame in *. repeat split; assumption || apply Hb.
Qed.

Lemma digits_le (m : positive) (K : Z) :
  Z.pos m < 2 ^ K -> 0 <= K -> Z.pos (digits2_pos m) <= K.
Proof.
  intros Hlt HK. pose proof (digits_bounds m) as [Hlo _].
  destruct (Z_le_gt_dec (Z.pos (digits2_pos m)) K) as [ | Hgt ]; [ assumption | ].
  exfalso.
  assert (2 ^ K <= 2 ^ (Z.pos (digits2_pos m) - 1)) by (apply Z.pow_le_mono_r; lia).
  lia.
Qed.

(** A number from [2^(K-1)] up has its leading bit at position [K] at
    least. *)
Lemma digits_of_value_ge (m : positive) (e K : Z) :
  (pow2Q (K - 1) <= dyadic (Z.pos m) e)%Q -> K <= Z.pos (digits2_pos m) + e.
Proof.
  intros H. pose proof (digits_bounds m) as [_ Hhi].
  assert (Hle : Z.pos m + 1 <= 2 ^ Z.pos (digits2_pos m)) by lia.
  apply (dyadic_le _ _ e) in Hle. unfold dyadic at 2 in Hle.
  rewrite pow2Q_Z, <- pow2Q_add in Hle by lia.
  rewrite dyadic_add in Hle.
  assert (H1 : (0 < dyadic 1 e)%Q) by apply (dyadic_pos 1).
  assert (Hlt : (pow2Q (K - 1) < pow2Q (Z.pos (digits2_pos m) + e))%Q) by lra.
  apply pow2Q_lt_inv in Hlt. lia.
Qed.

(** From 4500000 up to 2^23 the float sum of the two shares is at most
    one unit in the last place, 2^-30, away from the amount. *)
Lemma surplus_sum_last_binade (d : float) (qd : Q) :
  valid d -> to_Q d = Some qd -> (4500000 <= qd)%Q -> (qd < 8388608)%Q ->
  exists qs qw qsum,
    to_Q (mul lit_0_40 d) = Some qs
    /\ to_Q (mul lit_0_60 d) = Some qw
    /\ to_Q (add (mul lit_0_40 d) (mul lit_0_60 d)) = Some qsum
    /\ (Qabs (qs + qw - qd) <= 3 * pow2Q (-32))%Q
    /\ (Qabs (qsum - qd) <= pow2Q (-30))%Q.
Proof.
  intros Vd Hq Hlo Hhi.
  destruct d as [ s | s | | s md ed ]; try discriminate Hq.
  { injection Hq as <-. exfalso. revert Hlo. apply Qlt_not_le. reflexivity. }
  injection Hq as <-.
  assert (Hs : s = false).
  { destruct s; [ exfalso | reflexivity ].
    pose proof (dyadic_pos md ed) as Hp. unfold dyadic in Hp.
    cbn [cond_Zopp Z.opp] in Hlo.
    change (inject_Z (Z.neg md)) with (- inject_Z (Z.pos md))%Q in Hlo. lra. }
  subst s. cbn [cond_Zopp] in *. fold (dyadic (Z.pos md) ed) in *.
  (* the exponent of [d] is -30 *)
  apply valid_finite in Vd. destruct Vd as (Hed & Hdig & Hnorm).
  assert (H23 : (pow2Q 23 == 8388608)%Q) by reflexivity.
  assert (H22 : (pow2Q (23 - 1) == 4194304)%Q) by reflexivity.
  assert (Hup : Z.pos (digits2_pos md) + ed <= 23).
  { apply digits_of_value. lra. }
  assert (Hdn : 23 <= Z.pos (digits2_pos md) + ed).
  { apply digits_of_value_ge. lra. }
  assert (Eed : ed = -30) by lia.
  assert (E53 : Z.pos (digits2_pos md) = 53) by lia.
  subst ed. clear Hed Hnorm Hup Hdn Hdig.
  pose proof (digits_bounds md) as [Hmlo Hmhi].
  rewrite E53 in Hmlo, Hmhi.
  change (2 ^ (53 - 1)) with 4503599627370496 in Hmlo.
  change (2 ^ 53) with 9007199254740992 in Hmhi.
  rewrite (mul_comm lit_0_40), (mul_comm lit_0_60).
  set (qd := dyadic (Z.pos md) (-30)) in *.
  set (A := dyadic 7205759403792794 (-54)).
  set (B := dyadic 5404319552844595 (-53)).
  assert (HAB : (A + B == 1)%Q) by apply split_40_60.
  assert (HAv : (A == 7205759403792794 # 18014398509481984)%Q) by reflexivity.
  assert (HBv : (B == 5404319552844595 # 9007199254740992)%Q) by reflexivity.
  assert (P30 : (pow2Q (-30) == 1 # 1073741824)%Q) by reflexivity.
  assert (P31 : (pow2Q (-31) == 1 # 2147483648)%Q) by reflexivity.
  assert (P32 : (pow2Q (-32) == 1 # 4294967296)%Q) by reflexivity.
  (* the savings *)
  destruct (binary_round_aux_grid (md * 7205759403792794) (-30 + -54))
    as (ms & es & Hs0 & Hs & _ & Hsb).
  { lia. }
  { assert (Z.pos (digits2_pos (md * 7205759403792794)) <= 106); [ | lia ].
    apply digits_le; [ | lia ]. rewrite Pos2Z.inj_mul.
    change (2 ^ 106) with (9007199254740992 * 9007199254740992). nia. }
  assert (HEs : fexp prec emax
                  (Z.pos (digits2_pos (md * 7205759403792794)) + (-30 + -54)) - 1
                <= -32).
  { rewrite fexp_eq.
    assert (Z.pos (digits2_pos (md * 7205759403792794)) <= 106); [ | lia ].
    apply digits_le; [ | lia ]. rewrite Pos2Z.inj_mul.
    change (2 ^ 106) with (9007199254740992 * 9007199254740992). nia. }
  apply pow2Q_le in HEs. rewrite dyadic_mul in Hsb. fold qd A in Hsb.
  (* the wants *)
  destruct (binary_round_aux_grid (md * 5404319552844595) (-30 + -53))
    as (mw & ew & Hw0 & Hw & _ & Hwb).
  { lia. }
  { assert (Z.pos (digits2_pos (md * 5404319552844595)) <= 106); [ | lia ].
    apply digits_le; [ | lia ]. rewrite Pos2Z.inj_mul.
    change (2 ^ 106) with (9007199254740992 * 9007199254740992). nia. }
  assert (HEw : fexp prec emax
                  (Z.pos (digits2_pos (md * 5404319552844595)) + (-30 + -53)) - 1
                <= -31).
  { rewrite fexp_eq.
    assert (Z.pos (digits2_pos (md * 5404319552844595)) <= 106); [ | lia ].
    apply digits_le; [ | lia ]. rewrite Pos2Z.inj_mul.
    change (2 ^ 106) with (9007199254740992 * 9007199254740992). nia. }
  apply pow2Q_le in HEw. rewrite dyadic_mul in Hwb. fold qd B in Hwb.
  assert (Hsplit : (qd * A + qd * B == qd)%Q).
  { rewrite <- Qmult_plus_distr_r, HAB. ring. }
  unfold lit_0_40, lit_0_60.
  change (mul (S754_finite false md (-30)) (S754_finite false 7205759403792794 (-54)))
    with (binary_round_aux prec emax false (Z.pos (md * 7205759403792794))
            (-30 + -54) loc_Exact).
  change (mul (S754_finite false md (-30)) (S754_finite false 5404319552844595 (-53)))
    with (binary_round_aux prec emax false (Z.pos (md * 5404319552844595))
            (-30 + -53) loc_Exact).
  rewrite Hs, Hw.
  set (Es := pow2Q (fexp prec emax
                 (Z.pos (digits2_pos (md * 7205759403792794)) + (-30 + -54)) - 1)) in *.
  set (Ew := pow2Q (fexp prec emax
                 (Z.pos (digits2_pos (md * 5404319552844595)) + (-30 + -53)) - 1)) in *.
  set (XA := (qd * A)%Q) in *. set (XB := (qd * B)%Q) in *.
  assert (HXA : (1000000 <= XA)%Q) by (unfold XA; rewrite HAv; lra).
  assert (HXB : (1000000 <= XB)%Q) by (unfold XB; rewrite HBv; lra).
  (* both shares are positive floats *)
  destruct ms as [ | ps | ps ]; [ exfalso | | lia ].
  { assert (Hnil : (dyadic 0 es == 0)%Q) by (unfold dyadic; ring).
    rewrite Hnil in Hsb. lra. }
  destruct mw as [ | pw | pw ]; [ exfalso | | lia ].
  { assert (Hnil : (dyadic 0 ew == 0)%Q) by (unfold dyadic; ring).
    rewrite Hnil in Hwb. lra. }
  cbn [nonneg_float to_Q cond_Zopp].
  fold (dyadic (Z.pos ps) es). fold (dyadic (Z.pos pw) ew).
  set (qs := dyadic (Z.pos ps) es) in *. set (qw := dyadic (Z.pos pw) ew) in *.
  (* their sum *)
  assert (Hsum : (dyadic (Z.pos (fst (shl_align ps es (Z.min es ew))
                                 + fst (shl_align pw ew (Z.min es ew))))
                    (Z.min es ew)
                  == qs + qw)%Q).
  { rewrite Pos2Z.inj_add, dyadic_add.
    rewrite !dyadic_align by lia. reflexivity. }
  set (M := (fst (shl_align ps es (Z.min es ew))
             + fst (shl_align pw ew (Z.min es ew)))%positive) in *.
  assert (Hy1 : (pow2Q (23 - 1) <= dyadic (Z.pos M) (Z.min es ew))%Q)
    by (rewrite Hsum; lra).
  assert (Hy2 : (dyadic (Z.pos M) (Z.min es ew) < pow2Q 23)%Q).
  { rewrite Hsum.
    assert (Hmd : Z.pos md + 1 <= 9007199254740992) by lia.
    apply (dyadic_le _ _ (-30)) in Hmd. rewrite dyadic_add in Hmd.
    fold qd in Hmd.
    assert (Htop : (dyadic 9007199254740992 (-30) == 8388608)%Q) by reflexivity.
    assert (Hone : (dyadic 1 (-30) == 1 # 1073741824)%Q) by reflexivity.
    lra. }
  apply digits_of_value_ge in Hy1. apply digits_of_value in Hy2.
  assert (HdM : Z.pos (digits2_pos M) + Z.min es ew = 23) by lia.
  destruct (binary_round_grid M (Z.min es ew)) as (mz & ez & Hz0 & Hz & Hgrid & Hzb).
  { lia. }
  rewrite HdM in Hgrid, Hzb. rewrite fexp_eq in Hgrid, Hzb.
  change (Z.max (23 - 53) (-1074)) with (-30) in Hgrid, Hzb.
  change (-30 - 1) with (-31) in Hzb. rewrite Hsum in Hzb.
  change (add (S754_finite false ps es) (S754_finite false pw ew))
    with (binary_round prec emax false M (Z.min es ew)).
  rewrite Hz.
  destruct (to_Q_nonneg_float mz ez Hz0) as (qz & Hqz & Eqz).
  exists qs, qw, qz.
  split; [ reflexivity | ]. split; [ reflexivity | ]. split; [ exact Hqz | ].
  split; [ apply Qabs_Qle_condition; lra | ].
  (* the float sum lies on the grid of [d] *)
  assert (Hshift : (dyadic mz ez == dyadic (mz * 2 ^ (ez + 30)) (-30))%Q).
  { rewrite <- dyadic_shift by lia. replace (-30 + (ez + 30)) with ez by lia.
    reflexivity. }
  set (K := mz * 2 ^ (ez + 30)) in *.
  rewrite Hshift in Hzb.
  assert (HK : Z.pos md - 1 <= K <= Z.pos md + 1).
  { assert (Hq4 : (4 * dyadic K (-30) <= 4 * qd + 5 * pow2Q (-30))%Q) by lra.
    assert (Hq5 : (4 * qd <= 4 * dyadic K (-30) + 5 * pow2Q (-30))%Q) by lra.
    unfold qd, dyadic in Hq4, Hq5.
    assert (Hp : (0 < pow2Q (-30))%Q) by apply pow2Q_pos.
    assert (Hz4 : (inject_Z (4 * K) <= inject_Z (4 * Z.pos md + 5))%Q).
    { rewrite inject_Z_plus, !inject_Z_mult.
      change (inject_Z 4) with 4%Q. change (inject_Z 5) with 5%Q.
      set (P := pow2Q (-30)) in *. clear - Hq4 Hp. nra. }
    assert (Hz5 : (inject_Z (4 * Z.pos md) <= inject_Z (4 * K + 5))%Q).
    { rewrite inject_Z_plus, !inject_Z_mult.
      change (inject_Z 4) with 4%Q. change (inject_Z 5) with 5%Q.
      set (P := pow2Q (-30)) in *. clear - Hq5 Hp. nra. }
    rewrite <- Zle_Qle in Hz4, Hz5. lia. }
  destruct HK as [HK1 HK2].
  apply (dyadic_le _ _ (-30)) in HK1. apply (dyadic_le _ _ (-30)) in HK2.
  rewrite dyadic_add in HK2.
  replace (Z.pos md - 1) with (Z.pos md + -1) in HK1 by lia.
  rewrite dyadic_add in HK1. fold qd in HK1, HK2.
  assert (Hone : (dyadic 1 (-30) == pow2Q (-30))%Q) by reflexivity.
  assert (Hmone : (dyadic (-1) (-30) == - pow2Q (-30))%Q) by reflexivity.
  rewrite Hone in HK2. rewrite Hmone in HK1.
  apply Qabs_Qle_condition. rewrite Eqz, Hshift. lra.
Qed.

(** Hence, for an amount below 2^23 = 8388608, within 1e-9: up to
    4500000 by the relative bound, and from there on by the bound of
    the last binade. *)
Lemma surplus_sum_error (d : float) (qd : Q) :
  valid d -> ltb d zero = false -> to_Q d = Some qd -> (qd < 8388608)%Q ->
  exists qs qw qsum,
    to_Q (mul lit_0_40 d) = Some qs
    /\ to_Q (mul lit_0_60 d) = Some qw
    /\ to_Q (add (mul lit_0_40 d) (mul lit_0_60 d)) = Some qsum
    /\ (Qabs (qs + qw - qd) <= 1 # 1000000000)%Q
    /\ (Qabs (qsum - qd) <= 1 # 1000000000)%Q.
Proof.
  intros Hv Hsign Hq Hb.
  destruct (Qlt_le_dec qd 4500000) as [ Hsmall | Hlarge ].
  - assert (Hpos : (0 <= qd)%Q).
    { destruct d as [ s | s | | s md ed ]; try discriminate Hq.
      - injection Hq as <-. discriminate.
      - destruct s; [ discriminate Hsign | ]. injection Hq as <-.
        apply Qlt_le_weak, (dyadic_pos md ed). }
    assert (H23 : (pow2Q 23 == 8388608)%Q) by reflexivity.
    assert (Hbig : (pow2Q 23 <= pow2Q 1000)%Q) by (apply pow2Q_le; lia).
    destruct (surplus_sum_relative_error d qd Hsign Hq) as
      (qs & qw & qsum & Hs & Hw & Hsum & He1 & He2); [ lra | ].
    exists qs, qw, qsum.
    split; [ exact Hs | ]. split; [ exact Hw | ]. split; [ exact Hsum | ].
    pose proof unit_roundoff_value as Hu. pose proof least_error_small as Heta.
    pose proof least_error_pos as Heta0.
    rewrite Hu in He1, He2.
    apply Qabs_Qle_condition in He1. apply Qabs_Qle_condition in He2.
    split; apply Qabs_Qle_condition; lra.
  - destruct (surplus_sum_last_binade d qd Hv Hq Hlarge Hb) as
      (qs & qw & qsum & Hs & Hw & Hsum & He1 & He2).
    exists qs, qw, qsum.
    split; [ exact Hs | ]. split; [ exact Hw | ]. split; [ exact Hsum | ].
    assert (H32 : (pow2Q (-32) == 1 # 4294967296)%Q) by reflexivity.
    assert (H30 : (pow2Q (-30) == 1 # 1073741824)%Q) by reflexivity.
    rewrite H32 in He1. rewrite H30 in He2.
    apply Qabs_Qle_condition in He1. apply Qabs_Qle_condition in He2.
    split; apply Qabs_Qle_condition; lra.
Qed.

End Binary64Rounding.

(** * The purchase risk evaluator *)
Section Assess.
Import Binary64 Binary64Facts ImpactSimulator.

Variables current_savings savings_goal : float.

Let assess (balance item_cost : float) : result assessment :=
  assess_transaction balance current_savings savings_goal item_cost.

(** C1.  For every balance and every item cost that is not negative,
    the assessment is DANGER exactly when the cost exceeds the balance;
    then the remaining balance reported is the balance less the cost, a
    negative number, and the dictionary has no
    [cost_percentage_of_free_cash]. *)
Theorem assess_transaction_danger (balance item_cost : float) :
  valid balance -> valid item_cost -> geb item_cost zero = true ->
  ((exists a, assess balance item_cost = Ok a /\ status a = "DANGER"%string)
   <-> gtb item_cost balance = true)
  /\ (gtb item_cost balance = true ->
      exists a,
        assess balance item_cost = Ok a
        /\ status a = "DANGER"%string
        /\ remaining_balance a = sub balance item_cost
        /\ ltb (remaining_balance a) zero = true
        /\ cost_percentage_of_free_cash a = None).
Proof.
  intros Vb Vc _.
  pose proof (sub_ltb_zero balance item_cost Vb Vc) as Hsign.
  unfold assess, assess_transaction, gtb.
  destruct (ltb balance item_cost) eqn:Hlt; rewrite Hsign.
  - split.
    + split; [ reflexivity | ].
      intros _. eexists. split; reflexivity.
    + intros _. eexists. repeat split. simpl. exact Hsign.
  - split; [ | discriminate ].
    split; [ | discriminate ].
    intros [a [Ha Hs]]. exfalso.
    destruct (ltb (mul balance lit_0_5) item_cost);
      destruct (truediv item_cost balance);
      inversion Ha; subst a; simpl in Hs; discriminate.
Qed.

(** C2.  For a positive balance and a cost between zero and the
    balance, the assessment is CAUTION when the cost exceeds half the
    balance and SAFE otherwise, with the remaining balance
    [balance - cost] and the percentage [cost / balance * 100]; the
    purchase of 20000 out of 30000 is CAUTION, leaves 10000 and takes
    66.67 percent to two decimals. *)
Theorem assess_transaction_affordable (balance item_cost : float) :
  valid balance -> valid item_cost ->
  gtb balance zero = true -> geb item_cost zero = true ->
  leb item_cost balance = true ->
  (exists a,
      assess balance item_cost = Ok a
      /\ status a = (if gtb item_cost (mul lit_0_5 balance)
                     then "CAUTION" else "SAFE")%string
      /\ remaining_balance a = sub balance item_cost
      /\ cost_percentage_of_free_cash a
         = Some (mul lit_100 (div item_cost balance)))
  /\ (exists a q,
        assess (of_Z 30000) (of_Z 20000) = Ok a
        /\ status a = "CAUTION"%string
        /\ remaining_balance a = of_Z 10000
        /\ cost_percentage_of_free_cash a = Some percent_66_67
        /\ to_Q percent_66_67 = Some q
        /\ (Qabs (q - (6667 # 100)) < 1 # 100)%Q).
Proof.
  intros Vb Vc Hpos _ Hle. split.
  - unfold assess, assess_transaction.
    rewrite (sub_ltb_zero balance item_cost Vb Vc).
    rewrite (leb_not_gtb item_cost balance Hle).
    unfold truediv. rewrite (gtb_zero_nonzero balance Hpos).
    rewrite (mul_comm lit_0_5 balance), (mul_comm lit_100).
    destruct (gtb item_cost (mul balance lit_0_5));
      eexists; repeat split.
  - do 2 eexists. repeat split.
Qed.

(** C3.  When the balance and the cost are both zero the DANGER test
    fails, nothing guards the division of the cost by the balance, and
    the call ends in [ZeroDivisionError]. *)
Theorem assess_transaction_zero_division (balance item_cost : float) :
  eqb balance zero = true -> eqb item_cost zero = true ->
  ltb (sub balance item_cost) zero = false
  /\ truediv item_cost balance = Raise ZeroDivisionError
  /\ assess balance item_cost = Raise ZeroDivisionError.
Proof.
  intros Hb Hc.
  apply eqb_zero_inv in Hb. apply eqb_zero_inv in Hc.
  destruct Hb as [sb ->]. destruct Hc as [sc ->].
  destruct sb, sc; repeat split.
Qed.

End Assess.

(** C8.  The assessment is a function of the balance and the cost alone:
    calls that differ only in [current_savings] and [savings_goal] give
    the same outcome, dictionary or exception. *)
Theorem assess_transaction_ignores_savings
    (balance item_cost current_savings savings_goal current_savings' savings_goal'
     : Binary64.float) :
  ImpactSimulator.assess_transaction balance current_savings savings_goal item_cost
  = ImpactSimulator.assess_transaction balance current_savings' savings_goal' item_cost.
Proof. reflexivity. Qed.

(** * The budget allocator *)
Section Allocate.
Import Binary64 Binary64Facts Binary64Rounding BudgetCalculator.

(** C4, as amended.  When the fixed expenses do not exceed the income
    the plan is the surplus record: [discretionary_total] is the income
    less the fixed total, [recommended_savings] is 0.40 times it and
    [recommended_wants] 0.60 times it, each rounded to a float; and when
    that amount is below 8388608, which is 2^23, the two parts add up to
    it within 1e-9, whether they are added exactly or as floats. *)
Theorem calculate_remaining_after_fixed_surplus
    (income fixed_total : float) (qd : Q) :
  valid income -> valid fixed_total ->
  geb income zero = true -> geb fixed_total zero = true ->
  leb fixed_total income = true ->
  let d := sub income fixed_total in
  calculate_remaining_after_fixed income fixed_total
  = {| status := "surplus";
       discretionary := None;
       needs_gap := None;
       needs_total := Some fixed_total;
       discretionary_total := Some d;
       recommended_savings := Some (mul lit_0_40 d);
       recommended_wants := Some (mul lit_0_60 d) |}
  /\ (to_Q d = Some qd -> (qd < 8388608)%Q ->
      exists qs qw qsum,
        to_Q (mul lit_0_40 d) = Some qs
        /\ to_Q (mul lit_0_60 d) = Some qw
        /\ to_Q (add (mul lit_0_40 d) (mul lit_0_60 d)) = Some qsum
        /\ (Qabs (qs + qw - qd) <= 1 # 1000000000)%Q
        /\ (Qabs (qsum - qd) <= 1 # 1000000000)%Q).
Proof.
  intros Vi Vf _ _ Hle d.
  assert (Hsign : ltb d zero = false).
  { unfold d. rewrite sub_ltb_zero by assumption.
    apply leb_not_gtb. exact Hle. }
  split.
  - unfold calculate_remaining_after_fixed. fold d. rewrite Hsign.
    rewrite (mul_comm d lit_0_40), (mul_comm d lit_0_60). reflexivity.
  - intros Hq Hb.
    exact (surplus_sum_error d qd (sub_valid _ _ Vi Vf) Hsign Hq Hb).
Qed.

(** C4, as first stated, fails: with an income of 30000000.2 and no
    fixed expenses, the savings and the wants recommended add up to an
    amount more than 1e-9 away from the income, whether they are added
    exactly or as floats. *)
Lemma calculate_remaining_after_fixed_sum_off :
  valid income_30000000_2
  /\ geb income_30000000_2 zero = true
  /\ leb zero income_30000000_2 = true
  /\ status (calculate_remaining_after_fixed income_30000000_2 zero)
     = "surplus"%string
  /\ exists s w qs qw qsum qd,
       recommended_savings (calculate_remaining_after_fixed income_30000000_2 zero)
       = Some s
       /\ recommended_wants (calculate_remaining_after_fixed income_30000000_2 zero)
          = Some w
       /\ to_Q s = Some qs
       /\ to_Q w = Some qw
       /\ to_Q (add s w) = Some qsum
       /\ to_Q (sub income_30000000_2 zero) = Some qd
       /\ (1 # 1000000000 < Qabs (qs + qw - qd))%Q
       /\ (1 # 1000000000 < Qabs (qsum - qd))%Q.
Proof.
  do 4 (split; [ reflexivity | ]).
  do 6 eexists.
  do 6 (split; [ reflexivity | ]).
  split; reflexivity.
Qed.

(** C5.  When the fixed expenses exceed the income the plan is the
    deficit record: [needs_gap] is the fixed total less the income and
    the discretionary amount shown is 0.0; an income of 30000 against
    40000 of fixed expenses leaves a gap of 10000. *)
Theorem calculate_remaining_after_fixed_deficit (income fixed_total : float) :
  valid income -> valid fixed_total -> gtb fixed_total income = true ->
  calculate_remaining_after_fixed income fixed_total
  = {| status := "deficit";
       discretionary := Some zero;
       needs_gap := Some (sub fixed_total income);
       needs_total := None;
       discretionary_total := None;
       recommended_savings := None;
       recommended_wants := None |}
  /\ status (calculate_remaining_after_fixed (of_Z 30000) (of_Z 40000))
     = "deficit"%string
  /\ needs_gap (calculate_remaining_after_fixed (of_Z 30000) (of_Z 40000))
     = Some (of_Z 10000).
Proof.
  intros Vi Vf Hgt. split; [ | split; reflexivity ].
  unfold calculate_remaining_after_fixed.
  assert (Hneg : ltb (sub income fixed_total) zero = true)
    by (rewrite sub_ltb_zero; assumption).
  rewrite Hneg. rewrite (abs_sub_neg income fixed_total Hneg). reflexivity.
Qed.

End Allocate.

(** * The ledger store and the state aggregator *)
Section Store.
Import Binary64 StorageEngine.

(** The loop over the transactions adds the amounts of the expenses in
    the order of the log. *)
Lemma variable_spend_from (ts : list transaction) (acc : float) :
  fold_left
    (fun acc t => if FinancialStateAgent.is_expense t
                  then add acc (tx_amount t) else acc) ts acc
  = fold_left add (map tx_amount (filter FinancialStateAgent.is_expense ts)) acc.
Proof.
  revert acc. induction ts as [ | t ts IH ]; intro acc; simpl.
  - reflexivity.
  - destruct (FinancialStateAgent.is_expense t); simpl; apply IH.
Qed.

Lemma is_expense_iff (t : transaction) :
  FinancialStateAgent.is_expense t = true <-> tx_type t = Some "expense"%string.
Proof.
  unfold FinancialStateAgent.is_expense.
  destruct (tx_type t) as [ k | ].
  - rewrite String.eqb_eq. split; congruence.
  - split; discriminate.
Qed.

(** C6.  In the snapshot of any document, [variable_expenses] is the
    sum of the amounts of the transactions whose type is "expense" and
    of no others, [total_fixed_expenses] is the sum of the amounts of
    the fixed expenses, and [free_cash_flow] is the income less the two;
    logging a transaction of type "income" changes nothing in it. *)
Theorem get_todays_state_totals (d : data) :
  let s := FinancialStateAgent.get_todays_state d in
  FinancialStateAgent.variable_expenses s
  = sum (map tx_amount
           (filter (fun t => match tx_type t with
                             | Some k => String.eqb k "expense"
                             | None => false
                             end) (transactions d)))
  /\ FinancialStateAgent.total_fixed_expenses s = sum (map amount (fixed_expenses d))
  /\ FinancialStateAgent.income s = monthly_income (user_profile d)
  /\ FinancialStateAgent.free_cash_flow s
     = sub (sub (FinancialStateAgent.income s)
                (FinancialStateAgent.total_fixed_expenses s))
           (FinancialStateAgent.variable_expenses s)
  /\ (forall t, tx_type t = Some "income"%string ->
       FinancialStateAgent.get_todays_state (log_transaction t d) = s).
Proof.
  simpl. repeat split.
  - apply variable_spend_from.
  - intros t Ht.
    assert (Hno : FinancialStateAgent.is_expense t = false)
      by (unfold FinancialStateAgent.is_expense; rewrite Ht; reflexivity).
    unfold FinancialStateAgent.get_todays_state, FinancialStateAgent.variable_spend.
    simpl. rewrite fold_left_app. simpl. rewrite Hno. reflexivity.
Qed.

(** Dropping entries keeps the names that remain pairwise distinct. *)
Lemma names_after_removal (n : string) (es : list fixed_expense) :
  NoDup (map name es) -> NoDup (map name (filter (name_differs n) es)).
Proof.
  induction es as [ | e es IH ]; simpl; intros Hnd; [ constructor | ].
  apply NoDup_cons_iff in Hnd. destruct Hnd as [Hfresh Hrest].
  destruct (name_differs n e); simpl; [ | exact (IH Hrest) ].
  apply NoDup_cons; [ | exact (IH Hrest) ].
  intros Hin. apply Hfresh.
  apply in_map_iff in Hin. destruct Hin as (e' & <- & He').
  apply in_map. apply filter_In in He'. apply He'.
Qed.

Lemma name_differs_absent (n : string) (l : list fixed_expense) :
  ~ In n (map name (filter (name_differs n) l)).
Proof.
  intros Hin. apply in_map_iff in Hin. destruct Hin as [e [He Hin]].
  apply filter_In in Hin. destruct Hin as [_ Hd].
  unfold name_differs in Hd. rewrite He, String.eqb_refl in Hd. discriminate.
Qed.

Lemma filter_named_differs (n : string) (l : list fixed_expense) :
  filter (fun e => String.eqb (name e) n) (filter (name_differs n) l) = [].
Proof.
  induction l as [ | e l IH ]; simpl; [ reflexivity | ].
  unfold name_differs at 1.
  destruct (String.eqb (name e) n) eqn:E; simpl; [ exact IH | ].
  rewrite E. exact IH.
Qed.

Lemma filter_twice {A : Type} (f : A -> bool) (l : list A) :
  filter f (filter f l) = filter f l.
Proof.
  induction l as [ | x l IH ]; simpl; [ reflexivity | ].
  destruct (f x) eqn:E; simpl; [ rewrite E, IH | rewrite IH ]; reflexivity.
Qed.

Lemma name_differs_self (n : string) (a : float) :
  name_differs n {| name := n; amount := a |} = false.
Proof. unfold name_differs. simpl. rewrite String.eqb_refl. reflexivity. Qed.

Lemma others_after_add (n : string) (a : float) (d : data) :
  filter (name_differs n) (fixed_expenses (add_fixed_expense n a d))
  = filter (name_differs n) (fixed_expenses d).
Proof.
  unfold add_fixed_expense. cbn [fixed_expenses].
  rewrite filter_app, filter_twice. cbn [filter].
  rewrite name_differs_self. apply app_nil_r.
Qed.

Lemma named_after_add_other (n m : string) (a : float) (d : data) :
  m <> n -> named m (add_fixed_expense n a d) = named m d.
Proof.
  intros Hmn. unfold named, add_fixed_expense. cbn [fixed_expenses].
  rewrite filter_app. cbn [filter name].
  assert (E : String.eqb n m = false) by (apply String.eqb_neq; congruence).
  rewrite E, app_nil_r.
  induction (fixed_expenses d) as [ | e l IH ]; simpl; [ reflexivity | ].
  unfold name_differs at 1.
  destruct (String.eqb (name e) n) eqn:En; simpl.
  - apply String.eqb_eq in En.
    assert (Em : String.eqb (name e) m = false)
      by (apply String.eqb_neq; congruence).
    rewrite Em. exact IH.
  - destruct (String.eqb (name e) m); [ f_equal | ]; exact IH.
Qed.

(** C7.  Adding a fixed expense to a document whose expense names are
    pairwise distinct leaves them pairwise distinct, and leaves one
    entry of that name, with the amount given; the entries of the other
    names stay as they were, in their order, so that each other name
    keeps its entry; adding "Rent" at 500 and then at 600 leaves the
    single entry ("Rent", 600). *)
Theorem add_fixed_expense_upsert (n : string) (a : float) (d : data) :
  NoDup (map name (fixed_expenses d)) ->
  NoDup (map name (fixed_expenses (add_fixed_expense n a d)))
  /\ named n (add_fixed_expense n a d) = [ {| name := n; amount := a |} ]
  /\ filter (name_differs n) (fixed_expenses (add_fixed_expense n a d))
     = filter (name_differs n) (fixed_expenses d)
  /\ (forall m, m <> n -> named m (add_fixed_expense n a d) = named m d)
  /\ named "Rent"
       (add_fixed_expense "Rent" (of_Z 600) (add_fixed_expense "Rent" (of_Z 500) d))
     = [ {| name := "Rent"; amount := of_Z 600 |} ].
Proof.
  intros Hnd.
  assert (Hone : forall n a d,
             named n (add_fixed_expense n a d) = [ {| name := n; amount := a |} ]).
  { intros n0 a0 d0. unfold named, add_fixed_expense. simpl.
    rewrite filter_app, filter_named_differs. simpl.
    rewrite String.eqb_refl. reflexivity. }
  split; [ | split; [ apply Hone | ] ];
    [ | split; [ apply others_after_add | ];
        split; [ intros m Hm; apply named_after_add_other; exact Hm | apply Hone ] ].
  unfold add_fixed_expense. simpl. rewrite map_app. simpl.
  apply NoDup_app.
  - apply names_after_removal. exact Hnd.
  - constructor; [ intros [] | constructor ].
  - intros x Hx [Hn | []]. subst x. exact (name_differs_absent n _ Hx).
Qed.

(** C9.  Updating the profile writes the income and the savings goal
    and nothing else: the currency, the fixed expenses, the
    transactions and the budget plan stay as they were. *)
Theorem update_user_profile_frame (income goal : float) (d : data) :
  let d' := update_user_profile income goal d in
  monthly_income (user_profile d') = income
  /\ StorageEngine.savings_goal (user_profile d') = goal
  /\ currency (user_profile d') = currency (user_profile d)
  /\ fixed_expenses d' = fixed_expenses d
  /\ transactions d' = transactions d
  /\ budget_plan d' = budget_plan d.
Proof. simpl. repeat split. Qed.

Lemma handle_all_expenses (r : FinancialStateAgent.request) (d : data) :
  all_expenses d -> all_expenses (FinancialStateAgent.handle r d).
Proof.
  unfold all_expenses. intros H.
  destruct r; simpl; try exact H.
  apply Forall_app. split; [ exact H | ].
  constructor; [ reflexivity | constructor ].
Qed.

(** C10.  The transaction the agent logs is appended with the type
    "expense"; hence a document all of whose transactions are expenses
    stays so under every sequence of requests to the agent. *)
Theorem state_agent_logs_expenses_only
    (rs : list FinancialStateAgent.request) (d : data) :
  all_expenses d ->
  all_expenses (FinancialStateAgent.run rs d)
  /\ (forall now item_name a cat,
        exists t,
          transactions (FinancialStateAgent.log_transaction now item_name a cat d)
          = transactions d ++ [t]
          /\ tx_type t = Some "expense"%string).
Proof.
  intros H. split.
  - unfold FinancialStateAgent.run. revert d H.
    induction rs as [ | r rs IH ]; intros d H; simpl.
    + exact H.
    + apply IH. apply handle_all_expenses. exact H.
  - intros now item_name a cat. eexists. split; reflexivity.
Qed.

End Store.

(** * The theorems at concrete inputs *)
Section Instances.
Import Binary64 StorageEngine.

(** Each literal is the float nearest to the decimal written in the
    source. *)
Example literals_rounded :
  lit_0_5 = of_ratio 5 10 /\ lit_0_40 = of_ratio 40 100
  /\ lit_0_60 = of_ratio 60 100 /\ lit_0_30 = of_ratio 30 100
  /\ lit_0_20 = of_ratio 20 100 /\ lit_100 = of_Z 100.
Proof. repeat split. Qed.

(** The three scenarios of the evaluator: 10000, 20000 and 6000 asked of
    the simulator with 30000, 30000 and 5000 at hand. *)
Example assess_scenarios :
  (exists a, ImpactSimulator.assess_transaction (of_Z 30000) zero zero (of_Z 10000)
             = Ok a
             /\ ImpactSimulator.status a = "SAFE"%string
             /\ ImpactSimulator.remaining_balance a = of_Z 20000)
  /\ (exists a, ImpactSimulator.assess_transaction (of_Z 30000) zero zero (of_Z 20000)
                = Ok a
                /\ ImpactSimulator.status a = "CAUTION"%string
                /\ ImpactSimulator.remaining_balance a = of_Z 10000)
  /\ (exists a, ImpactSimulator.assess_transaction (of_Z 5000) zero zero (of_Z 6000)
                = Ok a
                /\ ImpactSimulator.status a = "DANGER"%string
                /\ ImpactSimulator.remaining_balance a = of_Z (-1000)
                /\ ImpactSimulator.cost_percentage_of_free_cash a = None).
Proof. repeat split; eexists; repeat split. Qed.

(** On a fresh document the free cash flow is zero, and asking the
    purchase agent about an item that costs nothing ends in the
    exception. *)
Example analyze_purchase_fresh_store :
  PurchaseImpactAgent.analyze_purchase "Gift" zero "Wants" initial_data
  = Raise ZeroDivisionError.
Proof. reflexivity. Qed.

(** 6000 out of a balance of 5000. *)
Lemma assess_transaction_danger_witness :
  valid (of_Z 5000) /\ valid (of_Z 6000) /\ geb (of_Z 6000) zero = true
  /\ gtb (of_Z 6000) (of_Z 5000) = true
  /\ exists a,
       ImpactSimulator.assess_transaction (of_Z 5000) zero zero (of_Z 6000) = Ok a
       /\ ImpactSimulator.status a = "DANGER"%string
       /\ ImpactSimulator.remaining_balance a = sub (of_Z 5000) (of_Z 6000)
       /\ ltb (ImpactSimulator.remaining_balance a) zero = true
       /\ ImpactSimulator.cost_percentage_of_free_cash a = None.
Proof.
  do 4 (split; [ reflexivity | ]).
  apply (assess_transaction_danger zero zero (of_Z 5000) (of_Z 6000));
    reflexivity.
Defined.

(** 10000 out of a balance of 30000. *)
Lemma assess_transaction_affordable_witness :
  valid (of_Z 30000) /\ valid (of_Z 10000)
  /\ gtb (of_Z 30000) zero = true /\ geb (of_Z 10000) zero = true
  /\ leb (of_Z 10000) (of_Z 30000) = true
  /\ exists a,
       ImpactSimulator.assess_transaction (of_Z 30000) zero zero (of_Z 10000) = Ok a
       /\ ImpactSimulator.status a = "SAFE"%string
       /\ ImpactSimulator.remaining_balance a = of_Z 20000.
Proof.
  do 5 (split; [ reflexivity | ]).
  destruct (assess_transaction_affordable zero zero (of_Z 30000) (of_Z 10000))
    as [[a (Ha & Hs & Hr & _)] _]; try reflexivity.
  exists a. split; [ exact Ha | ]. split; [ exact Hs | exact Hr ].
Defined.

Lemma assess_transaction_zero_division_witness :
  eqb zero zero = true
  /\ ImpactSimulator.assess_transaction zero zero zero zero = Raise ZeroDivisionError.
Proof.
  split; [ reflexivity | ].
  apply (assess_transaction_zero_division zero zero zero zero); reflexivity.
Defined.

Lemma calculate_remaining_after_fixed_deficit_witness :
  valid (of_Z 30000) /\ valid (of_Z 40000)
  /\ gtb (of_Z 40000) (of_Z 30000) = true
  /\ BudgetCalculator.needs_gap
       (BudgetCalculator.calculate_remaining_after_fixed (of_Z 30000) (of_Z 40000))
     = Some (sub (of_Z 40000) (of_Z 30000)).
Proof.
  do 3 (split; [ reflexivity | ]).
  rewrite (proj1 (calculate_remaining_after_fixed_deficit
                    (of_Z 30000) (of_Z 40000) eq_refl eq_refl eq_refl)).
  reflexivity.
Defined.

Lemma calculate_remaining_after_fixed_surplus_witness :
  valid (of_Z 50000) /\ valid (of_Z 20000)
  /\ geb (of_Z 50000) zero = true /\ geb (of_Z 20000) zero = true
  /\ leb (of_Z 20000) (of_Z 50000) = true
  /\ BudgetCalculator.status
       (BudgetCalculator.calculate_remaining_after_fixed (of_Z 50000) (of_Z 20000))
     = "surplus"%string
  /\ exists qd qs qw,
       to_Q (sub (of_Z 50000) (of_Z 20000)) = Some qd
       /\ (qd == 30000)%Q
       /\ to_Q (mul lit_0_40 (sub (of_Z 50000) (of_Z 20000))) = Some qs
       /\ to_Q (mul lit_0_60 (sub (of_Z 50000) (of_Z 20000))) = Some qw
       /\ (Qabs (qs + qw - qd) <= 1 # 1000000000)%Q.
Proof.
  do 5 (split; [ reflexivity | ]).
  destruct (calculate_remaining_after_fixed_surplus
              (of_Z 50000) (of_Z 20000)
              (inject_Z 8246337208320000 * pow2Q (-38))
              eq_refl eq_refl eq_refl eq_refl eq_refl) as [Hplan Hsum].
  split; [ rewrite Hplan; reflexivity | ].
  destruct (Hsum eq_refl eq_refl)
    as (qs & qw & qsum & Hs & Hw & _ & Herr & _).
  exists (inject_Z 8246337208320000 * pow2Q (-38))%Q, qs, qw.
  split; [ reflexivity | ]. split; [ reflexivity | ].
  split; [ exact Hs | ]. split; [ exact Hw | exact Herr ].
Defined.

Lemma add_fixed_expense_upsert_witness :
  NoDup (map name (fixed_expenses two_expenses))
  /\ NoDup (map name (fixed_expenses (add_fixed_expense "Rent" (of_Z 600) two_expenses)))
  /\ named "Rent" (add_fixed_expense "Rent" (of_Z 600) two_expenses)
     = [ {| name := "Rent"; amount := of_Z 600 |} ]
  /\ named "Phone" (add_fixed_expense "Rent" (of_Z 600) two_expenses)
     = [ {| name := "Phone"; amount := of_Z 40 |} ].
Proof.
  assert (H : NoDup (map name (fixed_expenses two_expenses))).
  { repeat constructor; simpl; intuition discriminate. }
  split; [ exact H | ].
  destruct (add_fixed_expense_upsert "Rent" (of_Z 600) two_expenses H)
    as (H1 & H2 & _ & H4 & _).
  split; [ exact H1 | ]. split; [ exact H2 | ].
  rewrite (H4 "Phone"%string) by discriminate. reflexivity.
Defined.

Lemma state_agent_logs_expenses_only_witness :
  all_expenses initial_data
  /\ all_expenses
       (FinancialStateAgent.run
          [ FinancialStateAgent.UpdateProfile (of_Z 50000) (of_Z 100000);
            FinancialStateAgent.AddFixedExpense "Rent" (of_Z 20000);
            FinancialStateAgent.LogTransaction "2024-01-01T10:00:00" "Shoes"
              (of_Z 2000) "Wants";
            FinancialStateAgent.GetTodaysState ]
          initial_data).
Proof.
  assert (H : all_expenses initial_data) by constructor.
  split; [ exact H | ].
  apply (state_agent_logs_expenses_only _ initial_data H).
Defined.

End Instances.

(** * Further properties of the code *)

(** * Sums of amounts *)
Module Binary64Sums.
Import Binary64 Binary64Facts Binary64Rounding.

Lemma add_valid (x y : float) : valid x -> valid y -> valid (add x y).
Proof.
  intros Vx Vy.
  destruct x as [ sx | sx | | sx mx ex ]; destruct y as [ sy | sy | | sy my ey ];
    try (destruct sx; reflexivity); try (destruct sy; reflexivity);
    try (destruct sx, sy; reflexivity); try reflexivity;
    try exact Vx; try exact Vy.
  unfold add, SFadd. cbv zeta.
  destruct (cond_Zopp sx (Z.pos (fst (shl_align mx ex (Z.min ex ey))))
            + cond_Zopp sy (Z.pos (fst (shl_align my ey (Z.min ex ey)))))
    as [ | q | q ]; cbn [binary_normalize].
  - reflexivity.
  - apply binary_round_valid.
  - apply binary_round_valid.
Qed.

Lemma geb_zero_signed (x : float) : signed false x -> geb x zero = true.
Proof.
  destruct x as [ s | s | | s m e ]; simpl; intros H; try contradiction;
    subst s; reflexivity.
Qed.

(** The sum of two amounts that are not negative is not negative. *)
Lemma add_nonneg (x y : float) :
  valid x -> valid y -> geb x zero = true -> geb y zero = true ->
  geb (add x y) zero = true.
Proof.
  intros Vx Vy Hx Hy.
  destruct x as [ sx | sx | | sx mx ex ]; try discriminate Hx;
    destruct y as [ sy | sy | | sy my ey ]; try discriminate Hy;
    try (destruct sx; try discriminate Hx; destruct sy; try discriminate Hy; reflexivity);
    try (destruct sx, sy; reflexivity).
  destruct sx; [ discriminate Hx | ]. destruct sy; [ discriminate Hy | ].
  unfold add, SFadd. cbv zeta. cbn [cond_Zopp].
  apply valid_finite in Vx. apply valid_finite in Vy.
  apply geb_zero_signed.
  change (Z.pos ?a + Z.pos ?b) with (Z.pos (a + b)). cbn [binary_normalize].
  apply binary_round_signed. lia.
Qed.

Lemma sum_from_nonneg (l : list float) (acc : float) :
  Forall (fun x => valid x /\ geb x zero = true) l ->
  valid acc -> geb acc zero = true ->
  valid (fold_left add l acc) /\ geb (fold_left add l acc) zero = true.
Proof.
  revert acc. induction l as [ | x l IH ]; intros acc Hl Va Ha; simpl.
  - split; assumption.
  - apply Forall_cons_iff in Hl. destruct Hl as [[Vx Hx] Hl].
    apply IH; [ exact Hl | apply add_valid; assumption | apply add_nonneg; assumption ].
Qed.

Lemma sum_from_valid (l : list float) (acc : float) :
  Forall valid l -> valid acc -> valid (fold_left add l acc).
Proof.
  revert acc. induction l as [ | x l IH ]; intros acc Hl Va; simpl.
  - exact Va.
  - apply Forall_cons_iff in Hl. destruct Hl as [Vx Hl].
    apply IH; [ exact Hl | apply add_valid; assumption ].
Qed.

End Binary64Sums.

(** * Whole amounts *)
Module Binary64Whole.
Import Binary64 Binary64Facts Binary64Rounding.

Lemma dyadic_inj (a b e : Z) : (dyadic a e == dyadic b e)%Q -> a = b.
Proof.
  unfold dyadic. intros H.
  apply Qmult_inj_r in H.
  - apply inject_Z_injective. exact H.
  - pose proof (pow2Q_pos e). lra.
Qed.

Lemma dyadic_digits_lt (m : positive) (e : Z) :
  (dyadic (Z.pos m) e < pow2Q (Z.pos (digits2_pos m) + e))%Q.
Proof.
  pose proof (digits_bounds m) as [_ Hhi].
  assert (Hle : Z.pos m + 1 <= 2 ^ Z.pos (digits2_pos m)) by lia.
  apply (dyadic_le _ _ e) in Hle. unfold dyadic at 2 in Hle.
  rewrite pow2Q_Z, <- pow2Q_add in Hle by lia.
  rewrite dyadic_add in Hle.
  assert (H1 : (0 < dyadic 1 e)%Q) by apply (dyadic_pos 1).
  lra.
Qed.

Lemma dyadic_digits_ge (m : positive) (e : Z) :
  (pow2Q (Z.pos (digits2_pos m) + e - 1) <= dyadic (Z.pos m) e)%Q.
Proof.
  pose proof (digits_bounds m) as [Hlo _].
  apply (dyadic_le _ _ e) in Hlo. unfold dyadic at 1 in Hlo.
  rewrite pow2Q_Z, <- pow2Q_add in Hlo by lia.
  replace (Z.pos (digits2_pos m) + e - 1) with (Z.pos (digits2_pos m) - 1 + e) by lia.
  exact Hlo.
Qed.

(** Two ways of writing one number have their leading bit in one place. *)
Lemma same_value_same_digits (m M : positive) (e E : Z) :
  (dyadic (Z.pos m) e == dyadic (Z.pos M) E)%Q ->
  Z.pos (digits2_pos m) + e = Z.pos (digits2_pos M) + E.
Proof.
  intros H.
  pose proof (dyadic_digits_lt m e) as H1. pose proof (dyadic_digits_ge m e) as H2.
  pose proof (dyadic_digits_lt M E) as H3. pose proof (dyadic_digits_ge M E) as H4.
  rewrite H in H1, H2.
  apply digits_of_value in H1. apply digits_of_value_ge in H2.
  lia.
Qed.

Lemma valid_canonical (s : bool) (M : positive) (E : Z) :
  valid (S754_finite s M E) ->
  fexp prec emax (Z.pos (digits2_pos M) + E) = E /\ E <= 971.
Proof.
  intros V. apply valid_finite in V. rewrite fexp_eq. lia.
Qed.

(** Rounding a number that the format holds gives that number. *)
Lemma binary_round_exact (s : bool) (m M : positive) (e E : Z) :
  valid (S754_finite s M E) ->
  (dyadic (Z.pos m) e == dyadic (Z.pos M) E)%Q ->
  binary_round prec emax s m e = S754_finite s M E.
Proof.
  intros V Hval. apply valid_canonical in V. destruct V as [Hcanon HE].
  unfold binary_round.
  pose proof (shl_align_fexp m e) as Hal.
  destruct (shl_align m e (fexp prec emax (Z.pos (digits2_pos m) + e))) as [mz ez].
  destruct Hal as (Hdig & Hle & Hez & Hmz).
  assert (Hvz : (dyadic (Z.pos mz) ez == dyadic (Z.pos M) E)%Q).
  { rewrite <- Hval. rewrite Hmz.
    rewrite <- (dyadic_shift (Z.pos m) (e - ez) ez) by lia.
    replace (ez + (e - ez)) with e by lia. reflexivity. }
  pose proof (same_value_same_digits _ _ _ _ Hval) as Hd.
  rewrite Hd, Hcanon in Hle.
  destruct (binary_round_aux_spec s mz ez) as (m3 & k & Hm3 & Hk & Herr & Hcan & ->).
  cbv zeta in Hk, Herr.
  rewrite Hdig, Hd, Hcanon in Hk, Herr, Hcan.
  rewrite Z.max_r in Hk, Herr by lia.
  specialize (Hcan Hle).
  assert (HM : Z.pos mz = Z.pos M * 2 ^ (E - ez)).
  { apply (dyadic_inj _ _ ez). rewrite Hvz.
    rewrite <- (dyadic_shift (Z.pos M) (E - ez) ez) by lia.
    replace (ez + (E - ez)) with E by lia. reflexivity. }
  rewrite HM in Herr.
  assert (Hp : 0 < 2 ^ (E - ez)) by (apply Z.pow_pos_nonneg; lia).
  assert (Hcase : k = E - ez \/ k = E - ez + 1) by lia.
  destruct Hcase as [-> | ->].
  - assert (m3 = Z.pos M) by nia. subst m3.
    replace (ez + (E - ez)) with E by lia.
    apply Z.leb_le in HE. rewrite HE. reflexivity.
  - exfalso.
    rewrite Z.pow_add_r, Z.pow_1_r in Herr by lia.
    assert (H2 : 2 * m3 = Z.pos M) by nia.
    destruct m3 as [ | q | q ]; try lia.
    destruct Hcan as [Hcan | Hcan]; [ | discriminate ].
    assert (HMq : M = xO q) by lia. subst M.
    cbn [Zdigits2 digits2_pos] in Hcan, Hcanon.
    rewrite Pos2Z.inj_succ in Hcanon.
    replace (Z.pos (digits2_pos q) + (ez + (E - ez + 1)))
      with (Z.succ (Z.pos (digits2_pos q)) + E) in Hcan by lia.
    lia.
Qed.

Lemma shl_align_snd_eq (m : positive) (e e' : Z) :
  e' <= e -> snd (shl_align m e e') = e'.
Proof.
  intros H. unfold shl_align.
  destruct (e' - e) as [ | p | p ] eqn:E; cbn [snd]; lia.
Qed.

(** The float of a whole number below 2^53 in size: one mantissa and
    one exponent for both signs, and the number is its value. *)
Lemma whole_repr (p : positive) :
  Z.pos p < 2 ^ 53 ->
  exists M E,
    (forall s, binary_round prec emax s p 0 = S754_finite s M E)
    /\ (forall s, valid (S754_finite s M E))
    /\ -1074 <= E <= 0
    /\ Z.pos M = Z.pos p * 2 ^ (- E).
Proof.
  intros Hp.
  assert (Hd : Z.pos (digits2_pos p) <= 53) by (apply digits_le; lia).
  set (fe := fexp prec emax (Z.pos (digits2_pos p) + 0)).
  assert (Hfe : -1074 <= fe <= 0) by (unfold fe; rewrite fexp_eq; lia).
  exists (fst (shl_align p 0 fe)), fe.
  pose proof (shl_align_fexp p 0) as Hal. fold fe in Hal.
  pose proof (shl_align_snd_eq p 0 fe (proj2 Hfe)) as Hsnd.
  pose proof (dyadic_align p 0 fe (proj2 Hfe)) as Hval.
  destruct (shl_align p 0 fe) as [mz ez]. cbn [fst snd] in *. subst ez.
  destruct Hal as (Hdig & _ & _ & Hmz).
  assert (V : forall s, valid (S754_finite s mz fe)).
  { intros s. unfold valid. cbn [valid_binary]. unfold bounded, canonical_mantissa.
    rewrite Hdig. fold fe. rewrite Z.eqb_refl.
    change (emax - prec) with 971.
    assert (Hb : (fe <=? 971) = true) by (apply Z.leb_le; lia).
    rewrite Hb. reflexivity. }
  split; [ | split; [ exact V | split; [ exact Hfe | ] ] ].
  - intros s. apply binary_round_exact; [ apply V | ]. symmetry. exact Hval.
  - rewrite Hmz. f_equal.
Qed.

Lemma of_Z_valid (n : Z) : valid (of_Z n).
Proof.
  destruct n as [ | p | p ]; [ reflexivity | | ]; apply binary_round_valid.
Qed.

(** The float of a whole number that is not zero. *)
Lemma of_Z_finite (n : Z) :
  n <> 0 -> Z.abs n < 2 ^ 53 ->
  exists M E,
    of_Z n = S754_finite (n <? 0) M E
    /\ valid (S754_finite (n <? 0) M E)
    /\ -1074 <= E <= 0
    /\ cond_Zopp (n <? 0) (Z.pos M) = n * 2 ^ (- E).
Proof.
  intros H0 Hn. destruct n as [ | p | p ]; [ contradiction | | ];
    destruct (whole_repr p Hn) as (M & E & Hr & V & HE & HM);
    exists M, E; cbn [Z.ltb Z.compare cond_Zopp];
    (split; [ apply Hr | split; [ apply V | split; [ exact HE | ] ] ]).
  - exact HM.
  - rewrite HM. lia.
Qed.

(** A whole number written with a negative exponent rounds to its
    float. *)
Lemma binary_normalize_whole (n ez : Z) :
  ez <= 0 -> Z.abs n < 2 ^ 53 ->
  binary_normalize prec emax (n * 2 ^ (- ez)) ez false = of_Z n.
Proof.
  intros Hez Hn.
  assert (Hp : 0 < 2 ^ (- ez)) by (apply Z.pow_pos_nonneg; lia).
  destruct n as [ | p | p ].
  - reflexivity.
  - destruct (whole_repr p Hn) as (M & E & Hr & V & HE & HM).
    destruct (Z.pos p * 2 ^ (- ez)) as [ | q | q ] eqn:Hq; try lia.
    unfold of_Z. cbn [binary_normalize]. rewrite Hr.
    apply binary_round_exact; [ apply V | ].
    rewrite <- Hq, HM.
    rewrite <- (dyadic_shift (Z.pos p) (- ez) ez) by lia.
    rewrite <- (dyadic_shift (Z.pos p) (- E) E) by lia.
    replace (ez + - ez) with (E + - E) by lia. reflexivity.
  - destruct (whole_repr p Hn) as (M & E & Hr & V & HE & HM).
    destruct (Z.neg p * 2 ^ (- ez)) as [ | q | q ] eqn:Hq; try lia.
    unfold of_Z. cbn [binary_normalize]. rewrite Hr.
    apply binary_round_exact; [ apply V | ].
    assert (Hq' : Z.pos q = Z.pos p * 2 ^ (- ez)) by lia.
    rewrite Hq', HM.
    rewrite <- (dyadic_shift (Z.pos p) (- ez) ez) by lia.
    rewrite <- (dyadic_shift (Z.pos p) (- E) E) by lia.
    replace (ez + - ez) with (E + - E) by lia. reflexivity.
Qed.

Lemma aligned_whole (n : Z) (M : positive) (E ez : Z) :
  ez <= E <= 0 ->
  cond_Zopp (n <? 0) (Z.pos M) = n * 2 ^ (- E) ->
  cond_Zopp (n <? 0) (Z.pos (fst (shl_align M E ez))) = n * 2 ^ (- ez).
Proof.
  intros HE HM. rewrite shl_align_fst by lia.
  replace (- ez) with (- E + (E - ez)) by lia.
  rewrite Z.pow_add_r by lia.
  destruct (n <? 0); cbn [cond_Zopp] in *; nia.
Qed.

(** Adding the floats of two whole numbers gives the float of their
    sum, as long as the three are below 2^53 in size. *)
Lemma add_of_Z (a b : Z) :
  Z.abs a < 2 ^ 53 -> Z.abs b < 2 ^ 53 -> Z.abs (a + b) < 2 ^ 53 ->
  add (of_Z a) (of_Z b) = of_Z (a + b).
Proof.
  intros Ha Hb Hab.
  destruct (Z.eq_dec a 0) as [-> | Ha0].
  { cbn [Z.add]. destruct (of_Z b) as [ [ | ] | | | ] eqn:E; try reflexivity.
    destruct b as [ | p | p ]; try discriminate E.
    - pose proof (binary_round_signed false p 0) as Hs.
      change (binary_round prec emax false p 0) with (of_Z (Z.pos p)) in Hs.
      rewrite E in Hs. cbn in Hs. lia.
    - pose proof (binary_round_signed true p 0) as Hs.
      change (binary_round prec emax true p 0) with (of_Z (Z.neg p)) in Hs.
      rewrite E in Hs. cbn in Hs. lia. }
  destruct (Z.eq_dec b 0) as [-> | Hb0].
  { rewrite Z.add_0_r.
    destruct (of_Z_finite a Ha0 Ha) as (M & E & -> & _). reflexivity. }
  destruct (of_Z_finite a Ha0 Ha) as (Ma & Ea & -> & Va & HEa & HMa).
  destruct (of_Z_finite b Hb0 Hb) as (Mb & Eb & -> & Vb & HEb & HMb).
  unfold add, SFadd. cbv zeta.
  rewrite (aligned_whole a Ma Ea (Z.min Ea Eb)) by (try exact HMa; lia).
  rewrite (aligned_whole b Mb Eb (Z.min Ea Eb)) by (try exact HMb; lia).
  rewrite <- Z.mul_add_distr_r.
  apply binary_normalize_whole; lia.
Qed.

Lemma sub_of_Z (a b : Z) :
  Z.abs a < 2 ^ 53 -> Z.abs b < 2 ^ 53 -> Z.abs (a - b) < 2 ^ 53 ->
  sub (of_Z a) (of_Z b) = of_Z (a - b).
Proof.
  intros Ha Hb Hab.
  destruct (Z.eq_dec b 0) as [-> | Hb0].
  { rewrite Z.sub_0_r.
    destruct (Z.eq_dec a 0) as [-> | Ha0]; [ reflexivity | ].
    destruct (of_Z_finite a Ha0 Ha) as (M & E & -> & _). reflexivity. }
  destruct (of_Z_finite b Hb0 Hb) as (Mb & Eb & Eqb' & Vb & HEb & HMb).
  destruct (Z.eq_dec a 0) as [-> | Ha0].
  { cbn [Z.sub Z.add Z.opp]. rewrite Eqb'.
    change (of_Z 0) with (S754_zero false). cbn [sub SFsub].
    destruct b as [ | p | p ]; [ contradiction | | ];
      destruct (whole_repr p Hb) as (M & E & Hr & _);
      unfold of_Z in Eqb' |- *; cbn [binary_normalize Z.opp Z.ltb Z.compare] in *;
      rewrite Hr in Eqb' |- *; injection Eqb' as <- <-; reflexivity. }
  destruct (of_Z_finite a Ha0 Ha) as (Ma & Ea & -> & Va & HEa & HMa).
  rewrite Eqb'.
  unfold sub, SFsub. cbv zeta.
  rewrite (aligned_whole a Ma Ea (Z.min Ea Eb)) by (try exact HMa; lia).
  rewrite (aligned_whole b Mb Eb (Z.min Ea Eb)) by (try exact HMb; lia).
  rewrite <- Z.mul_sub_distr_r.
  apply binary_normalize_whole; lia.
Qed.

End Binary64Whole.

Section Evaluator.
Import Binary64 Binary64Facts ImpactSimulator.

Lemma sub_zero_ltb (s : bool) (c : float) :
  ltb (sub (S754_zero s) c) zero = ltb zero c.
Proof.
  destruct c as [ sc | sc | | sc m e ]; destruct s; try destruct sc; reflexivity.
Qed.

Lemma assess_transaction_outcome (b sv g c : float) :
  assess_transaction b sv g c
  = if ltb (sub b c) zero then
      Ok {| status := "DANGER";
            reason := "Insufficient funds. This purchase puts you in debt.";
            remaining_balance := sub b c;
            impact_on_savings := Some "N/A"%string;
            cost_percentage_of_free_cash := None |}
    else if eqb b zero then Raise ZeroDivisionError
    else
      Ok {| status := if gtb c (mul b lit_0_5) then "CAUTION" else "SAFE";
            reason := if gtb c (mul b lit_0_5)
                      then "This uses more than 50% of your remaining monthly 'fun money'."
                      else "You have enough budget for this.";
            remaining_balance := sub b c;
            impact_on_savings := None;
            cost_percentage_of_free_cash := Some (mul (div c b) lit_100) |}.
Proof.
  unfold assess_transaction, truediv.
  destruct (ltb (sub b c) zero); [ reflexivity | ].
  destruct (gtb c (mul b lit_0_5)); destruct (eqb b zero); reflexivity.
Qed.

(** X1.  The call ends in [ZeroDivisionError] exactly when the balance is a
    zero and the cost is not above zero; a cost above zero always gets an
    assessment. *)
Theorem assess_transaction_raises (balance current_savings savings_goal item_cost : float) :
  (assess_transaction balance current_savings savings_goal item_cost
   = Raise ZeroDivisionError
   <-> eqb balance zero = true /\ gtb item_cost zero = false)
  /\ (gtb item_cost zero = true ->
      exists a,
        assess_transaction balance current_savings savings_goal item_cost = Ok a).
Proof.
  rewrite assess_transaction_outcome.
  change (gtb item_cost zero) with (ltb zero item_cost).
  destruct (eqb balance zero) eqn:Hz.
  - destruct (eqb_zero_inv balance Hz) as [s ->].
    rewrite sub_zero_ltb.
    destruct (ltb zero item_cost); split.
    + split; [ discriminate | intros [_ H]; discriminate H ].
    + intros _. eexists. reflexivity.
    + split; [ intros _; split; reflexivity | reflexivity ].
    + discriminate.
  - split.
    + split; [ | intros [H _]; discriminate H ].
      destruct (ltb (sub balance item_cost) zero); discriminate.
    + intros _. destruct (ltb (sub balance item_cost) zero); eexists; reflexivity.
Qed.

End Evaluator.

Section Aggregates.
Import Binary64 Binary64Facts Binary64Rounding Binary64Sums Binary64Whole.
Import StorageEngine Ledger.

Lemma filter_none_named (n : string) (l : list fixed_expense) :
  filter (fun e => String.eqb (name e) n) l = [] -> filter (name_differs n) l = l.
Proof.
  induction l as [ | e l IH ]; simpl; [ reflexivity | ].
  unfold name_differs at 1.
  destruct (String.eqb (name e) n); simpl; [ discriminate | ].
  intros H. rewrite (IH H). reflexivity.
Qed.

Lemma variable_spend_snoc (ts : list transaction) (t : transaction) :
  FinancialStateAgent.variable_spend (ts ++ [t])
  = if FinancialStateAgent.is_expense t
    then add (FinancialStateAgent.variable_spend ts) (tx_amount t)
    else FinancialStateAgent.variable_spend ts.
Proof.
  unfold FinancialStateAgent.variable_spend. rewrite fold_left_app. reflexivity.
Qed.

Lemma variable_spend_filter (ts : list transaction) :
  FinancialStateAgent.variable_spend ts
  = sum (map tx_amount (filter FinancialStateAgent.is_expense ts)).
Proof. apply variable_spend_from. Qed.

(** The expenses counted after a transaction of the type "expense" is
    appended are the ones counted before, followed by its amount. *)
Lemma expenses_after_log (ts : list transaction) (t : transaction) :
  FinancialStateAgent.is_expense t = true ->
  map tx_amount (filter FinancialStateAgent.is_expense (ts ++ [t]))
  = map tx_amount (filter FinancialStateAgent.is_expense ts) ++ [tx_amount t].
Proof.
  intros Ht. rewrite filter_app, map_app. cbn [filter]. rewrite Ht. reflexivity.
Qed.

(** X11.  Logging a purchase makes the variable expenses the sum of the
    amounts of the expenses that were there followed by the cost, whatever
    the category given; the free cash flow is the income less the fixed
    expenses less that sum; and the income, the fixed expenses and the
    savings goal of the snapshot stay as they were. *)
Theorem get_todays_state_after_purchase
    (now item_name : string) (a : float) (cat : string) (d : data) :
  let s := FinancialStateAgent.get_todays_state d in
  let s' := FinancialStateAgent.get_todays_state
              (FinancialStateAgent.log_transaction now item_name a cat d) in
  FinancialStateAgent.variable_expenses s'
  = sum (map tx_amount (filter FinancialStateAgent.is_expense (get_transactions d))
         ++ [a])
  /\ FinancialStateAgent.free_cash_flow s'
     = sub (sub (FinancialStateAgent.income s)
                (FinancialStateAgent.total_fixed_expenses s))
           (FinancialStateAgent.variable_expenses s')
  /\ FinancialStateAgent.income s' = FinancialStateAgent.income s
  /\ FinancialStateAgent.total_fixed_expenses s'
     = FinancialStateAgent.total_fixed_expenses s
  /\ FinancialStateAgent.savings_goal s' = FinancialStateAgent.savings_goal s.
Proof.
  cbv zeta.
  unfold FinancialStateAgent.get_todays_state, FinancialStateAgent.log_transaction,
    log_transaction, get_transactions, FinancialStateAgent.get_profile,
    get_user_profile, FinancialStateAgent.get_total_fixed_expenses, get_fixed_expenses.
  cbn [FinancialStateAgent.variable_expenses FinancialStateAgent.free_cash_flow
       FinancialStateAgent.income FinancialStateAgent.total_fixed_expenses
       FinancialStateAgent.savings_goal transactions user_profile fixed_expenses].
  rewrite variable_spend_filter, expenses_after_log by reflexivity.
  cbn [tx_amount]. repeat split.
Qed.

Lemma Forall_and_valid (l : list float) :
  Forall valid l -> Forall (fun x => geb x zero = true) l ->
  Forall (fun x => valid x /\ geb x zero = true) l.
Proof.
  intros Hv Hn. apply Forall_forall. intros x Hx.
  split; [ exact (proj1 (Forall_forall _ _) Hv x Hx)
         | exact (proj1 (Forall_forall _ _) Hn x Hx) ].
Qed.

Lemma Forall_map_filter {A B : Type} (P : B -> Prop) (f : A -> B) (g : A -> bool)
    (l : list A) :
  Forall P (map f l) -> Forall P (map f (filter g l)).
Proof.
  induction l as [ | x l IH ]; simpl; intros H; [ constructor | ].
  apply Forall_cons_iff in H. destruct H as [Hx Hl].
  destruct (g x); simpl; [ constructor; [ exact Hx | ] | ]; exact (IH Hl).
Qed.

(** X12.  When no amount of the document is negative, neither total of the
    snapshot is, however large the amounts; and the free cash flow is below
    zero exactly when the variable expenses exceed what the fixed expenses
    leave of the income. *)
Theorem get_todays_state_not_negative (d : data) :
  valid_amounts d -> amounts_not_negative d ->
  let s := FinancialStateAgent.get_todays_state d in
  geb (FinancialStateAgent.total_fixed_expenses s) zero = true
  /\ geb (FinancialStateAgent.variable_expenses s) zero = true
  /\ ltb (FinancialStateAgent.free_cash_flow s) zero
     = gtb (FinancialStateAgent.variable_expenses s)
           (sub (FinancialStateAgent.income s)
                (FinancialStateAgent.total_fixed_expenses s)).
Proof.
  intros (Vi & Vf & Vt) (Nf & Nt). cbv zeta.
  unfold FinancialStateAgent.get_todays_state.
  cbn [FinancialStateAgent.variable_expenses FinancialStateAgent.free_cash_flow
       FinancialStateAgent.income FinancialStateAgent.total_fixed_expenses].
  unfold FinancialStateAgent.get_total_fixed_expenses, get_fixed_expenses,
    get_transactions, FinancialStateAgent.get_profile, get_user_profile.
  rewrite variable_spend_filter.
  pose proof (Forall_map_filter _ tx_amount FinancialStateAgent.is_expense _ Vt) as Vt'.
  pose proof (Forall_map_filter _ tx_amount FinancialStateAgent.is_expense _ Nt) as Nt'.
  destruct (sum_from_nonneg _ zero (Forall_and_valid _ Vf Nf) eq_refl eq_refl)
    as [Vsf Hsf].
  destruct (sum_from_nonneg _ zero (Forall_and_valid _ Vt' Nt') eq_refl eq_refl)
    as [Vst Hst].
  split; [ exact Hsf | ]. split; [ exact Hst | ].
  apply sub_ltb_zero; [ apply sub_valid; assumption | exact Vst ].
Qed.

End Aggregates.

Section WholeAmounts.
Import Binary64 Binary64Facts Binary64Rounding Binary64Sums Binary64Whole.
Import StorageEngine Ledger.

Lemma total_not_negative (l : list Z) : Forall (Z.le 0) l -> 0 <= total l.
Proof.
  induction l as [ | x l IH ]; simpl; intros H; [ lia | ].
  apply Forall_cons_iff in H. destruct H as [Hx Hl]. specialize (IH Hl). lia.
Qed.

Lemma sum_whole_from (l : list Z) (acc : Z) :
  Forall (Z.le 0) l -> 0 <= acc -> acc + total l < 2 ^ 53 ->
  fold_left add (map of_Z l) (of_Z acc) = of_Z (acc + total l).
Proof.
  revert acc. induction l as [ | x l IH ]; intros acc Hl Ha Hb; simpl.
  - rewrite Z.add_0_r. reflexivity.
  - apply Forall_cons_iff in Hl. destruct Hl as [Hx Hl].
    pose proof (total_not_negative l Hl) as Ht. simpl in Hb.
    rewrite add_of_Z by lia.
    rewrite IH by (try assumption; lia).
    f_equal. lia.
Qed.

Lemma sum_whole (l : list Z) :
  Forall (Z.le 0) l -> total l < 2 ^ 53 -> sum (map of_Z l) = of_Z (total l).
Proof.
  intros Hl Hb. unfold sum. change zero with (of_Z 0).
  rewrite sum_whole_from by (try assumption; lia). reflexivity.
Qed.

Lemma total_snoc (l : list Z) (z : Z) : total (l ++ [z]) = total l + z.
Proof.
  induction l as [ | x l IH ]; simpl; [ lia | ]. fold (total (l ++ [z])). rewrite IH.
  fold (total l). lia.
Qed.

(** X10.  After an expense is stored the total of the fixed expenses is the
    sum of the amounts of the entries of the other names followed by the new
    amount, so that the amount the name had is no longer counted; for a name
    that was not there it is the sum of all the earlier amounts followed by
    the new one; and when the amounts are whole numbers that are not
    negative and stay below 2^53 in total, it is exactly the total of the
    others plus the new amount. *)
Theorem get_total_fixed_expenses_after_add (n : string) (a : float) (d : data) :
  FinancialStateAgent.get_total_fixed_expenses
    (FinancialStateAgent.add_fixed_expense n a d)
  = sum (map amount (filter (name_differs n) (get_fixed_expenses d)) ++ [a])
  /\ (named n d = [] ->
      FinancialStateAgent.get_total_fixed_expenses
        (FinancialStateAgent.add_fixed_expense n a d)
      = sum (map amount (get_fixed_expenses d) ++ [a]))
  /\ (forall (os : list Z) (z : Z),
        a = of_Z z ->
        map amount (filter (name_differs n) (get_fixed_expenses d)) = map of_Z os ->
        Forall (Z.le 0) os -> 0 <= z -> total os + z < 2 ^ 53 ->
        FinancialStateAgent.get_total_fixed_expenses
          (FinancialStateAgent.add_fixed_expense n a d)
        = of_Z (total os + z)).
Proof.
  assert (H : FinancialStateAgent.get_total_fixed_expenses
                (FinancialStateAgent.add_fixed_expense n a d)
              = sum (map amount (filter (name_differs n) (get_fixed_expenses d)) ++ [a])).
  { unfold FinancialStateAgent.get_total_fixed_expenses,
      FinancialStateAgent.add_fixed_expense, get_fixed_expenses, add_fixed_expense.
    cbn [fixed_expenses]. rewrite map_app. reflexivity. }
  split; [ exact H | ]. split.
  - intros Hn. rewrite H. unfold named in Hn. unfold get_fixed_expenses.
    rewrite (filter_none_named n _ Hn). reflexivity.
  - intros os z -> Hos Nos Hz Hb. rewrite H, Hos.
    change [of_Z z] with (map of_Z [z]). rewrite <- map_app.
    rewrite sum_whole.
    + rewrite total_snoc. reflexivity.
    + apply Forall_app. split; [ exact Nos | constructor; [ exact Hz | constructor ] ].
    + rewrite total_snoc. exact Hb.
Qed.

Lemma eqb_of_Z_zero (n : Z) :
  n <> 0 -> Z.abs n < 2 ^ 53 -> eqb (of_Z n) zero = false.
Proof.
  intros H0 Hn. destruct (of_Z_finite n H0 Hn) as (M & E & -> & _).
  destruct (n <? 0); reflexivity.
Qed.

(** The three sums of the snapshot of a document of whole amounts. *)
Lemma snapshot_whole (d : data) (i : Z) (fs vs : list Z) :
  monthly_income (user_profile d) = of_Z i ->
  map amount (fixed_expenses d) = map of_Z fs ->
  map tx_amount (filter FinancialStateAgent.is_expense (transactions d)) = map of_Z vs ->
  0 <= i < 2 ^ 53 -> Forall (Z.le 0) fs -> Forall (Z.le 0) vs ->
  total fs + total vs < 2 ^ 53 ->
  FinancialStateAgent.get_total_fixed_expenses d = of_Z (total fs)
  /\ FinancialStateAgent.variable_spend (transactions d) = of_Z (total vs)
  /\ sub (sub (monthly_income (user_profile d))
              (FinancialStateAgent.get_total_fixed_expenses d))
         (FinancialStateAgent.variable_spend (transactions d))
     = of_Z (i - total fs - total vs).
Proof.
  intros Hi Hf Hv Bi Nf Nv Hb.
  pose proof (total_not_negative fs Nf) as Tf.
  pose proof (total_not_negative vs Nv) as Tv.
  assert (Ef : FinancialStateAgent.get_total_fixed_expenses d = of_Z (total fs)).
  { unfold FinancialStateAgent.get_total_fixed_expenses, get_fixed_expenses.
    rewrite Hf. apply sum_whole; [ exact Nf | lia ]. }
  assert (Ev : FinancialStateAgent.variable_spend (transactions d) = of_Z (total vs)).
  { rewrite variable_spend_filter, Hv. apply sum_whole; [ exact Nv | lia ]. }
  split; [ exact Ef | ]. split; [ exact Ev | ].
  rewrite Ef, Ev, Hi.
  rewrite sub_of_Z by lia. rewrite sub_of_Z by lia. reflexivity.
Qed.

(** X15.  For a document of whole amounts that are not negative, with an
    income below 2^53 and fixed and variable expenses that add up to less
    than 2^53, the snapshot is exact: its totals are the sums of the amounts
    and its free cash flow is the income less the two. *)
Theorem get_todays_state_whole (d : data) (i : Z) (fs vs : list Z) :
  monthly_income (user_profile d) = of_Z i ->
  map amount (fixed_expenses d) = map of_Z fs ->
  map tx_amount (filter FinancialStateAgent.is_expense (transactions d)) = map of_Z vs ->
  0 <= i < 2 ^ 53 -> Forall (Z.le 0) fs -> Forall (Z.le 0) vs ->
  total fs + total vs < 2 ^ 53 ->
  let s := FinancialStateAgent.get_todays_state d in
  FinancialStateAgent.total_fixed_expenses s = of_Z (total fs)
  /\ FinancialStateAgent.variable_expenses s = of_Z (total vs)
  /\ FinancialStateAgent.free_cash_flow s = of_Z (i - total fs - total vs).
Proof.
  intros Hi Hf Hv Bi Nf Nv Hb.
  exact (snapshot_whole d i fs vs Hi Hf Hv Bi Nf Nv Hb).
Qed.

(** X16.  For a document of whole amounts that are not negative, with an
    income below 2^53, and a whole cost above zero such that the fixed
    expenses, the variable expenses and the cost add up to less than 2^53,
    the purchase always gets its assessment; it is DANGER exactly when the
    cost exceeds the income less the expenses; and once the purchase is
    confirmed the free cash flow of the snapshot is the remaining balance
    that the assessment announced. *)
Theorem confirm_purchase_settles
    (d : data) (i : Z) (fs vs : list Z) (c : Z) (now item_name cat : string) :
  monthly_income (user_profile d) = of_Z i ->
  map amount (fixed_expenses d) = map of_Z fs ->
  map tx_amount (filter FinancialStateAgent.is_expense (transactions d)) = map of_Z vs ->
  0 <= i < 2 ^ 53 -> Forall (Z.le 0) fs -> Forall (Z.le 0) vs ->
  0 < c -> total fs + total vs + c < 2 ^ 53 ->
  exists r,
    PurchaseImpactAgent.analyze_purchase item_name (of_Z c) cat d = Ok r
    /\ (ImpactSimulator.status (PurchaseImpactAgent.assessment r) = "DANGER"%string
        <-> i - total fs - total vs < c)
    /\ ImpactSimulator.remaining_balance (PurchaseImpactAgent.assessment r)
       = of_Z (i - total fs - total vs - c)
    /\ FinancialStateAgent.free_cash_flow
         (FinancialStateAgent.get_todays_state
            (PurchaseImpactAgent.confirm_purchase now item_name (of_Z c) cat d))
       = ImpactSimulator.remaining_balance (PurchaseImpactAgent.assessment r).
Proof.
  intros Hi Hf Hv Bi Nf Nv Hc Hb.
  pose proof (total_not_negative fs Nf) as Tf.
  pose proof (total_not_negative vs Nv) as Tv.
  destruct (snapshot_whole d i fs vs Hi Hf Hv Bi Nf Nv ltac:(lia)) as (Ef & Ev & Efree).
  set (B := i - total fs - total vs) in *.
  assert (Eafter :
            FinancialStateAgent.free_cash_flow
              (FinancialStateAgent.get_todays_state
                 (PurchaseImpactAgent.confirm_purchase now item_name (of_Z c) cat d))
            = of_Z (B - c)).
  { unfold PurchaseImpactAgent.confirm_purchase, FinancialStateAgent.get_todays_state,
      FinancialStateAgent.log_transaction, log_transaction, get_transactions,
      FinancialStateAgent.get_profile, get_user_profile.
    cbn [FinancialStateAgent.free_cash_flow transactions user_profile].
    rewrite variable_spend_snoc. cbn [FinancialStateAgent.is_expense tx_type tx_amount].
    change (String.eqb "expense" "expense") with true. cbv iota.
    change (FinancialStateAgent.get_total_fixed_expenses
              {| user_profile := user_profile d;
                 fixed_expenses := fixed_expenses d;
                 transactions := _;
                 budget_plan := budget_plan d |})
      with (FinancialStateAgent.get_total_fixed_expenses d).
    rewrite Ef, Ev, Hi.
    rewrite add_of_Z by lia. rewrite sub_of_Z by lia. rewrite sub_of_Z by lia.
    f_equal. unfold B. lia. }
  unfold PurchaseImpactAgent.analyze_purchase.
  unfold FinancialStateAgent.get_todays_state at 1.
  cbn [FinancialStateAgent.free_cash_flow].
  unfold FinancialStateAgent.get_profile, get_user_profile, get_transactions.
  rewrite Efree.
  rewrite assess_transaction_outcome.
  rewrite sub_of_Z by lia.
  unfold of_Z at 1. rewrite binary_normalize_ltb_zero by lia.
  fold (of_Z (B - c)).
  destruct (Z.ltb_spec (B - c) 0) as [Hneg | Hpos].
  - eexists. split; [ reflexivity | ].
    cbn [PurchaseImpactAgent.assessment ImpactSimulator.status
         ImpactSimulator.remaining_balance].
    split; [ split; [ lia | reflexivity ] | ].
    split; [ reflexivity | exact Eafter ].
  - rewrite eqb_of_Z_zero by lia.
    eexists. split; [ reflexivity | ].
    cbn [PurchaseImpactAgent.assessment ImpactSimulator.status
         ImpactSimulator.remaining_balance].
    split; [ | split; [ reflexivity | exact Eafter ] ].
    split; [ | lia ].
    destruct (gtb (of_Z c) (mul (of_Z B) lit_0_5)); discriminate.
Qed.

End WholeAmounts.

Section Agents.
Import Binary64 Binary64Facts Binary64Rounding Binary64Sums.
Import StorageEngine Ledger.

Lemma snapshot_valid (d : data) :
  valid_amounts d ->
  valid (FinancialStateAgent.get_total_fixed_expenses d)
  /\ valid (FinancialStateAgent.free_cash_flow (FinancialStateAgent.get_todays_state d)).
Proof.
  intros (Vi & Vf & Vt).
  assert (V1 : valid (FinancialStateAgent.get_total_fixed_expenses d))
    by (apply sum_from_valid; [ exact Vf | reflexivity ]).
  split; [ exact V1 | ].
  unfold FinancialStateAgent.get_todays_state.
  cbn [FinancialStateAgent.free_cash_flow].
  apply sub_valid; [ apply sub_valid; [ exact Vi | exact V1 ] | ].
  rewrite variable_spend_filter.
  apply sum_from_valid; [ | reflexivity ].
  apply Forall_map_filter. exact Vt.
Qed.

Lemma report_of_assessment (item_name : string) (c : float) (cat : string) (d : data) :
  PurchaseImpactAgent.analyze_purchase item_name c cat d
  = match ImpactSimulator.assess_transaction
            (FinancialStateAgent.free_cash_flow (FinancialStateAgent.get_todays_state d))
            zero
            (FinancialStateAgent.savings_goal (FinancialStateAgent.get_todays_state d))
            c with
    | Raise e => Raise e
    | Ok a => Ok {| PurchaseImpactAgent.assessment := a;
                    PurchaseImpactAgent.item := item_name;
                    PurchaseImpactAgent.cost := c |}
    end.
Proof. reflexivity. Qed.

(** X13.  What the purchase agent reports against the free cash flow of the
    snapshot: the item and the cost as given, the free cash flow less the
    cost as remaining balance, DANGER exactly when the cost exceeds the free
    cash flow, and otherwise CAUTION or SAFE; it ends in [ZeroDivisionError]
    exactly when the free cash flow is a zero and the cost is not above
    zero. *)
Theorem analyze_purchase_report
    (item_name : string) (c : float) (cat : string) (d : data) :
  valid_amounts d -> valid c ->
  let free := FinancialStateAgent.free_cash_flow (FinancialStateAgent.get_todays_state d) in
  (PurchaseImpactAgent.analyze_purchase item_name c cat d = Raise ZeroDivisionError
   <-> eqb free zero = true /\ gtb c zero = false)
  /\ (forall r,
        PurchaseImpactAgent.analyze_purchase item_name c cat d = Ok r ->
        let a := PurchaseImpactAgent.assessment r in
        PurchaseImpactAgent.item r = item_name
        /\ PurchaseImpactAgent.cost r = c
        /\ ImpactSimulator.remaining_balance a = sub free c
        /\ (ImpactSimulator.status a = "DANGER"%string <-> gtb c free = true)
        /\ (ImpactSimulator.status a = "DANGER"%string
            \/ ImpactSimulator.status a = "CAUTION"%string
            \/ ImpactSimulator.status a = "SAFE"%string)).
Proof.
  intros Vd Vc free.
  destruct (snapshot_valid d Vd) as [_ Vfree]. fold free in Vfree.
  rewrite report_of_assessment. fold free. clearbody free.
  rewrite assess_transaction_outcome.
  rewrite (sub_ltb_zero free c Vfree Vc).
  change (gtb c free) with (ltb free c).
  destruct (ltb free c) eqn:Hlt.
  - split.
    + split; [ discriminate | ].
      intros [Hz Hc]. exfalso.
      destruct (eqb_zero_inv free Hz) as [s Es]. rewrite Es in Hlt.
      unfold gtb in Hc. destruct c as [ sc | sc | | sc m e ]; destruct s;
        try destruct sc; first [ discriminate Hlt | discriminate Hc ].
    + intros r Hr. injection Hr as <-. cbn.
      repeat split; auto.
  - destruct (eqb free zero) eqn:Hz.
    + split.
      * split; [ intros _; split; [ reflexivity | ] | reflexivity ].
        destruct (eqb_zero_inv free Hz) as [s Es]. rewrite Es in Hlt.
        unfold gtb. destruct c as [ sc | sc | | sc m e ]; destruct s;
          try destruct sc; try reflexivity; discriminate Hlt.
      * intros r Hr. discriminate Hr.
    + split.
      * split; [ discriminate | intros [H _]; discriminate H ].
      * intros r Hr. injection Hr as <-. cbn.
        destruct (gtb c (mul free lit_0_5));
          (split; [ reflexivity | ]); (split; [ reflexivity | ]);
          (split; [ reflexivity | ]);
          (split; [ split; intros H; discriminate H | ]); auto.
Qed.

(** X14.  The plan of the budget agent echoes the income and the total of
    the fixed expenses, is a deficit exactly when that total exceeds the
    income and a surplus otherwise, and does not depend on the transactions
    logged. *)
Theorem create_budget_plan_status (d : data) :
  valid_amounts d ->
  let b := BudgetPlanningAgent.create_budget_plan d in
  BudgetPlanningAgent.income b = monthly_income (user_profile d)
  /\ BudgetPlanningAgent.fixed_expenses b = FinancialStateAgent.get_total_fixed_expenses d
  /\ BudgetCalculator.status (BudgetPlanningAgent.plan_details b)
     = (if gtb (FinancialStateAgent.get_total_fixed_expenses d)
               (monthly_income (user_profile d))
        then "deficit" else "surplus")%string
  /\ (forall t, BudgetPlanningAgent.create_budget_plan (log_transaction t d) = b).
Proof.
  intros Vd. destruct (snapshot_valid d Vd) as [Vf _]. destruct Vd as (Vi & _ & _).
  cbv zeta. split; [ reflexivity | ]. split; [ reflexivity | ].
  split; [ | reflexivity ].
  unfold BudgetPlanningAgent.create_budget_plan.
  cbn [BudgetPlanningAgent.plan_details].
  unfold BudgetCalculator.calculate_remaining_after_fixed.
  unfold FinancialStateAgent.get_todays_state.
  cbn [FinancialStateAgent.income FinancialStateAgent.total_fixed_expenses].
  unfold FinancialStateAgent.get_profile, get_user_profile.
  rewrite (sub_ltb_zero _ _ Vi Vf). unfold gtb.
  destruct (ltb (monthly_income (user_profile d))
                (FinancialStateAgent.get_total_fixed_expenses d)); reflexivity.
Qed.

End Agents.

Section Calculator.
Import Binary64 Binary64Facts Binary64Rounding BudgetCalculator Ledger.

Lemma binary_round_aux_not_negative (m : positive) (e : Z) :
  ltb (binary_round_aux prec emax false (Z.pos m) e loc_Exact) zero = false.
Proof.
  destruct (binary_round_aux_spec false m e) as (m3 & k & _ & _ & _ & _ & ->).
  destruct m3 as [ | q | q ]; try reflexivity.
  destruct (e + k <=? 971); reflexivity.
Qed.

(** The product of two floats that are not below zero is not below
    zero. *)
Lemma mul_not_negative (x y : float) :
  ltb x zero = false -> ltb y zero = false -> ltb (mul x y) zero = false.
Proof.
  intros Hx Hy.
  destruct x as [ sx | sx | | sx mx ex ]; destruct y as [ sy | sy | | sy my ey ];
    try reflexivity;
    try (destruct sx; try discriminate Hx; destruct sy; try discriminate Hy; reflexivity).
  destruct sx; [ discriminate Hx | ]. destruct sy; [ discriminate Hy | ].
  unfold mul, SFmul. cbn [xorb]. apply binary_round_aux_not_negative.
Qed.

Lemma abs_not_negative (x : float) : ltb (abs x) zero = false.
Proof. destruct x as [ s | s | | s m e ]; reflexivity. Qed.

(** X2.  No amount of the plan is below zero, in the deficit as in the
    surplus, for every income, as long as the total of the fixed expenses is
    not below zero. *)
Theorem calculate_remaining_after_fixed_not_negative (income fixed_total : float) :
  ltb fixed_total zero = false ->
  let p := calculate_remaining_after_fixed income fixed_total in
  not_negative (discretionary p)
  /\ not_negative (needs_gap p)
  /\ not_negative (needs_total p)
  /\ not_negative (discretionary_total p)
  /\ not_negative (recommended_savings p)
  /\ not_negative (recommended_wants p).
Proof.
  intros Hf. cbv zeta. unfold calculate_remaining_after_fixed.
  destruct (ltb (sub income fixed_total) zero) eqn:Hd;
    cbn [discretionary needs_gap needs_total discretionary_total
         recommended_savings recommended_wants not_negative].
  - repeat split. apply abs_not_negative.
  - repeat split; try assumption; apply mul_not_negative; try assumption; reflexivity.
Qed.

(** 0.50, 0.30 and 0.20, as the floats that stand for them, add up
    to 1. *)
Lemma split_50_30_20 :
  (dyadic 4503599627370496 (-53) + dyadic 5404319552844595 (-54)
   + dyadic 7205759403792794 (-55) == 1)%Q.
Proof. reflexivity. Qed.

(** X3.  The three parts of the 50/30/20 split add up to the income but for
    the rounding of the three products: for an income that is not negative,
    at most one unit roundoff of the income and three least errors away;
    within 1e-9 for an income below 2^23. *)
Theorem calculate_50_30_20_sum (income : float) (q : Q) :
  ltb income zero = false -> to_Q income = Some q -> (q <= pow2Q 1000)%Q ->
  exists qn qw qs,
    to_Q (needs (calculate_50_30_20 income)) = Some qn
    /\ to_Q (wants (calculate_50_30_20 income)) = Some qw
    /\ to_Q (savings (calculate_50_30_20 income)) = Some qs
    /\ (Qabs (qn + qw + qs - q) <= q * unit_roundoff + 3 * least_error)%Q
    /\ ((q < 8388608)%Q -> (Qabs (qn + qw + qs - q) <= 1 # 1000000000)%Q).
Proof.
  intros Hsign Hq Hb.
  pose proof unit_roundoff_value as Hu. pose proof least_error_small as Heta.
  pose proof least_error_pos as Heta0.
  unfold calculate_50_30_20. cbn [needs wants savings].
  destruct income as [ s | s | | s md ed ]; try discriminate Hq.
  - injection Hq as <-.
    exists 0%Q, 0%Q, 0%Q.
    destruct s; (do 3 (split; [ reflexivity | ]));
      rewrite Hu; split; [ | intros _ | | intros _ ]; apply Qabs_Qle_condition; lra.
  - destruct s; [ discriminate Hsign | ].
    injection Hq as <-.
    cbn [cond_Zopp] in *. fold (dyadic (Z.pos md) ed) in *.
    set (qd := dyadic (Z.pos md) ed) in *.
    set (A := dyadic 4503599627370496 (-53)).
    set (B := dyadic 5404319552844595 (-54)).
    set (C := dyadic 7205759403792794 (-55)).
    assert (HA : (0 < A)%Q) by apply dyadic_pos.
    assert (HB : (0 < B)%Q) by apply dyadic_pos.
    assert (HC : (0 < C)%Q) by apply dyadic_pos.
    assert (HABC : (A + B + C == 1)%Q) by apply split_50_30_20.
    assert (Hqd : (0 < qd)%Q) by apply dyadic_pos.
    assert (H0 : (1 <= pow2Q 1000)%Q) by (apply (pow2Q_le 0 1000); lia).
    assert (H2 : (4 * pow2Q 1000 <= pow2Q 1023)%Q).
    { change 4%Q with (pow2Q 2). rewrite <- pow2Q_add. apply pow2Q_le. lia. }
    assert (Hed : ed < 1023).
    { apply (exponent_of_value md). fold qd. lra. }
    assert (Hsplit : (qd * A + qd * B + qd * C == qd)%Q).
    { rewrite <- !Qmult_plus_distr_r, HABC. ring. }
    destruct (mul_rel md 4503599627370496 ed (-53)) as (mn & en & Hn0 & Hn & Hnb).
    { lia. }
    { fold qd A. nra. }
    destruct (mul_rel md 5404319552844595 ed (-54)) as (mw & ew & Hw0 & Hw & Hwb).
    { lia. }
    { fold qd B. nra. }
    destruct (mul_rel md 7205759403792794 ed (-55)) as (ms & es & Hs0 & Hs & Hsb).
    { lia. }
    { fold qd C. nra. }
    fold qd A in Hnb. fold qd B in Hwb. fold qd C in Hsb. cbv zeta in Hnb, Hwb, Hsb.
    unfold lit_0_50, lit_0_5, lit_0_30, lit_0_20. rewrite Hn, Hw, Hs.
    set (XA := (qd * A)%Q) in *. set (XB := (qd * B)%Q) in *.
    set (XC := (qd * C)%Q) in *.
    rewrite Hu in Hnb, Hwb, Hsb.
    destruct (to_Q_nonneg_float mn en Hn0) as (qn & Hqn & Eqn).
    destruct (to_Q_nonneg_float mw ew Hw0) as (qw & Hqw & Eqw).
    destruct (to_Q_nonneg_float ms es Hs0) as (qs & Hqs & Eqs).
    exists qn, qw, qs.
    split; [ exact Hqn | ]. split; [ exact Hqw | ]. split; [ exact Hqs | ].
    rewrite <- Eqn in Hnb. rewrite <- Eqw in Hwb. rewrite <- Eqs in Hsb.
    rewrite Hu.
    split; [ | intros Hsmall ]; apply Qabs_Qle_condition; lra.
Qed.

End Calculator.

Section StoreRuns.
Import Binary64 StorageEngine Ledger.

Lemma named_after_add_same (n : string) (a : float) (d : data) :
  named n (add_fixed_expense n a d) = [ {| name := n; amount := a |} ].
Proof.
  unfold named, add_fixed_expense. cbn [fixed_expenses].
  rewrite filter_app, filter_named_differs. cbn [filter name app].
  rewrite String.eqb_refl. reflexivity.
Qed.

(** X4.  Storing an amount under a name a second time leaves the document
    that storing the second amount alone gives. *)
Theorem add_fixed_expense_overwrite (n : string) (a b : float) (d : data) :
  add_fixed_expense n b (add_fixed_expense n a d) = add_fixed_expense n b d.
Proof.
  unfold add_fixed_expense at 1 3. f_equal.
  rewrite others_after_add. reflexivity.
Qed.

(** X5.  Storing an expense leaves the entries of the other names as they
    were, in their order, and the rest of the document too. *)
Theorem add_fixed_expense_frame (n : string) (a : float) (d : data) :
  let d' := add_fixed_expense n a d in
  filter (name_differs n) (fixed_expenses d') = filter (name_differs n) (fixed_expenses d)
  /\ (forall m, m <> n -> named m d' = named m d)
  /\ user_profile d' = user_profile d
  /\ transactions d' = transactions d
  /\ budget_plan d' = budget_plan d.
Proof.
  cbv zeta. split; [ apply others_after_add | ].
  split; [ intros m Hm; apply named_after_add_other; exact Hm | ].
  repeat split.
Qed.

Lemma run_cons (r : FinancialStateAgent.request) (rs : list FinancialStateAgent.request)
    (d : data) :
  FinancialStateAgent.run (r :: rs) d
  = FinancialStateAgent.run rs (FinancialStateAgent.handle r d).
Proof. reflexivity. Qed.

Lemma written_cons (n : string) (r : FinancialStateAgent.request)
    (rs : list FinancialStateAgent.request) :
  written n (r :: rs) = written n [r] ++ written n rs.
Proof. unfold written. cbn [flat_map]. rewrite app_nil_r. reflexivity. Qed.

Lemma logged_cons (r : FinancialStateAgent.request)
    (rs : list FinancialStateAgent.request) :
  logged (r :: rs) = logged [r] ++ logged rs.
Proof. unfold logged. cbn [flat_map]. rewrite app_nil_r. reflexivity. Qed.

Lemma named_handle (n : string) (r : FinancialStateAgent.request) (d : data) :
  named n (FinancialStateAgent.handle r d)
  = match written n [r] with
    | a :: _ => [ {| name := n; amount := a |} ]
    | [] => named n d
    end.
Proof.
  destruct r as [ | i g | m a | | now item a cat | ]; try reflexivity.
  cbn [written flat_map FinancialStateAgent.handle].
  unfold FinancialStateAgent.add_fixed_expense.
  destruct (String.eqb m n) eqn:E; cbn [app].
  - apply String.eqb_eq in E. subst m. apply named_after_add_same.
  - apply named_after_add_other. apply String.eqb_neq in E. congruence.
Qed.

(** X6.  After any sequence of requests to the agent, the entry of a name is
    the one with the amount given last for it; a name that the requests
    never gave an amount for keeps the entries it had. *)
Theorem state_agent_last_amount
    (n : string) (rs : list FinancialStateAgent.request) (d : data) :
  named n (FinancialStateAgent.run rs d)
  = match rev (written n rs) with
    | a :: _ => [ {| name := n; amount := a |} ]
    | [] => named n d
    end.
Proof.
  revert d. induction rs as [ | r rs IH ]; intro d; [ reflexivity | ].
  rewrite run_cons, IH.
  rewrite (written_cons n r rs), rev_app_distr.
  destruct (rev (written n rs)) as [ | a l ]; [ | reflexivity ].
  cbn [app]. rewrite named_handle.
  destruct r as [ | i g | m a | | now item a cat | ]; try reflexivity.
  cbn [written flat_map]. destruct (String.eqb m n); reflexivity.
Qed.

Lemma transactions_handle (r : FinancialStateAgent.request) (d : data) :
  transactions (FinancialStateAgent.handle r d) = transactions d ++ logged [r].
Proof.
  destruct r; cbn [logged flat_map app]; try (rewrite app_nil_r); reflexivity.
Qed.

Lemma transactions_run (rs : list FinancialStateAgent.request) (d : data) :
  transactions (FinancialStateAgent.run rs d) = transactions d ++ logged rs.
Proof.
  revert d. induction rs as [ | r rs IH ]; intro d.
  - cbn. rewrite app_nil_r. reflexivity.
  - rewrite run_cons, IH, transactions_handle, (logged_cons r rs).
    rewrite app_assoc. reflexivity.
Qed.

(** X8.  The log only grows: after any sequence of requests to the agent the
    transactions are the ones there were, followed by one for each purchase
    logged, in the order of the requests and with the item, the cost and the
    category of the request. *)
Theorem state_agent_log_append_only
    (rs : list FinancialStateAgent.request) (d : data) :
  transactions (FinancialStateAgent.run rs d) = transactions d ++ logged rs
  /\ (List.length (transactions d)
      <= List.length (transactions (FinancialStateAgent.run rs d)))%nat.
Proof.
  rewrite transactions_run. split; [ reflexivity | ].
  rewrite length_app. lia.
Qed.

Lemma add_keeps_names_distinct (n : string) (a : float) (d : data) :
  NoDup (map name (fixed_expenses d)) ->
  NoDup (map name (fixed_expenses (add_fixed_expense n a d))).
Proof.
  intros Hnd. unfold add_fixed_expense. cbn [fixed_expenses].
  rewrite map_app. cbn [map name].
  apply NoDup_app.
  - apply names_after_removal. exact Hnd.
  - constructor; [ intros [] | constructor ].
  - intros x Hx [Hn | []]. subst x. exact (name_differs_absent n _ Hx).
Qed.

Lemma distinct_names_once (n : string) (l : list fixed_expense) :
  NoDup (map name l) ->
  (List.length (filter (fun e => String.eqb (name e) n) l) <= 1)%nat.
Proof.
  induction l as [ | e l IH ]; simpl; intros Hnd; [ lia | ].
  apply NoDup_cons_iff in Hnd. destruct Hnd as [Hfresh Hrest].
  specialize (IH Hrest).
  destruct (String.eqb (name e) n) eqn:E; [ | exact IH ].
  apply String.eqb_eq in E. simpl.
  assert (Hnone : filter (fun e0 => String.eqb (name e0) n) l = []).
  { destruct (filter (fun e0 => String.eqb (name e0) n) l) as [ | e' l' ] eqn:F;
      [ reflexivity | exfalso ].
    assert (Hin : In e' (filter (fun e0 => String.eqb (name e0) n) l))
      by (rewrite F; left; reflexivity).
    apply filter_In in Hin. destruct Hin as [Hin He'].
    apply String.eqb_eq in He'. apply Hfresh. rewrite E, <- He'.
    apply in_map. exact Hin. }
  rewrite Hnone. simpl. lia.
Qed.

(** X7.  No sequence of requests to the agent leaves two entries of one name
    among the fixed expenses, when there were none to begin with -- as on a
    new document. *)
Theorem state_agent_names_distinct
    (rs : list FinancialStateAgent.request) (d : data) :
  NoDup (map name (fixed_expenses d)) ->
  NoDup (map name (fixed_expenses (FinancialStateAgent.run rs d)))
  /\ (forall n, (List.length (named n (FinancialStateAgent.run rs d)) <= 1)%nat)
  /\ NoDup (map name (fixed_expenses (FinancialStateAgent.run rs (_initialize_db None)))).
Proof.
  assert (H : forall d0, NoDup (map name (fixed_expenses d0)) ->
                         NoDup (map name (fixed_expenses (FinancialStateAgent.run rs d0)))).
  { induction rs as [ | r rs IH ]; intros d0 Hnd; [ exact Hnd | ].
    rewrite run_cons. apply IH.
    destruct r; try exact Hnd. apply add_keeps_names_distinct. exact Hnd. }
  intros Hnd. split; [ apply H; exact Hnd | ].
  split; [ | apply H; constructor ].
  intros n. apply distinct_names_once. apply H. exact Hnd.
Qed.

Lemma handle_never_written (r : FinancialStateAgent.request) (d : data) :
  budget_plan (FinancialStateAgent.handle r d) = budget_plan d
  /\ currency (user_profile (FinancialStateAgent.handle r d))
     = currency (user_profile d).
Proof. destruct r; split; reflexivity. Qed.

(** X9.  No request to the agent writes the budget plan or the currency: a
    plan that was saved is read back as it was after any sequence of
    requests, and on a new document the plan read back is the empty one
    whatever was asked. *)
Theorem state_agent_never_writes_plan
    (rs : list FinancialStateAgent.request) (d : data) :
  get_budget_plan (FinancialStateAgent.run rs d) = get_budget_plan d
  /\ currency (get_user_profile (FinancialStateAgent.run rs d))
     = currency (get_user_profile d)
  /\ (forall p, get_budget_plan (FinancialStateAgent.run rs (save_budget_plan p d)) = p)
  /\ get_budget_plan (FinancialStateAgent.run rs (_initialize_db None)) = [].
Proof.
  assert (H : forall d,
             budget_plan (FinancialStateAgent.run rs d) = budget_plan d
             /\ currency (user_profile (FinancialStateAgent.run rs d))
                = currency (user_profile d)).
  { induction rs as [ | r rs IH ]; intro d0; [ split; reflexivity | ].
    rewrite run_cons. destruct (IH (FinancialStateAgent.handle r d0)) as [-> ->].
    apply handle_never_written. }
  unfold get_budget_plan, get_user_profile.
  split; [ apply H | ]. split; [ apply H | ].
  split; [ intros p | ]; rewrite (proj1 (H _)); reflexivity.
Qed.

End StoreRuns.

Section Reflection.
Import Binary64 StorageEngine Ledger.

(** X17.  The review says that there is no history exactly when the document
    has no transaction; once a purchase is confirmed it gives the number of
    transactions, the new one counted. *)
Theorem generate_monthly_review_counts (d : data) :
  (ReflectionAgent.generate_monthly_review d
   = "No transaction history to review yet."%string
   <-> transactions d = [])
  /\ (forall now item_name c cat,
        ReflectionAgent.generate_monthly_review
          (PurchaseImpactAgent.confirm_purchase now item_name c cat d)
        = ("I notice you have logged "
             ++ ReflectionAgent.str_int (S (List.length (transactions d)))
             ++ " transactions. Keep tracking to get better insights!")%string)
  /\ (forall rs,
        ReflectionAgent.generate_monthly_review
          (FinancialStateAgent.run rs (_initialize_db None))
        = match logged rs with
          | [] => "No transaction history to review yet."
          | _ :: _ =>
              ("I notice you have logged "
                 ++ ReflectionAgent.str_int (List.length (logged rs))
                 ++ " transactions. Keep tracking to get better insights!")
          end%string).
Proof.
  split; [ | split ].
  - unfold ReflectionAgent.generate_monthly_review, get_transactions.
    destruct (transactions d) as [ | t ts ].
    + split; reflexivity.
    + split; intros H; discriminate H.
  - intros now item_name c cat.
    unfold ReflectionAgent.generate_monthly_review, get_transactions,
      PurchaseImpactAgent.confirm_purchase, FinancialStateAgent.log_transaction,
      log_transaction.
    cbn [transactions].
    rewrite length_app, Nat.add_1_r.
    destruct (transactions d); reflexivity.
  - intros rs.
    unfold ReflectionAgent.generate_monthly_review, get_transactions.
    rewrite transactions_run. reflexivity.
Qed.

End Reflection.

Section Mentor.
Import Binary64 StorageEngine.

Variable format : float -> string -> string.
Variable hugging_face : string -> context -> string.

Lemma prefix_append (p s : string) : String.prefix p (p ++ s) = true.
Proof.
  induction p as [ | c p IH ]; simpl.
  - destruct s; reflexivity.
  - destruct (Ascii.ascii_dec c c) as [ _ | H ]; [ exact IH | contradiction ].
Qed.

Lemma report_status (item_name : string) (c : float) (cat : string) (d : data)
    (r : PurchaseImpactAgent.report) :
  PurchaseImpactAgent.analyze_purchase item_name c cat d = Ok r ->
  ImpactSimulator.status (PurchaseImpactAgent.assessment r) = "DANGER"%string
  \/ ImpactSimulator.status (PurchaseImpactAgent.assessment r) = "CAUTION"%string
  \/ ImpactSimulator.status (PurchaseImpactAgent.assessment r) = "SAFE"%string.
Proof.
  rewrite report_of_assessment, assess_transaction_outcome.
  destruct (ltb _ zero).
  - intros H. injection H as <-. left. reflexivity.
  - destruct (eqb _ zero); [ discriminate | ].
    intros H. injection H as <-. cbn.
    destruct (gtb c _); [ right; left | right; right ]; reflexivity.
Qed.

(** X18.  When HF_TOKEN is not set, or is empty, the advice about a purchase
    that the purchase agent analysed is the text of the mock provider for
    the status of the analysis, never the text for an unknown status, and is
    the same whatever the profile. *)
Theorem provide_advice_mock
    (hf_token : option string) (profile : StorageEngine.profile)
    (item_name : string) (c : float) (cat : string) (d : data)
    (r : PurchaseImpactAgent.report) :
  hf_token = None \/ hf_token = Some ""%string ->
  PurchaseImpactAgent.analyze_purchase item_name c cat d = Ok r ->
  let llm := LLMInterface.generate_response format hugging_face
               (LLMInterface._select_provider hf_token) in
  let advice := MentorReasoningAgent.provide_advice llm profile r in
  let status := ImpactSimulator.status (PurchaseImpactAgent.assessment r) in
  advice <> "I cannot assess this purchase without a valid risk status."%string
  /\ (status = "DANGER"%string ->
      String.prefix
        "🚫 **Mentor Advice**: I strongly advise against buying the **" advice = true)
  /\ (status = "CAUTION"%string ->
      String.prefix
        "⚠️ **Mentor Advice**: Proceed with caution regarding the **" advice = true)
  /\ (status = "SAFE"%string ->
      String.prefix "✅ **Mentor Advice**: This purchase of **" advice = true)
  /\ (forall profile', MentorReasoningAgent.provide_advice llm profile' r = advice).
Proof.
  intros Htoken Hr. cbv zeta.
  assert (Hp : LLMInterface._select_provider hf_token = LLMInterface.MockProvider)
    by (destruct Htoken as [-> | ->]; reflexivity).
  rewrite Hp.
  unfold MentorReasoningAgent.provide_advice, LLMInterface.generate_response,
    MockLLMProvider.generate_response.
  cbn [ctx_item ctx_cost ctx_status ctx_reason ctx_remaining_balance].
  destruct (report_status _ _ _ _ _ Hr) as [-> | [-> | ->]];
    cbn [String.eqb Ascii.eqb Bool.eqb andb];
    (split; [ intros H; discriminate H | ]);
    (split; [ intros H; first [ discriminate H | apply prefix_append ] | ]);
    (split; [ intros H; first [ discriminate H | apply prefix_append ] | ]);
    (split; [ intros H; first [ discriminate H | apply prefix_append ] | ]);
    reflexivity.
Qed.

End Mentor.

Section Application.
Import Binary64 Binary64Facts StorageEngine App Visits Ledger.

Variable llm : context -> string.

Lemma dashboard_view_of (d : data) :
  let income := monthly_income (user_profile d) in
  let fixed := FinancialStateAgent.get_total_fixed_expenses d in
  dashboard d
  = inr {| shown_income := income;
           shown_fixed_expenses := fixed;
           shown_free_cash_flow :=
             FinancialStateAgent.free_cash_flow (FinancialStateAgent.get_todays_state d);
           shown_recommendation :=
             if ltb (sub income fixed) zero then None
             else Some (mul (sub income fixed) lit_0_40,
                        mul (sub income fixed) lit_0_60) |}.
Proof.
  cbv zeta. unfold dashboard, BudgetPlanningAgent.create_budget_plan.
  cbn [BudgetPlanningAgent.plan_details].
  unfold BudgetCalculator.calculate_remaining_after_fixed.
  change (FinancialStateAgent.income (FinancialStateAgent.get_todays_state d))
    with (monthly_income (user_profile d)).
  change (FinancialStateAgent.total_fixed_expenses (FinancialStateAgent.get_todays_state d))
    with (FinancialStateAgent.get_total_fixed_expenses d).
  destruct (ltb (sub (monthly_income (user_profile d))
                     (FinancialStateAgent.get_total_fixed_expenses d)) zero);
    reflexivity.
Qed.

(** X19.  The dashboard never misses a key of the plan: it shows the income,
    the fixed expenses and the free cash flow of the snapshot, and the two
    recommended amounts, 0.40 and 0.60 of what the fixed expenses leave of
    the income, unless the fixed expenses exceed the income, when it shows
    the warning. *)
Theorem dashboard_shows (d : data) :
  valid_amounts d ->
  let income := monthly_income (user_profile d) in
  let fixed := FinancialStateAgent.get_total_fixed_expenses d in
  exists v,
    dashboard d = inr v
    /\ shown_income v = income
    /\ shown_fixed_expenses v = fixed
    /\ shown_free_cash_flow v
       = FinancialStateAgent.free_cash_flow (FinancialStateAgent.get_todays_state d)
    /\ shown_recommendation v
       = if gtb fixed income then None
         else Some (mul (sub income fixed) lit_0_40, mul (sub income fixed) lit_0_60).
Proof.
  intros Vd. cbv zeta. rewrite dashboard_view_of. cbv zeta.
  eexists. split; [ reflexivity | ].
  cbn [shown_income shown_fixed_expenses shown_free_cash_flow shown_recommendation].
  do 3 (split; [ reflexivity | ]).
  destruct (snapshot_valid d Vd) as [Vf _]. destruct Vd as (Vi & _ & _).
  rewrite (sub_ltb_zero _ _ Vi Vf). reflexivity.
Qed.

Lemma analyze_positive_cost (item_name : string) (c : float) (cat : string) (d : data) :
  gtb c zero = true ->
  exists r,
    PurchaseImpactAgent.analyze_purchase item_name c cat d = Ok r
    /\ PurchaseImpactAgent.cost r = c.
Proof.
  intros Hc. rewrite report_of_assessment, assess_transaction_outcome.
  destruct (ltb _ zero) eqn:Hlt; [ eexists; split; reflexivity | ].
  destruct (eqb _ zero) eqn:Hz; [ | eexists; split; reflexivity ].
  exfalso. destruct (eqb_zero_inv _ Hz) as [s Es].
  rewrite Es, sub_zero_ltb in Hlt. unfold gtb in Hc. congruence.
Qed.

Lemma script_no_button (d : data) (s : session_state) :
  session_ok s -> script llm NoButton d s = Done (d, s).
Proof.
  intros Hs. unfold script. rewrite dashboard_view_of. cbv zeta.
  destruct (analysis_done s) eqn:Ha; [ | reflexivity ].
  destruct (Hs Ha) as (r & advice & -> & -> & _). reflexivity.
Qed.

(** What one interaction does. *)
Lemma interact_step (b : button) (d : data) (s : session_state) :
  session_ok s ->
  exists d' s' l,
    interact llm b (d, s) = inr (d', s')
    /\ session_ok s'
    /\ transactions d' = transactions d ++ l
    /\ Forall purchase l
    /\ (List.length l + flag s' <= analyses [b] + flag s)%nat.
Proof.
  intros Hs. unfold interact. cbn [fst snd].
  destruct b as [ | income goal | n a | item_name item_cost category
                | now category | ].
  - rewrite (script_no_button d s Hs).
    exists d, s, []. rewrite app_nil_r. repeat split; auto; try (cbn; lia).
  - change (script llm (UpdateProfile income goal) d s)
      with (Rerun (FinancialStateAgent.update_profile income goal d, s)).
    cbv iota. cbn [fst snd]. rewrite (script_no_button _ s Hs).
    eexists _, s, []. rewrite app_nil_r. repeat split; auto; try (cbn; lia).
  - change (script llm (AddExpense n a) d s)
      with (Rerun (FinancialStateAgent.add_fixed_expense n a d, s)).
    cbv iota. cbn [fst snd]. rewrite (script_no_button _ s Hs).
    eexists _, s, []. rewrite app_nil_r. repeat split; auto; try (cbn; lia).
  - unfold script. rewrite dashboard_view_of. cbv zeta.
    unfold analyses. cbn [filter].
    destruct (gtb item_cost zero) eqn:Hc.
    + destruct (analyze_positive_cost item_name item_cost category d Hc)
        as (r & -> & Hr).
      cbn [analysis_done current_analysis current_advice].
      eexists d, _, []. rewrite app_nil_r.
      split; [ reflexivity | ].
      split; [ | split; [ reflexivity | split; [ constructor | ] ] ].
      * intros _. exists r. eexists. cbn. rewrite Hr. auto.
      * cbn. destruct (analysis_done s); cbn; lia.
    + destruct (analysis_done s) eqn:Ha.
      * destruct (Hs Ha) as (r & advice & -> & -> & _).
        exists d, s, []. rewrite app_nil_r. repeat split; auto; try (cbn; lia).
      * exists d, s, []. rewrite app_nil_r. repeat split; auto; try (cbn; lia).
  - unfold script at 1. rewrite dashboard_view_of. cbv zeta.
    destruct (analysis_done s) eqn:Ha.
    + destruct (Hs Ha) as (r & advice & -> & -> & Hr).
      cbv iota. cbn [fst snd].
      rewrite script_no_button by (intros H; discriminate H).
      eexists _, _, [ _ ].
      split; [ reflexivity | ].
      split; [ intros H; discriminate H | ].
      split; [ reflexivity | ].
      split; [ constructor; [ split; [ reflexivity | exact Hr ] | constructor ] | ].
      unfold flag. cbn. rewrite Ha. lia.
    + exists d, s, []. rewrite app_nil_r. repeat split; auto; try (cbn; lia).
  - unfold script at 1. rewrite dashboard_view_of. cbv zeta.
    destruct (analysis_done s) eqn:Ha.
    + destruct (Hs Ha) as (r & advice & -> & -> & Hr).
      cbv iota. cbn [fst snd].
      rewrite script_no_button by (intros H; discriminate H).
      eexists d, _, [].
      split; [ reflexivity | ].
      split; [ intros H; discriminate H | ].
      split; [ rewrite app_nil_r; reflexivity | ].
      split; [ constructor | ].
      unfold flag. cbn. lia.
    + exists d, s, []. rewrite app_nil_r. repeat split; auto; try (cbn; lia).
Qed.

Lemma analyses_cons (b : button) (bs : list button) :
  analyses (b :: bs) = (analyses [b] + analyses bs)%nat.
Proof.
  unfold analyses. cbn [filter].
  destruct b; try reflexivity. destruct (gtb item_cost zero); reflexivity.
Qed.

Lemma visit_steps (bs : list button) (d : data) (s : session_state) :
  session_ok s ->
  exists d' s' l,
    visit llm bs (d, s) = inr (d', s')
    /\ session_ok s'
    /\ transactions d' = transactions d ++ l
    /\ Forall purchase l
    /\ (List.length l + flag s' <= analyses bs + flag s)%nat.
Proof.
  revert d s. induction bs as [ | b bs IH ]; intros d s Hs.
  - exists d, s, []. rewrite app_nil_r. repeat split; auto.
  - cbn [visit].
    destruct (interact_step b d s Hs) as (d1 & s1 & l1 & -> & Hs1 & Ht1 & Hp1 & Hn1).
    destruct (IH d1 s1 Hs1) as (d2 & s2 & l2 & Hv & Hs2 & Ht2 & Hp2 & Hn2).
    exists d2, s2, (l1 ++ l2).
    split; [ exact Hv | ]. split; [ exact Hs2 | ].
    split; [ rewrite Ht2, Ht1, app_assoc; reflexivity | ].
    split; [ apply Forall_app; split; assumption | ].
    rewrite length_app, (analyses_cons b bs). lia.
Qed.

(** X20.  No run of the script ends in an exception of the model, whatever
    the document and the buttons pressed: the cost is above zero when the
    analysis runs, so no division by zero, and each key of the plan and of
    the session that is read is there. *)
Theorem visit_never_fails (bs : list button) (d : data) :
  exists st, visit llm bs (d, new_session) = inr st.
Proof.
  destruct (visit_steps bs d new_session) as (d' & s' & l & Hv & _).
  - intros H. discriminate H.
  - exists (d', s'). exact Hv.
Qed.

(** X21.  What a visit adds to the log: expenses of a cost above zero, after
    the transactions there were, and no more of them than analyses were
    asked for with a cost above zero. *)
Theorem visit_logs_analysed_purchases (bs : list button) (d d' : data)
    (s' : session_state) :
  visit llm bs (d, new_session) = inr (d', s') ->
  exists l,
    transactions d' = transactions d ++ l
    /\ Forall purchase l
    /\ (List.length l <= analyses bs)%nat.
Proof.
  intros Hv.
  destruct (visit_steps bs d new_session) as (d1 & s1 & l & Hv1 & _ & Ht & Hp & Hn).
  - intros H. discriminate H.
  - rewrite Hv in Hv1. injection Hv1 as <- <-.
    exists l. split; [ exact Ht | ]. split; [ exact Hp | ].
    cbn in Hn. lia.
Qed.






(** X23.  The side bar shows the five latest transactions, or all of them
    when there are fewer, in the order of the log; the purchase logged last
    is the last one shown. *)
Theorem recent_purchases_latest (d : data) :
  List.length (recent_purchases d) = Nat.min 5 (List.length (transactions d))
  /\ (exists older, transactions d = older ++ recent_purchases d)
  /\ (forall t, exists l, recent_purchases (log_transaction t d) = l ++ [t]).
Proof.
  unfold recent_purchases, get_transactions.
  split; [ rewrite length_skipn; lia | ].
  split.
  - exists (firstn (List.length (transactions d) - 5) (transactions d)).
    symmetry. apply firstn_skipn.
  - intros t. cbn [log_transaction transactions].
    rewrite length_app. cbn [List.length].
    exists (skipn (List.length (transactions d) + 1 - 5) (transactions d)).
    rewrite skipn_app.
    replace (List.length (transactions d) + 1 - 5 - List.length (transactions d))%nat
      with 0%nat by lia.
    reflexivity.
Qed.

End Application.

Module Binary64Located.
Import Binary64 Binary64Facts Binary64Rounding Binary64Whole Located.

Lemma shifted_w_loc (N D q r : Z) :
  0 <= q -> 0 <= r < D -> N = q * D + r ->
  shifted_w N D (shr_record_of_loc q (new_location D r)).
Proof.
  intros Hq Hr HN.
  assert (Hrem : N - q * D = r) by lia.
  unfold new_location, new_location_even, new_location_odd.
  destruct (Z.even D) eqn:Hev.
  - destruct (Z.eqb_spec r 0) as [-> | Hr0].
    + split; cbn; [ exact Hq | lia ].
    + destruct (Z.compare_spec (2 * r) D) as [Hc | Hc | Hc];
        split; cbn [shr_record_of_loc shr_m shr_r shr_s rem_class_w];
        try exact Hq; rewrite Hrem; lia.
  - assert (Hodd : Z.odd D = true) by (rewrite <- Z.negb_even, Hev; reflexivity).
    apply Z.odd_spec in Hodd. destruct Hodd as [h Hh].
    destruct (Z.eqb_spec r 0) as [-> | Hr0].
    + split; cbn; [ exact Hq | lia ].
    + destruct (Z.compare_spec (2 * r + 1) D) as [Hc | Hc | Hc];
        split; cbn [shr_record_of_loc shr_m shr_r shr_s rem_class_w];
        try exact Hq; rewrite Hrem; lia.
Qed.

Lemma shifted_w_exact (m : Z) :
  0 <= m -> shifted_w m 1 (shr_record_of_loc m loc_Exact).
Proof. intros Hm. split; cbn; lia. Qed.

Lemma shifted_w_shr_1 (N W : Z) (mrs : shr_record) :
  0 < W -> shifted_w N W mrs -> shifted_w N (2 * W) (shr_1 mrs).
Proof.
  intros HW [Hpos Hcl].
  destruct mrs as [m' r s].
  destruct m' as [ | [ q | q | ] | q ]; destruct r, s;
    unfold shifted_w, rem_class_w in *;
    cbn [shr_1 shr_m shr_r shr_s orb] in *;
    split; try lia; nia.
Qed.

Lemma shifted_w_iter (N W : Z) (p : positive) (mrs : shr_record) :
  0 < W -> shifted_w N W mrs ->
  shifted_w N (W * 2 ^ Z.pos p) (iter_pos shr_1 p mrs).
Proof.
  intros HW H. rewrite iter_pos_iter.
  induction p as [ | p IH ] using Pos.peano_ind.
  - cbn [Pos.iter]. change (2 ^ 1) with 2. rewrite Z.mul_comm.
    apply shifted_w_shr_1; assumption.
  - rewrite Pos.iter_succ, Pos2Z.inj_succ, Z.pow_succ_r by lia.
    replace (W * (2 * 2 ^ Z.pos p)) with (2 * (W * 2 ^ Z.pos p)) by lia.
    apply shifted_w_shr_1; [ | exact IH ].
    assert (0 < 2 ^ Z.pos p) by (apply Z.pow_pos_nonneg; lia). nia.
Qed.

Lemma shifted_w_bounds (N W : Z) (mrs : shr_record) :
  0 < W -> shifted_w N W mrs ->
  shr_m mrs * W <= N < (shr_m mrs + 1) * W.
Proof.
  intros HW [Hpos Hcl].
  destruct mrs as [m' r s]. cbn [shr_m shr_r shr_s] in *.
  destruct r, s; unfold rem_class_w in Hcl; nia.
Qed.

(** Rounding to nearest, ties to even: at most half of [W] away from
    [N], exact when there is no remainder, and even on a tie. *)
Lemma round_w (N W : Z) (mrs : shr_record) :
  0 < W -> shifted_w N W mrs ->
  let m2 := round_nearest_even (shr_m mrs) (loc_of_shr_record mrs) in
  shr_m mrs <= m2 <= shr_m mrs + 1
  /\ 2 * Z.abs (m2 * W - N) <= W
  /\ (2 * Z.abs (m2 * W - N) = W -> Z.even m2 = true).
Proof.
  intros HW [Hpos Hcl].
  destruct mrs as [m' r s]. cbn [shr_m shr_r shr_s] in Hpos, Hcl.
  destruct r, s; unfold rem_class_w in Hcl;
    cbn [shr_m loc_of_shr_record round_nearest_even].
  - split; [ lia | ]. split; [ nia | ]. intros Ht. exfalso. nia.
  - destruct (Z.even m') eqn:Hev.
    + split; [ lia | ]. split; [ nia | ]. intros _. exact Hev.
    + split; [ lia | ]. split; [ nia | ]. intros _.
      rewrite Z.even_add, Hev. reflexivity.
  - split; [ lia | ]. split; [ nia | ]. intros Ht. exfalso. nia.
  - split; [ lia | ]. split; [ nia | ]. intros Ht. exfalso. nia.
Qed.

(** The second shift of [binary_round_aux]: it moves the rounded
    mantissa by one place when the rounding made it [2^53], and by none
    otherwise. *)
Lemma round_finish (sx : bool) (m1 m2 e' : Z) :
  0 <= m1 -> m1 <= m2 <= m1 + 1 -> m1 < 2 ^ 53 ->
  (-1074 < e' -> 2 ^ 52 <= m1) -> -1074 <= e' ->
  exists m3 j,
    0 <= j <= 1 /\ m3 * 2 ^ j = m2 /\ 0 <= m3
    /\ (m3 = 0 \/ canonical m3 (e' + j))
    /\ (let '(mrs'', e'') := shr_fexp prec emax m2 e' loc_Exact in
        match shr_m mrs'' with
        | Z0 => S754_zero sx
        | Zpos m => if e'' <=? emax - prec then S754_finite sx m e''
                    else S754_infinity sx
        | Zneg _ => S754_nan
        end) = float_of sx m3 (e' + j).
Proof.
  intros Hm1 Hm2 Hlt Hnorm He'.
  unfold shr_fexp, float_of, canonical. change (emax - prec) with 971.
  destruct m2 as [ | q | q ] eqn:Eq2; [ | | lia ].
  - cbn [Zdigits2]. rewrite fexp_eq.
    destruct (Z.max (0 + e' - 53) (-1074) - e') as [ | p' | p' ] eqn:Hn';
      try lia; cbn [shr shr_record_of_loc shr_m]; exists 0, 0;
      repeat split; try lia; left; reflexivity.
  - destruct (Z.eq_dec (Z.pos q) (2 ^ 53)) as [Heq | Hne].
    + change (2 ^ 53) with (Z.pos 9007199254740992) in Heq.
      injection Heq as ->.
      change (Zdigits2 (Z.pos 9007199254740992)) with 54.
      rewrite fexp_eq.
      replace (Z.max (54 + e' - 53) (-1074) - e') with 1 by lia.
      cbn [shr iter_pos shr_1 shr_record_of_loc shr_m orb].
      exists (Z.pos 4503599627370496), 1.
      change (Zdigits2 (Z.pos 4503599627370496)) with 53.
      rewrite fexp_eq.
      split; [ lia | ]. split; [ reflexivity | ]. split; [ lia | ].
      split; [ right; split; lia | reflexivity ].
    + assert (Hq : Z.pos q < 2 ^ 53) by lia.
      pose proof (digits_bounds q) as [Hqlo Hqhi].
      assert (Hdq : Z.pos (digits2_pos q) <= 53).
      { destruct (Z_le_gt_dec (Z.pos (digits2_pos q)) 53) as [ | Hgt ]; [ assumption | ].
        exfalso.
        assert (2 ^ 53 <= 2 ^ (Z.pos (digits2_pos q) - 1))
          by (apply Z.pow_le_mono_r; lia).
        lia. }
      assert (Hcan : -1074 < e' -> Z.pos (digits2_pos q) = 53).
      { intros Hgt. specialize (Hnorm Hgt).
        destruct (Z_le_gt_dec 53 (Z.pos (digits2_pos q))) as [ | Hl ]; [ lia | ].
        exfalso.
        assert (2 ^ Z.pos (digits2_pos q) <= 2 ^ 52)
          by (apply Z.pow_le_mono_r; lia).
        lia. }
      cbn [Zdigits2]. rewrite !fexp_eq.
      destruct (Z.max (Z.pos (digits2_pos q) + e' - 53) (-1074) - e')
        as [ | p' | p' ] eqn:Hn'; try lia;
        cbn [shr shr_record_of_loc shr_m];
        exists (Z.pos q), 0; rewrite Z.add_0_r, Z.pow_0_r, Z.mul_1_r;
        cbn [Zdigits2]; rewrite ?fexp_eq;
        (split; [ lia | ]); (split; [ reflexivity | ]); (split; [ lia | ]);
        (split; [ right; split; lia | reflexivity ]).
Qed.

Lemma shr_m_of_loc (m : Z) (l : location) : shr_m (shr_record_of_loc m l) = m.
Proof. destruct l as [ | [ | | ] ]; reflexivity. Qed.

Lemma Zdigits2_bounds (m : Z) :
  0 <= m ->
  m < 2 ^ Zdigits2 m
  /\ (0 < m -> 2 ^ (Zdigits2 m - 1) <= m /\ 1 <= Zdigits2 m)
  /\ 0 <= Zdigits2 m.
Proof.
  intros Hm. destruct m as [ | q | q ]; [ cbn; lia | | lia ].
  cbn [Zdigits2]. pose proof (digits_bounds q). lia.
Qed.

(** What [binary_round_aux] computes from a mantissa [mx] and a
    location that stand for the quotient of [N] by [D], in units of
    [2^ex]: a mantissa [m3] at the exponent [ex + k], at most half a
    step of the format away, even on a tie, and written as the format
    writes it. *)
Lemma binary_round_aux_located (sx : bool) (N D mx ex : Z) (lx : location) :
  0 <= mx -> 0 < D -> shifted_w N D (shr_record_of_loc mx lx) ->
  ex <= fexp prec emax (Zdigits2 mx + ex) ->
  let n := fexp prec emax (Zdigits2 mx + ex) - ex in
  exists m3 k,
    0 <= m3 /\ n <= k <= n + 1
    /\ 2 * Z.abs (m3 * 2 ^ k * D - N) <= 2 ^ n * D
    /\ (2 * Z.abs (m3 * 2 ^ k * D - N) = 2 ^ n * D -> Z.even (m3 * 2 ^ (k - n)) = true)
    /\ (m3 = 0 \/ canonical m3 (ex + k))
    /\ binary_round_aux prec emax sx mx ex lx = float_of sx m3 (ex + k).
Proof.
  intros Hmx HD Hloc Hfe n.
  pose proof (Zdigits2_bounds mx Hmx) as (Hhi & Hlo & Hd0).
  pose proof (shifted_w_bounds N D _ HD Hloc) as Hq. rewrite shr_m_of_loc in Hq.
  unfold binary_round_aux. unfold shr_fexp at 1.
  revert Hfe. subst n. rewrite fexp_eq.
  set (d := Zdigits2 mx) in *. intros Hfe.
  destruct (Z.max (d + ex - 53) (-1074) - ex) as [ | p | p ] eqn:Hn; [ | | lia ].
  - cbn [shr].
    pose proof (round_w N D _ HD Hloc) as (Hm2 & Herr & Heven).
    rewrite shr_m_of_loc in Hm2, Herr, Heven |- *.
    set (m2 := round_nearest_even mx (loc_of_shr_record (shr_record_of_loc mx lx))) in *.
    assert (Hd53 : d <= 53) by lia.
    assert (Hlt : mx < 2 ^ 53).
    { assert (2 ^ d <= 2 ^ 53) by (apply Z.pow_le_mono_r; lia). lia. }
    assert (Hnorm : -1074 < ex -> 2 ^ 52 <= mx).
    { intros Hgt. assert (Hd : d = 53) by lia.
      destruct (Z.eq_dec mx 0) as [-> | Hne]; [ discriminate Hd | ].
      rewrite Hd in Hlo. apply Hlo. lia. }
    destruct (round_finish sx mx m2 ex Hmx Hm2 Hlt Hnorm ltac:(lia))
      as (m3 & j & Hj & Hm3 & Hm30 & Hcan & ->).
    exists m3, j. rewrite Z.pow_0_r, Z.sub_0_r, Hm3, Z.mul_1_l.
    repeat split; try lia; assumption.
  - cbn [shr].
    assert (Hp : 0 < 2 ^ Z.pos p) by (apply Z.pow_pos_nonneg; lia).
    assert (HW : 0 < D * 2 ^ Z.pos p) by nia.
    pose proof (shifted_w_iter N D p _ HD Hloc) as Hsh.
    set (mrs' := iter_pos shr_1 p (shr_record_of_loc mx lx)) in *.
    pose proof (round_w N _ mrs' HW Hsh) as (Hm2 & Herr & Heven).
    pose proof (shifted_w_bounds N _ mrs' HW Hsh) as Hquo.
    destruct Hsh as [Hm1 _].
    set (m2 := round_nearest_even (shr_m mrs') (loc_of_shr_record mrs')) in *.
    assert (Hd : 2 ^ d <= 2 ^ Z.pos p * 2 ^ 53).
    { rewrite <- Z.pow_add_r by lia. apply Z.pow_le_mono_r; lia. }
    assert (Hlt : shr_m mrs' < 2 ^ 53) by nia.
    assert (Hnorm : -1074 < ex + Z.pos p -> 2 ^ 52 <= shr_m mrs').
    { intros Hgt. assert (Hpd : Z.pos p = d - 53) by lia.
      assert (Hmx0 : 0 < mx).
      { destruct (Z.eq_dec mx 0) as [E0 | ]; [ | lia ].
        exfalso. unfold d in Hpd. rewrite E0 in Hpd. cbn in Hpd. lia. }
      specialize (Hlo Hmx0).
      assert (Hd1 : 2 ^ (d - 1) = 2 ^ 52 * 2 ^ Z.pos p).
      { rewrite <- Z.pow_add_r by lia. f_equal. lia. }
      nia. }
    destruct (round_finish sx (shr_m mrs') m2 (ex + Z.pos p) Hm1 Hm2 Hlt Hnorm ltac:(lia))
      as (m3 & j & Hj & Hm3 & Hm30 & Hcan & ->).
    exists m3, (Z.pos p + j).
    replace (ex + (Z.pos p + j)) with (ex + Z.pos p + j) by lia.
    replace (Z.pos p + j - Z.pos p) with j by lia.
    rewrite Z.pow_add_r by lia.
    replace (m3 * (2 ^ Z.pos p * 2 ^ j) * D) with (m3 * 2 ^ j * (D * 2 ^ Z.pos p)) by ring.
    replace (2 ^ Z.pos p * D) with (D * 2 ^ Z.pos p) by ring.
    rewrite Hm3.
    repeat split; try lia; assumption.
Qed.

Lemma dyadic_le_iff (a b e : Z) : (dyadic a e <= dyadic b e)%Q <-> a <= b.
Proof.
  unfold dyadic. pose proof (pow2Q_pos e) as He.
  rewrite Zle_Qle. split; intros H.
  - apply Qmult_le_r in H; assumption.
  - apply Qmult_le_r; assumption.
Qed.

Lemma quotient_le_dyadic (N D B e : Z) :
  0 < D -> (quotient N D e <= dyadic B e)%Q <-> N <= B * D.
Proof.
  intros HD. unfold quotient, dyadic. pose proof (pow2Q_pos e) as He.
  assert (HDq : (0 < inject_Z D)%Q) by (rewrite <- (Zlt_Qlt 0); exact HD).
  rewrite Zle_Qle, inject_Z_mult. split; intros H.
  - apply Qmult_le_r in H; [ | exact He ].
    apply (Qmult_le_compat_r _ _ (inject_Z D)) in H; [ | lra ].
    field_simplify in H; lra.
  - apply Qmult_le_r; [ exact He | ].
    apply Qle_shift_div_r; assumption.
Qed.

Lemma dyadic_le_quotient (N D B e : Z) :
  0 < D -> (dyadic B e <= quotient N D e)%Q <-> B * D <= N.
Proof.
  intros HD. unfold quotient, dyadic. pose proof (pow2Q_pos e) as He.
  assert (HDq : (0 < inject_Z D)%Q) by (rewrite <- (Zlt_Qlt 0); exact HD).
  rewrite Zle_Qle, inject_Z_mult. split; intros H.
  - apply Qmult_le_r in H; [ | exact He ].
    apply (Qmult_le_compat_r _ _ (inject_Z D)) in H; [ | lra ].
    field_simplify in H; lra.
  - apply Qmult_le_r; [ exact He | ].
    apply Qle_shift_div_l; assumption.
Qed.

Lemma fexp_mono (a b : Z) : a <= b -> fexp prec emax a <= fexp prec emax b.
Proof. intros H. rewrite !fexp_eq. lia. Qed.

Lemma nearest_even_of_Z (N P R : Z) :
  0 < P -> 2 * Z.abs (R * P - N) <= P ->
  (2 * Z.abs (R * P - N) = P -> Z.even R = true) ->
  (Qabs (inject_Z R - inject_Z N / inject_Z P) <= 1 # 2)%Q
  /\ ((Qabs (inject_Z R - inject_Z N / inject_Z P) == 1 # 2)%Q -> Z.even R = true).
Proof.
  intros HP Herr Heven.
  assert (HPq : (0 < inject_Z P)%Q) by (rewrite <- (Zlt_Qlt 0); exact HP).
  assert (E : (inject_Z R - inject_Z N / inject_Z P
               == inject_Z (R * P - N) / inject_Z P)%Q).
  { unfold Z.sub. rewrite inject_Z_plus, inject_Z_opp, inject_Z_mult. field. lra. }
  rewrite E.
  assert (H1 : (inject_Z (2 * (R * P - N)) <= inject_Z P)%Q) by (rewrite <- Zle_Qle; lia).
  assert (H2 : (inject_Z (- P) <= inject_Z (2 * (R * P - N)))%Q) by (rewrite <- Zle_Qle; lia).
  rewrite inject_Z_mult in H1, H2. rewrite inject_Z_opp in H2.
  change (inject_Z 2) with 2%Q in H1, H2.
  set (a := inject_Z (R * P - N)) in *.
  split.
  - apply Qabs_Qle_condition. split.
    + apply Qle_shift_div_l; [ exact HPq | lra ].
    + apply Qle_shift_div_r; [ exact HPq | lra ].
  - intros Habs. apply Heven.
    assert (Ha : (a == a / inject_Z P * inject_Z P)%Q) by (field; lra).
    destruct (Z_le_gt_dec 0 (R * P - N)) as [Hs | Hs].
    + assert (H0 : (0 <= a / inject_Z P)%Q).
      { apply Qle_shift_div_l; [ exact HPq | ].
        unfold a. rewrite Qmult_0_l, <- (Zle_Qle 0). exact Hs. }
      rewrite (Qabs_pos _ H0) in Habs. rewrite Habs in Ha.
      assert (Hz : (inject_Z (2 * (R * P - N)) == inject_Z P)%Q).
      { rewrite inject_Z_mult. change (inject_Z 2) with 2%Q. fold a. lra. }
      apply (proj1 (inject_Z_injective _ _)) in Hz. lia.
    + assert (H0 : (a / inject_Z P <= 0)%Q).
      { apply Qle_shift_div_r; [ exact HPq | ].
        unfold a. rewrite Qmult_0_l, <- (Zle_Qle _ 0). lia. }
      rewrite (Qabs_neg _ H0) in Habs.
      assert (Ha' : (a == - (1 # 2) * inject_Z P)%Q).
      { rewrite Ha at 1. rewrite <- Habs. ring. }
      assert (Hz : (inject_Z (2 * (R * P - N)) == inject_Z (- P))%Q).
      { rewrite inject_Z_mult, inject_Z_opp. change (inject_Z 2) with 2%Q. fold a. lra. }
      apply (proj1 (inject_Z_injective _ _)) in Hz. lia.
Qed.

(** Rounding crosses no multiple of the step. *)
Lemma round_separated (N P R Y : Z) :
  0 < P -> 2 * Z.abs (R * P - N) <= P ->
  (N <= Y * P -> R <= Y) /\ (Y * P <= N -> Y <= R).
Proof. intros HP Herr. split; intros H; nia. Qed.

(** Hence [binary_round_aux] gives a faithful rounding of the quotient
    that its arguments stand for. *)
Lemma binary_round_aux_rounds (sx : bool) (N D mx ex : Z) (lx : location) :
  0 <= mx -> 0 < D -> shifted_w N D (shr_record_of_loc mx lx) ->
  ex <= fexp prec emax (Zdigits2 mx + ex) ->
  exists m3 e3,
    binary_round_aux prec emax sx mx ex lx = float_of sx m3 e3
    /\ faithful (quotient N D ex) m3 e3
    /\ (0 < mx -> rounds (quotient N D ex) (dyadic m3 e3)).
Proof.
  intros Hmx HD Hloc Hfe.
  destruct (binary_round_aux_located sx N D mx ex lx Hmx HD Hloc Hfe)
    as (m3 & k & Hm3 & Hk & Herr & Heven & Hcan & Hr).
  pose proof (Zdigits2_bounds mx Hmx) as (Hhi & Hlo & Hd0).
  pose proof (shifted_w_bounds N D _ HD Hloc) as Hq. rewrite shr_m_of_loc in Hq.
  assert (Hz : mx = 0 -> fexp prec emax (Zdigits2 mx + ex) = -1074).
  { intros E0. rewrite E0 in Hfe |- *. cbn [Zdigits2] in Hfe |- *.
    rewrite fexp_eq in Hfe |- *. lia. }
  set (fe := fexp prec emax (Zdigits2 mx + ex)) in *.
  set (n := fe - ex) in *.
  exists m3, (ex + k). split; [ exact Hr | ].
  assert (Hpn : 0 < 2 ^ n) by (apply Z.pow_pos_nonneg; lia).
  assert (Herr' : 2 * Z.abs (m3 * 2 ^ (k - n) * (2 ^ n * D) - N) <= 2 ^ n * D).
  { replace (m3 * 2 ^ (k - n) * (2 ^ n * D)) with (m3 * (2 ^ (k - n) * 2 ^ n) * D) by ring.
    rewrite <- Z.pow_add_r by lia. replace (k - n + n) with k by lia. exact Herr. }
  split; [ | intros Hmx0; specialize (Hlo Hmx0); destruct Hlo as [Hlo1 Hlo2];
             exists (Zdigits2 mx + ex), (m3 * 2 ^ (k - n)); fold fe;
             split; [ | split ] ].
  2:{ (* the binade of the quotient *)
      split.
      - apply (Qle_trans _ (dyadic mx ex)).
        + replace (Zdigits2 mx + ex - 1) with (Zdigits2 mx - 1 + ex) by lia.
          assert (E1 : (pow2Q (Zdigits2 mx - 1 + ex) == dyadic (2 ^ (Zdigits2 mx - 1)) ex)%Q).
          { unfold dyadic. rewrite pow2Q_Z by lia. apply pow2Q_add. }
          rewrite E1. apply (dyadic_le_iff _ _ ex). exact Hlo1.
        + apply dyadic_le_quotient; [ exact HD | lia ].
      - assert (E1 : (pow2Q (Zdigits2 mx + ex) == dyadic (2 ^ Zdigits2 mx) ex)%Q).
        { unfold dyadic. rewrite pow2Q_Z by lia. apply pow2Q_add. }
        rewrite E1. apply Qnot_le_lt. intros H.
        apply dyadic_le_quotient in H; [ | exact HD ]. nia. }
  2:{ (* the nearest multiple of the step *)
      assert (Et : (quotient N D ex / pow2Q fe == inject_Z N / inject_Z (2 ^ n * D))%Q).
      { unfold quotient. replace fe with (ex + n) by (unfold n; lia).
        rewrite pow2Q_add, inject_Z_mult, (pow2Q_Z n) by lia.
        pose proof (pow2Q_pos ex). pose proof (pow2Q_pos n).
        assert ((0 < inject_Z D)%Q) by (rewrite <- (Zlt_Qlt 0); exact HD).
        field. repeat split; lra. }
      unfold nearest_even. rewrite Et.
      apply nearest_even_of_Z; [ nia | exact Herr' | ].
      intros E. apply Heven.
      replace (m3 * 2 ^ k * D) with (m3 * 2 ^ (k - n) * (2 ^ n * D)); [ exact E | ].
      replace (m3 * 2 ^ (k - n) * (2 ^ n * D)) with (m3 * (2 ^ (k - n) * 2 ^ n) * D) by ring.
      rewrite <- Z.pow_add_r by lia. replace (k - n + n) with k by lia. reflexivity. }
  2:{ rewrite <- dyadic_shift by lia. replace (fe + (k - n)) with (ex + k) by (unfold n; lia).
      reflexivity. }
  split; [ exact Hm3 | ]. split; [ exact Hcan | ].
  intros M E [HM HE].
  assert (Hgrid : fe <= E \/ (dyadic M E < quotient N D ex)%Q).
  { destruct (Z_le_gt_dec fe E) as [ | Hlt ]; [ left; assumption | right ].
    assert (HK : Zdigits2 M + E < Zdigits2 mx + ex).
    { destruct (Z_lt_le_dec (Zdigits2 M + E) (Zdigits2 mx + ex)) as [ | Hge ];
        [ assumption | ].
      apply fexp_mono in Hge. fold fe in Hge. lia. }
    assert (Hmx0 : 0 < mx).
    { destruct (Z.eq_dec mx 0) as [E0 | ]; [ | lia ]. exfalso.
      specialize (Hz E0). rewrite fexp_eq in HE. lia. }
    specialize (Hlo Hmx0).
    destruct M as [ | Mp | Mp ]; try lia. cbn [Zdigits2] in HK.
    pose proof (dyadic_digits_lt Mp E) as HY.
    assert (Hx : (pow2Q (Zdigits2 mx + ex - 1) <= quotient N D ex)%Q).
    { apply (Qle_trans _ (dyadic mx ex)).
      - replace (Zdigits2 mx + ex - 1) with (Zdigits2 mx - 1 + ex) by lia.
        assert (E1 : (pow2Q (Zdigits2 mx - 1 + ex) == dyadic (2 ^ (Zdigits2 mx - 1)) ex)%Q).
        { unfold dyadic. rewrite pow2Q_Z by lia. apply pow2Q_add. }
        rewrite E1. apply (dyadic_le_iff _ _ ex). exact (proj1 Hlo).
      - apply dyadic_le_quotient; [ exact HD | lia ]. }
    assert (Hpw : (pow2Q (Z.pos (digits2_pos Mp) + E) <= pow2Q (Zdigits2 mx + ex - 1))%Q)
      by (apply pow2Q_le; lia).
    lra. }
  assert (Hsame : fe <= E ->
            ((quotient N D ex <= dyadic M E)%Q -> (dyadic m3 (ex + k) <= dyadic M E)%Q)
            /\ ((dyadic M E <= quotient N D ex)%Q -> (dyadic M E <= dyadic m3 (ex + k))%Q)).
  { intros HfE.
    assert (HpE : 0 < 2 ^ (E - fe)) by (apply Z.pow_pos_nonneg; lia).
    assert (Hpk : 0 < 2 ^ (k - n)) by (apply Z.pow_pos_nonneg; lia).
    assert (EY : (dyadic M E == dyadic (M * 2 ^ (E - fe) * 2 ^ n) ex)%Q).
    { rewrite <- Z.mul_assoc, <- Z.pow_add_r by lia.
      rewrite <- dyadic_shift by lia. replace (ex + (E - fe + n)) with E by lia.
      reflexivity. }
    assert (ER : (dyadic m3 (ex + k) == dyadic (m3 * 2 ^ (k - n) * 2 ^ n) ex)%Q).
    { rewrite <- Z.mul_assoc, <- Z.pow_add_r by lia.
      rewrite <- dyadic_shift by lia. replace (k - n + n) with k by lia.
      reflexivity. }
    rewrite EY, ER.
    rewrite quotient_le_dyadic, dyadic_le_quotient, !dyadic_le_iff by exact HD.
    destruct (round_separated N (2 ^ n * D) (m3 * 2 ^ (k - n)) (M * 2 ^ (E - fe))
                ltac:(nia) Herr') as [H1 H2].
    split; intros H.
    - assert (m3 * 2 ^ (k - n) <= M * 2 ^ (E - fe)) by (apply H1; nia). nia.
    - assert (M * 2 ^ (E - fe) <= m3 * 2 ^ (k - n)) by (apply H2; nia). nia. }
  destruct Hgrid as [HfE | Hlt]; [ exact (Hsame HfE) | ].
  split; intros H; [ lra | ].
  (* a number of the format below the grid of x is below the rounded x *)
  destruct (Z_le_gt_dec fe E) as [ HfE | HEf ]; [ apply (Hsame HfE); exact H | ].
  assert (Hmx0 : 0 < mx).
  { destruct (Z.eq_dec mx 0) as [E0 | ]; [ | lia ]. exfalso.
    specialize (Hz E0). rewrite fexp_eq in HE. lia. }
  specialize (Hlo Hmx0).
  assert (HK : Zdigits2 M + E < Zdigits2 mx + ex).
  { destruct (Z_lt_le_dec (Zdigits2 M + E) (Zdigits2 mx + ex)) as [ | Hge ];
      [ assumption | ].
    apply fexp_mono in Hge. fold fe in Hge. lia. }
  destruct M as [ | Mp | Mp ]; try lia. cbn [Zdigits2] in HK.
  pose proof (dyadic_digits_lt Mp E) as HY.
  (* the power of two at the bottom of the binade of x is on the grid *)
  set (K := Zdigits2 mx + ex) in *.
  assert (HfK : fe <= K - 1).
  { unfold fe. rewrite fexp_eq. fold K. cbn [Zdigits2] in HE.
    assert (H0 : -1074 <= E) by (rewrite fexp_eq in HE; lia).
    assert (H1 : fexp prec emax (Z.pos (digits2_pos Mp) + E) <= fexp prec emax (K - 1))
      by (apply fexp_mono; lia).
    rewrite HE, fexp_eq in H1.
    pose proof (proj2 Hlo). unfold K in *. lia. }
  assert (Hpk : 0 < 2 ^ (k - n)) by (apply Z.pow_pos_nonneg; lia).
  assert (HP : (pow2Q (K - 1) <= dyadic m3 (ex + k))%Q).
  { assert (EP : (pow2Q (K - 1) == dyadic (2 ^ (K - 1 - fe) * 2 ^ n) ex)%Q).
    { rewrite <- Z.pow_add_r by lia. unfold dyadic.
      rewrite pow2Q_Z, <- pow2Q_add by lia.
      replace (K - 1 - fe + n + ex) with (K - 1) by lia. reflexivity. }
    assert (ER : (dyadic m3 (ex + k) == dyadic (m3 * 2 ^ (k - n) * 2 ^ n) ex)%Q).
    { rewrite <- Z.mul_assoc, <- Z.pow_add_r by lia.
      rewrite <- dyadic_shift by lia. replace (k - n + n) with k by lia.
      reflexivity. }
    rewrite EP, ER. apply dyadic_le_iff.
    assert (HpK : 0 < 2 ^ (K - 1 - fe)) by (apply Z.pow_pos_nonneg; lia).
    destruct (round_separated N (2 ^ n * D) (m3 * 2 ^ (k - n)) (2 ^ (K - 1 - fe))
                ltac:(nia) Herr') as [_ H2].
    assert (Hdm : 2 ^ (Zdigits2 mx - 1) = 2 ^ (K - 1 - fe) * 2 ^ n).
    { rewrite <- Z.pow_add_r by lia. f_equal. unfold K, n. lia. }
    assert (2 ^ (K - 1 - fe) <= m3 * 2 ^ (k - n)) by (apply H2; nia).
    nia. }
  assert (Hpw : (pow2Q (Z.pos (digits2_pos Mp) + E) <= pow2Q (K - 1))%Q)
    by (apply pow2Q_le; lia).
  lra.
Qed.

Lemma binary_round_aux_faithful (sx : bool) (N D mx ex : Z) (lx : location) :
  0 <= mx -> 0 < D -> shifted_w N D (shr_record_of_loc mx lx) ->
  ex <= fexp prec emax (Zdigits2 mx + ex) ->
  exists m3 e3,
    binary_round_aux prec emax sx mx ex lx = float_of sx m3 e3
    /\ faithful (quotient N D ex) m3 e3.
Proof.
  intros Hmx HD Hloc Hfe.
  destruct (binary_round_aux_rounds sx N D mx ex lx Hmx HD Hloc Hfe)
    as (m3 & e3 & Hr & Hf & _).
  exists m3, e3. split; assumption.
Qed.

Lemma nearest_even_bounds (t : Q) (R : Z) :
  nearest_even t R -> (t - (1 # 2) <= inject_Z R <= t + (1 # 2))%Q.
Proof. intros [H _]. apply Qabs_Qle_condition in H. lra. Qed.

(** Rounding to the nearest whole number, ties to even, keeps the
    order. *)
Lemma nearest_even_mono (t t' : Q) (R R' : Z) :
  nearest_even t R -> nearest_even t' R' -> (t <= t')%Q -> R <= R'.
Proof.
  intros [H1 E1] [H2 E2] Ht.
  apply Qabs_Qle_condition in H1, H2.
  destruct (Z_le_gt_dec R R') as [ | Hgt ]; [ assumption | exfalso ].
  assert (H : (inject_Z (R' + 1) <= inject_Z R)%Q) by (rewrite <- Zle_Qle; lia).
  rewrite inject_Z_plus in H. change (inject_Z 1) with 1%Q in H.
  assert (Ea : (inject_Z R - t == 1 # 2)%Q) by lra.
  assert (Eb : (inject_Z R' - t' == - (1 # 2))%Q) by lra.
  assert (Hev : Z.even R = true) by (apply E1; rewrite Ea; reflexivity).
  assert (Hev' : Z.even R' = true) by (apply E2; rewrite Eb; reflexivity).
  assert (HR : R = R' + 1).
  { assert (H' : (inject_Z R <= inject_Z (R' + 1))%Q).
    { rewrite inject_Z_plus. change (inject_Z 1) with 1%Q. lra. }
    rewrite <- Zle_Qle in H'. lia. }
  rewrite HR, Z.add_1_r, Z.even_succ, <- Z.negb_even, Hev' in Hev. discriminate Hev.
Qed.

(** Rounding keeps the order: of two numbers the smaller has the
    smaller rounded value, whatever the fractions that stand for
    them. *)
Lemma rounds_mono (x y v w : Q) :
  rounds x v -> rounds y w -> (x <= y)%Q -> (v <= w)%Q.
Proof.
  intros (g & R & [Hg1 Hg2] & HR & Hv) (g' & R' & [Hg1' Hg2'] & HR' & Hw) Hxy.
  assert (Hgg : g <= g').
  { destruct (Z_le_gt_dec g g') as [ | Hgt ]; [ assumption | exfalso ].
    assert ((pow2Q g' <= pow2Q (g - 1))%Q) by (apply pow2Q_le; lia). lra. }
  rewrite Hv, Hw.
  pose proof (fexp_mono g g' Hgg) as Hff.
  pose proof (fexp_eq g) as Ef. pose proof (fexp_eq g') as Ef'.
  set (f := fexp prec emax g) in *. set (f' := fexp prec emax g') in *.
  pose proof (pow2Q_pos f) as Hpf. pose proof (pow2Q_pos f') as Hpf'.
  destruct (Z.eq_dec f f') as [E | Hne].
  - rewrite <- E in *. apply dyadic_le_iff.
    apply (nearest_even_mono _ _ _ _ HR HR').
    unfold Qdiv. apply Qmult_le_compat_r; [ exact Hxy | ].
    apply Qlt_le_weak, Qinv_lt_0_compat, Hpf.
  - apply nearest_even_bounds in HR, HR'.
    assert (Hf' : f' = g' - 53) by lia.
    assert (Hg : g < g') by lia.
    assert (HB' : (pow2Q (g' - 1) <= dyadic R' f')%Q).
    { assert (Ht' : (pow2Q 52 <= y / pow2Q f')%Q).
      { apply Qle_shift_div_l; [ exact Hpf' | ]. rewrite <- pow2Q_add.
        replace (52 + f') with (g' - 1) by lia. exact Hg1'. }
      rewrite <- (pow2Q_Z 52) in Ht' by lia.
      assert (HR52 : 2 ^ 52 <= R').
      { destruct (Z_le_gt_dec (2 ^ 52) R') as [ | Hgt ]; [ assumption | exfalso ].
        assert (H : (inject_Z (R' + 1) <= inject_Z (2 ^ 52))%Q) by (rewrite <- Zle_Qle; lia).
        rewrite inject_Z_plus in H. change (inject_Z 1) with 1%Q in H. lra. }
      apply (dyadic_le_iff _ _ f') in HR52.
      assert (E52 : (dyadic (2 ^ 52) f' == pow2Q (g' - 1))%Q).
      { unfold dyadic. rewrite pow2Q_Z, <- pow2Q_add by lia.
        replace (52 + f') with (g' - 1) by lia. reflexivity. }
      lra. }
    assert (HB : (dyadic R f <= pow2Q g)%Q).
    { assert (Ht : (x / pow2Q f < pow2Q (g - f))%Q).
      { apply Qlt_shift_div_r; [ exact Hpf | ]. rewrite <- pow2Q_add.
        replace (g - f + f) with g by lia. exact Hg2. }
      destruct (Z_le_gt_dec 0 (g - f)) as [Hj | Hj].
      - rewrite <- (pow2Q_Z (g - f)) in Ht by lia.
        assert (HRj : R <= 2 ^ (g - f)).
        { destruct (Z_le_gt_dec R (2 ^ (g - f))) as [ | Hgt ]; [ assumption | exfalso ].
          assert (H : (inject_Z (2 ^ (g - f) + 1) <= inject_Z R)%Q)
            by (rewrite <- Zle_Qle; lia).
          rewrite inject_Z_plus in H. change (inject_Z 1) with 1%Q in H. lra. }
        apply (dyadic_le_iff _ _ f) in HRj.
        assert (Ej : (dyadic (2 ^ (g - f)) f == pow2Q g)%Q).
        { unfold dyadic. rewrite pow2Q_Z, <- pow2Q_add by lia.
          replace (g - f + f) with g by lia. reflexivity. }
        lra.
      - assert (Hh : (pow2Q (g - f) <= pow2Q (-1))%Q) by (apply pow2Q_le; lia).
        change (pow2Q (-1)) with (1 # 2)%Q in Hh.
        assert (HR0 : R <= 0).
        { destruct (Z_le_gt_dec R 0) as [ | Hgt ]; [ assumption | exfalso ].
          assert (H : (inject_Z 1 <= inject_Z R)%Q) by (rewrite <- Zle_Qle; lia).
          change (inject_Z 1) with 1%Q in H. lra. }
        apply (dyadic_le_iff _ _ f) in HR0.
        assert (E0 : (dyadic 0 f == 0)%Q) by (unfold dyadic; change (inject_Z 0) with 0%Q; ring).
        pose proof (pow2Q_pos g). lra. }
    assert (Hpw : (pow2Q g <= pow2Q (g' - 1))%Q) by (apply pow2Q_le; lia).
    lra.
Qed.

Lemma quotient_one (N e : Z) : (quotient N 1 e == dyadic N e)%Q.
Proof. unfold quotient, dyadic. change (inject_Z 1) with 1%Q. field. Qed.

Lemma rounds_value (x x' v : Q) : (x == x')%Q -> rounds x v -> rounds x' v.
Proof.
  intros E (g & R & Hg & [HR HE] & Hv). exists g, R.
  split; [ rewrite <- E; exact Hg | ].
  split; [ | exact Hv ].
  split; [ rewrite <- E; exact HR | ].
  intros H. apply HE. rewrite E. exact H.
Qed.

(** The product of two floats is the exact product rounded to
    nearest. *)
Lemma mul_rounds (mx my : positive) (ex ey : Z) :
  valid (S754_finite false mx ex) -> valid (S754_finite false my ey) ->
  exists m3 e3,
    mul (S754_finite false mx ex) (S754_finite false my ey) = float_of false m3 e3
    /\ faithful (dyadic (Z.pos mx) ex * dyadic (Z.pos my) ey) m3 e3
    /\ rounds (dyadic (Z.pos mx) ex * dyadic (Z.pos my) ey) (dyadic m3 e3).
Proof.
  intros Vx Vy.
  apply valid_finite in Vx. apply valid_finite in Vy.
  destruct Vx as (Hex & Hdx & Hnx). destruct Vy as (Hey & Hdy & Hny).
  unfold mul, SFmul. cbn [xorb].
  assert (Hfe : ex + ey <= fexp prec emax (Zdigits2 (Z.pos (mx * my)) + (ex + ey))).
  { rewrite fexp_eq. cbn [Zdigits2].
    pose proof (digits_bounds mx) as [Hxl Hxh].
    pose proof (digits_bounds my) as [Hyl Hyh].
    pose proof (digits_bounds (mx * my)) as [Hpl Hph].
    set (dx := Z.pos (digits2_pos mx)) in *.
    set (dy := Z.pos (digits2_pos my)) in *.
    set (dp := Z.pos (digits2_pos (mx * my))) in *.
    assert (Hdp : dx + dy - 1 <= dp).
    { destruct (Z_le_gt_dec (dx + dy - 1) dp) as [ | Hgt ]; [ assumption | exfalso ].
      assert (H1 : 2 ^ dp <= 2 ^ (dx + dy - 2)) by (apply Z.pow_le_mono_r; lia).
      assert (H2 : 2 ^ (dx + dy - 2) = 2 ^ (dx - 1) * 2 ^ (dy - 1)).
      { rewrite <- Z.pow_add_r by lia. f_equal. lia. }
      rewrite Pos2Z.inj_mul in Hph.
      assert (0 < 2 ^ (dx - 1)) by (apply Z.pow_pos_nonneg; lia).
      assert (0 < 2 ^ (dy - 1)) by (apply Z.pow_pos_nonneg; lia).
      nia. }
    assert (1 <= dx) by (unfold dx; lia). assert (1 <= dy) by (unfold dy; lia).
    lia. }
  destruct (binary_round_aux_rounds false (Z.pos (mx * my)) 1 (Z.pos (mx * my))
              (ex + ey) loc_Exact (Pos2Z.is_nonneg _) ltac:(lia)
              (shifted_w_exact _ (Pos2Z.is_nonneg _)) Hfe)
    as (m3 & e3 & Hr & Hf & Hrd).
  exists m3, e3. split; [ exact Hr | ].
  specialize (Hrd (Pos2Z.is_pos _)).
  apply (rounds_value _ (dyadic (Z.pos mx) ex * dyadic (Z.pos my) ey)) in Hrd;
    [ | rewrite quotient_one; apply dyadic_mul ].
  split; [ | exact Hrd ].
  destruct Hf as (H0 & Hc & Hsep).
  split; [ exact H0 | ]. split; [ exact Hc | ].
  intros M E HME. specialize (Hsep M E HME).
  rewrite quotient_one, dyadic_mul in Hsep. exact Hsep.
Qed.

(** The product of two floats is rounded faithfully. *)
Lemma mul_faithful (mx my : positive) (ex ey : Z) :
  valid (S754_finite false mx ex) -> valid (S754_finite false my ey) ->
  exists m3 e3,
    mul (S754_finite false mx ex) (S754_finite false my ey) = float_of false m3 e3
    /\ faithful (dyadic (Z.pos mx) ex * dyadic (Z.pos my) ey) m3 e3.
Proof.
  intros Vx Vy.
  destruct (mul_rounds mx my ex ey Vx Vy) as (m3 & e3 & Hr & Hf & _).
  exists m3, e3. split; assumption.
Qed.

(** The quotient of two floats is rounded faithfully. *)
Lemma div_faithful (mx my : positive) (ex ey : Z) :
  exists m3 e3,
    div (S754_finite false mx ex) (S754_finite false my ey) = float_of false m3 e3
    /\ faithful (dyadic (Z.pos mx) ex / dyadic (Z.pos my) ey) m3 e3.
Proof.
  unfold div, SFdiv, SFdiv_core_binary. cbn [xorb Zdigits2].
  set (d1 := Z.pos (digits2_pos mx)). set (d2 := Z.pos (digits2_pos my)).
  set (e' := Z.min (fexp prec emax (d1 + ex - (d2 + ey))) (ex - ey)).
  set (s := ex - ey - e').
  assert (Hs : 0 <= s) by (unfold s, e'; lia).
  set (m' := match s with
             | 0 => Z.pos mx
             | Z.pos _ => Z.shiftl (Z.pos mx) s
             | Z.neg _ => 0
             end).
  assert (Hm' : m' = Z.pos mx * 2 ^ s).
  { unfold m'. destruct s as [ | p | p ] eqn:Es; [ cbn; lia | | lia ].
    rewrite Z.shiftl_mul_pow2 by lia. reflexivity. }
  pose proof (Z_div_mod m' (Z.pos my) ltac:(lia)) as Hdiv.
  destruct (Z.div_eucl m' (Z.pos my)) as [q r]. destruct Hdiv as [Hqr Hr].
  assert (Hps : 0 < 2 ^ s) by (apply Z.pow_pos_nonneg; lia).
  assert (Hq : 0 <= q) by nia.
  pose proof (digits_bounds mx) as [Hxl Hxh]. fold d1 in Hxl, Hxh.
  pose proof (digits_bounds my) as [Hyl Hyh]. fold d2 in Hyl, Hyh.
  assert (Hdq : d1 + s - d2 <= Zdigits2 q).
  { pose proof (Zdigits2_bounds q Hq) as (Hqh & Hql & Hq0).
    destruct (Z_le_gt_dec (d1 + s - d2) (Zdigits2 q)) as [ | Hgt ]; [ assumption | exfalso ].
    assert (H1 : 2 ^ Zdigits2 q <= 2 ^ (d1 + s - d2 - 1))
      by (apply Z.pow_le_mono_r; lia).
    assert (H2 : 2 ^ (d1 - 1) * 2 ^ s = 2 ^ (d1 + s - d2 - 1) * 2 ^ d2).
    { rewrite <- !Z.pow_add_r by lia. f_equal. lia. }
    assert (0 < 2 ^ (d1 + s - d2 - 1)) by (apply Z.pow_pos_nonneg; lia).
    nia. }
  assert (Hfe : e' <= fexp prec emax (Zdigits2 q + e')).
  { assert (H1 : fexp prec emax (d1 + ex - (d2 + ey)) <= fexp prec emax (Zdigits2 q + e'))
      by (apply fexp_mono; unfold s in Hdq; lia).
    unfold e' at 1. lia. }
  destruct (binary_round_aux_faithful false m' (Z.pos my) q e' (new_location (Z.pos my) r)
              Hq ltac:(lia) (shifted_w_loc m' (Z.pos my) q r Hq Hr ltac:(lia)) Hfe)
    as (m3 & e3 & Hres & Hf).
  exists m3, e3. split; [ exact Hres | ].
  assert (Hval : (quotient m' (Z.pos my) e'
                  == dyadic (Z.pos mx) ex / dyadic (Z.pos my) ey)%Q).
  { unfold quotient, dyadic. rewrite Hm', inject_Z_mult, pow2Q_Z by lia.
    assert (He : (pow2Q ex == pow2Q s * pow2Q e' * pow2Q ey)%Q).
    { rewrite <- !pow2Q_add. replace (s + e' + ey) with ex by (unfold s; lia).
      reflexivity. }
    rewrite He.
    pose proof (pow2Q_pos ey). pose proof (pow2Q_pos s). pose proof (pow2Q_pos e').
    assert ((0 < inject_Z (Z.pos my))%Q) by (rewrite <- (Zlt_Qlt 0); lia).
    field. split; lra. }
  destruct Hf as (H0 & Hc & Hsep).
  split; [ exact H0 | ]. split; [ exact Hc | ].
  intros M E HME. specialize (Hsep M E HME).
  rewrite Hval in Hsep. exact Hsep.
Qed.

Lemma dyadic_lt_iff (a b e : Z) : (dyadic a e < dyadic b e)%Q <-> a < b.
Proof.
  pose proof (dyadic_le_iff b a e) as H.
  split; intros H1.
  - destruct (Z_lt_le_dec a b) as [ | Hge ]; [ assumption | ].
    apply H in Hge. lra.
  - apply Qnot_le_lt. intros H2. apply H in H2. lia.
Qed.

(** Floats of the format that are not negative compare as their
    values do. *)
Lemma ltb_values (sx sy : bool) (x y : float) (qx qy : Q) :
  valid x -> valid y ->
  (x = S754_zero sx \/ exists m e, x = S754_finite false m e) ->
  (y = S754_zero sy \/ exists m e, y = S754_finite false m e) ->
  to_Q x = Some qx -> to_Q y = Some qy ->
  ltb x y = true <-> (qx < qy)%Q.
Proof.
  intros Vx Vy [-> | (mx & ex & ->)] [-> | (my & ey & ->)] Hx Hy;
    injection Hx as <-; injection Hy as <-; cbn [cond_Zopp].
  - split; [ discriminate | intros H; lra ].
  - fold (dyadic (Z.pos my) ey). pose proof (dyadic_pos my ey).
    split; [ intros _; lra | reflexivity ].
  - fold (dyadic (Z.pos mx) ex). pose proof (dyadic_pos mx ex).
    split; [ discriminate | intros H0; lra ].
  - fold (dyadic (Z.pos mx) ex) (dyadic (Z.pos my) ey).
    rewrite (finite_ltb_aligned false false mx my ex ey Vx Vy). cbn [cond_Zopp].
    rewrite <- (dyadic_align mx ex (Z.min ex ey)) by lia.
    rewrite <- (dyadic_align my ey (Z.min ex ey)) by lia.
    rewrite dyadic_lt_iff, Z.ltb_lt. lia.
Qed.

Lemma canonical_exponent (m e K : Z) :
  canonical m e -> (dyadic m e < pow2Q K)%Q -> K <= 1024 -> e <= 971.
Proof.
  intros [Hm He] Hv HK. destruct m as [ | q | q ]; try lia.
  cbn [Zdigits2] in He. apply digits_of_value in Hv.
  rewrite fexp_eq in He. lia.
Qed.

(** A rounded number below [2^1024] is a float of the format, and its
    value is the rounded number. *)
Lemma float_of_value (m e K : Z) :
  0 <= m -> m = 0 \/ canonical m e -> (dyadic m e < pow2Q K)%Q -> K <= 1024 ->
  valid (float_of false m e)
  /\ (exists q, to_Q (float_of false m e) = Some q /\ (q == dyadic m e)%Q)
  /\ (float_of false m e = S754_zero false /\ m = 0
      \/ exists q, m = Z.pos q /\ float_of false m e = S754_finite false q e).
Proof.
  intros Hm Hc Hv HK. destruct m as [ | q | q ]; try lia.
  - split; [ reflexivity | ]. split; [ | left; split; reflexivity ].
    exists 0%Q. split; [ reflexivity | ]. unfold dyadic. ring.
  - destruct Hc as [Hc | Hc]; [ discriminate Hc | ].
    pose proof (canonical_exponent _ _ _ Hc Hv HK) as He.
    unfold float_of. apply Z.leb_le in He. rewrite He.
    split; [ | split; [ eexists; split; reflexivity
                      | right; exists q; split; reflexivity ] ].
    destruct Hc as [_ Hc]. cbn [Zdigits2] in Hc.
    unfold valid. cbn [valid_binary]. unfold bounded, canonical_mantissa.
    rewrite Hc, Z.eqb_refl. change (emax - prec) with 971. rewrite He. reflexivity.
Qed.

Lemma canonical_valid (s : bool) (m : positive) (e : Z) :
  valid (S754_finite s m e) -> canonical (Z.pos m) e.
Proof.
  intros V. apply valid_canonical in V. split; [ lia | ]. cbn [Zdigits2]. apply V.
Qed.

(** Half of a float that is at least [2^-1021] is a number of the
    format. *)
Lemma half_canonical (mb : positive) (eb : Z) :
  valid (S754_finite false mb eb) ->
  (pow2Q (-1021) <= dyadic (Z.pos mb) eb)%Q ->
  canonical (Z.pos mb) (eb - 1)
  /\ (dyadic (Z.pos mb) (eb - 1) == dyadic (Z.pos mb) eb * (1 # 2))%Q.
Proof.
  intros Vb Hb.
  pose proof (valid_finite _ _ _ Vb) as (Heb & Hdb & Hnb).
  change (-1021) with (-1020 - 1) in Hb.
  apply digits_of_value_ge in Hb.
  assert (Heb1 : -1074 < eb) by lia.
  specialize (Hnb Heb1).
  split.
  - split; [ lia | ]. cbn [Zdigits2]. rewrite fexp_eq. lia.
  - unfold dyadic. replace (eb - 1) with (eb + -1) by lia. rewrite pow2Q_add.
    change (pow2Q (-1)) with (1 # 2)%Q. ring.
Qed.

(** A float of the format is below [2^1024]. *)
Lemma valid_below_overflow (s : bool) (m : positive) (e : Z) :
  valid (S754_finite s m e) -> (dyadic (Z.pos m) e < pow2Q 1024)%Q.
Proof.
  intros V. pose proof (valid_finite _ _ _ V) as (He & Hd & _).
  pose proof (dyadic_digits_lt m e) as Hlt.
  assert (Hpw : (pow2Q (Z.pos (digits2_pos m) + e) <= pow2Q 1024)%Q)
    by (apply pow2Q_le; lia).
  lra.
Qed.

Lemma dyadic_nonneg (m e : Z) : 0 <= m -> (0 <= dyadic m e)%Q.
Proof.
  intros H. unfold dyadic. pose proof (pow2Q_pos e).
  assert ((0 <= inject_Z m)%Q) by (rewrite <- (Zle_Qle 0); exact H). nra.
Qed.

(** Halving a float that is not too small is exact. *)
Lemma mul_half_exact (mb : positive) (eb : Z) :
  valid (S754_finite false mb eb) ->
  (pow2Q (-1021) <= dyadic (Z.pos mb) eb)%Q ->
  exists mh eh,
    mul (S754_finite false mb eb) lit_0_5 = S754_finite false mh eh
    /\ valid (S754_finite false mh eh)
    /\ (dyadic (Z.pos mh) eh == dyadic (Z.pos mb) eb * (1 # 2))%Q.
Proof.
  intros Vb Hb.
  destruct (mul_faithful mb 4503599627370496 eb (-53) Vb eq_refl)
    as (m3 & e3 & Hr & H0 & Hc & Hsep).
  destruct (half_canonical mb eb Vb Hb) as [HY EY].
  assert (Ehalf : (dyadic 4503599627370496 (-53) == 1 # 2)%Q) by reflexivity.
  destruct (Hsep _ _ HY) as [Hup Hdown].
  rewrite Ehalf, EY in Hup, Hdown.
  assert (Eq : (dyadic m3 e3 == dyadic (Z.pos mb) eb * (1 # 2))%Q).
  { apply Qle_antisym; [ apply Hup | apply Hdown ]; apply Qle_refl. }
  pose proof (dyadic_pos mb eb) as Hpos.
  pose proof (valid_below_overflow _ _ _ Vb) as Hlt.
  destruct (float_of_value m3 e3 1024 H0 Hc ltac:(lra) ltac:(lia))
    as (V & _ & [[_ Ez] | (q & -> & Ef)]).
  - exfalso. rewrite Ez in Eq. unfold dyadic at 1 in Eq.
    change (inject_Z 0) with 0%Q in Eq. lra.
  - exists q, e3. unfold lit_0_5. rewrite Hr, Ef. rewrite Ef in V.
    split; [ reflexivity | ]. split; [ exact V | exact Eq ].
Qed.

(** The product of a float that is not negative by a factor between
    zero and one, and what is known of it: it is a float between zero
    and the float, and no separator below the one or above the other
    is crossed. *)
Lemma mul_fraction (md mf : positive) (ed ef : Z) :
  valid (S754_finite false md ed) -> valid (S754_finite false mf ef) ->
  (dyadic (Z.pos mf) ef <= 1)%Q ->
  exists p qp,
    mul (S754_finite false md ed) (S754_finite false mf ef) = p
    /\ valid p /\ to_Q p = Some qp
    /\ (0 <= qp <= dyadic (Z.pos md) ed)%Q
    /\ rounds (dyadic (Z.pos md) ed * dyadic (Z.pos mf) ef) qp
    /\ forall M E, canonical M E ->
         ((dyadic (Z.pos md) ed * dyadic (Z.pos mf) ef <= dyadic M E)%Q
          -> (qp <= dyadic M E)%Q)
         /\ ((dyadic M E <= dyadic (Z.pos md) ed * dyadic (Z.pos mf) ef)%Q
             -> (dyadic M E <= qp)%Q).
Proof.
  intros Vd Vf Hf1.
  destruct (mul_rounds md mf ed ef Vd Vf) as (m3 & e3 & Hr & (H0 & Hc & Hsep) & Hrd).
  pose proof (dyadic_pos md ed) as Hd. pose proof (dyadic_pos mf ef) as Hf.
  pose proof (valid_below_overflow _ _ _ Vd) as Hlt.
  pose proof (dyadic_nonneg m3 e3 H0) as Hm3.
  destruct (Hsep _ _ (canonical_valid _ _ _ Vd)) as [Hup _].
  assert (Hle : (dyadic m3 e3 <= dyadic (Z.pos md) ed)%Q) by (apply Hup; nra).
  destruct (float_of_value m3 e3 1024 H0 Hc ltac:(lra) ltac:(lia))
    as (V & (qp & Hqp & Eqp) & _).
  exists (float_of false m3 e3), qp.
  split; [ exact Hr | ]. split; [ exact V | ]. split; [ exact Hqp | ].
  split; [ rewrite Eqp; split; assumption | ].
  split.
  - destruct Hrd as (g & R & Hg & HR & Hv). exists g, R.
    split; [ exact Hg | ]. split; [ exact HR | ]. rewrite Eqp. exact Hv.
  - intros M E HME. rewrite Eqp. apply Hsep. exact HME.
Qed.

End Binary64Located.

Section Percentage.
Import Binary64 Binary64Facts Binary64Rounding Binary64Whole Located Binary64Located.
Import ImpactSimulator.

Lemma canonical_one : canonical 4503599627370496 (-52).
Proof. split; reflexivity. Qed.

Lemma canonical_half : canonical 4503599627370496 (-53).
Proof. split; reflexivity. Qed.

Lemma canonical_50 : canonical 7036874417766400 (-47).
Proof. split; reflexivity. Qed.

Lemma canonical_100 : canonical 7036874417766400 (-46).
Proof. split; reflexivity. Qed.

(** The quotient of a cost by a balance that is not smaller, and what
    is known of it. *)
Lemma share_of_balance (mc mb : positive) (ec eb : Z) :
  (dyadic (Z.pos mc) ec <= dyadic (Z.pos mb) eb)%Q ->
  exists q qq,
    div (S754_finite false mc ec) (S754_finite false mb eb) = q
    /\ valid q /\ to_Q q = Some qq /\ (0 <= qq <= 1)%Q
    /\ ((exists s, q = S754_zero s) \/ exists m e, q = S754_finite false m e)
    /\ ((2 * dyadic (Z.pos mc) ec <= dyadic (Z.pos mb) eb)%Q -> (qq <= 1 # 2)%Q)
    /\ ((dyadic (Z.pos mb) eb <= 2 * dyadic (Z.pos mc) ec)%Q -> (1 # 2 <= qq)%Q)
    /\ ((dyadic (Z.pos mb) eb <= dyadic (Z.pos mc) ec)%Q -> (1 <= qq)%Q).
Proof.
  intros Hle.
  pose proof (dyadic_pos mc ec) as Hc. pose proof (dyadic_pos mb eb) as Hb.
  set (qc := dyadic (Z.pos mc) ec) in *. set (qb := dyadic (Z.pos mb) eb) in *.
  destruct (div_faithful mc mb ec eb) as (m3 & e3 & Hr & H0 & Hcan & Hsep).
  fold qc qb in Hsep.
  assert (E1 : (dyadic 4503599627370496 (-52) == 1)%Q) by reflexivity.
  assert (Eh : (dyadic 4503599627370496 (-53) == 1 # 2)%Q) by reflexivity.
  assert (Hx1 : (qc / qb <= 1)%Q) by (apply Qle_shift_div_r; lra).
  assert (Hx0 : (0 <= qc / qb)%Q) by (apply Qle_shift_div_l; lra).
  destruct (Hsep _ _ canonical_one) as [Hup1 Hdown1]. rewrite E1 in Hup1, Hdown1.
  specialize (Hup1 Hx1).
  destruct (Hsep _ _ canonical_half) as [Huph Hdownh]. rewrite Eh in Huph, Hdownh.
  assert (Hm3 : (0 <= dyadic m3 e3)%Q).
  { unfold dyadic. pose proof (pow2Q_pos e3).
    assert ((0 <= inject_Z m3)%Q) by (rewrite <- (Zle_Qle 0); exact H0). nra. }
  assert (H2 : (pow2Q 1 == 2)%Q) by reflexivity.
  destruct (float_of_value m3 e3 1 H0 Hcan ltac:(lra) ltac:(lia))
    as (V & (qq & Hqq & Eqq) & Hform).
  exists (float_of false m3 e3), qq.
  split; [ exact Hr | ]. split; [ exact V | ]. split; [ exact Hqq | ].
  rewrite Eqq. split; [ split; assumption | ].
  split.
  { destruct Hform as [[Ez _] | (q & _ & Ef)];
      [ left; exists false; exact Ez | right; exists q, e3; exact Ef ]. }
  split; [ | split ]; intros H.
  - apply Huph. apply Qle_shift_div_r; lra.
  - apply Hdownh. apply Qle_shift_div_l; lra.
  - apply Hdown1. apply Qle_shift_div_l; lra.
Qed.

(** A share between zero and one, as a percentage. *)
Lemma percent_of_share (q : float) (qq : Q) :
  valid q -> to_Q q = Some qq -> (0 <= qq <= 1)%Q ->
  ((exists s, q = S754_zero s) \/ exists m e, q = S754_finite false m e) ->
  exists qp,
    to_Q (mul q lit_100) = Some qp /\ (0 <= qp <= 100)%Q
    /\ ((qq <= 1 # 2)%Q -> (qp <= 50)%Q)
    /\ ((1 # 2 <= qq)%Q -> (50 <= qp)%Q)
    /\ ((1 <= qq)%Q -> (100 <= qp)%Q).
Proof.
  intros V Hq Hqq [[s ->] | (m & e & ->)].
  - injection Hq as <-. exists 0%Q.
    split; [ reflexivity | ]. split; [ lra | ]. split; [ | split ]; intros H; lra.
  - injection Hq as <-. cbn [cond_Zopp] in *. fold (dyadic (Z.pos m) e) in *.
    set (qq := dyadic (Z.pos m) e) in *.
    destruct (mul_faithful m 7036874417766400 e (-46) V eq_refl)
      as (m3 & e3 & Hr & H0 & Hcan & Hsep).
    fold qq in Hsep.
    assert (E100 : (dyadic 7036874417766400 (-46) == 100)%Q) by reflexivity.
    assert (E50 : (dyadic 7036874417766400 (-47) == 50)%Q) by reflexivity.
    destruct (Hsep _ _ canonical_100) as [Hup100 Hdown100].
    rewrite !E100 in Hup100, Hdown100.
    destruct (Hsep _ _ canonical_50) as [Hup50 Hdown50].
    rewrite E100, E50 in Hup50, Hdown50.
    assert (Hm3 : (0 <= dyadic m3 e3)%Q).
    { unfold dyadic. pose proof (pow2Q_pos e3).
      assert ((0 <= inject_Z m3)%Q) by (rewrite <- (Zle_Qle 0); exact H0). nra. }
    assert (H100 : (dyadic m3 e3 <= 100)%Q) by (apply Hup100; lra).
    assert (H7 : (pow2Q 7 == 128)%Q) by reflexivity.
    destruct (float_of_value m3 e3 7 H0 Hcan ltac:(lra) ltac:(lia))
      as (_ & (qp & Hqp & Eqp) & _).
    exists qp. unfold lit_100. rewrite Hr.
    split; [ exact Hqp | ]. rewrite Eqp.
    split; [ split; assumption | ].
    split; [ | split ]; intros H; [ apply Hup50 | apply Hdown50 | apply Hdown100 ]; lra.
Qed.

(** X24.  For a balance of at least 2^-1021 and a cost from zero up to the
    balance the call returns an assessment whose percentage lies between 0
    and 100; the status is SAFE exactly when twice the cost is at most the
    balance and CAUTION otherwise; a SAFE purchase takes at most 50 percent,
    a CAUTION one at least 50, and one of the whole balance 100. *)
Theorem assess_transaction_percentage
    (balance current_savings savings_goal item_cost : float) (qb qc : Q) :
  valid balance -> valid item_cost ->
  to_Q balance = Some qb -> to_Q item_cost = Some qc ->
  (0 <= qc)%Q -> (qc <= qb)%Q -> (pow2Q (-1021) <= qb)%Q ->
  exists a p qp,
    assess_transaction balance current_savings savings_goal item_cost = Ok a
    /\ cost_percentage_of_free_cash a = Some p
    /\ to_Q p = Some qp
    /\ (0 <= qp <= 100)%Q
    /\ (status a = "SAFE"%string <-> (2 * qc <= qb)%Q)
    /\ (status a = "CAUTION"%string <-> (qb < 2 * qc)%Q)
    /\ (status a = "SAFE"%string -> (qp <= 50)%Q)
    /\ (status a = "CAUTION"%string -> (50 <= qp)%Q)
    /\ ((qc == qb)%Q -> (qp == 100)%Q).
Proof.
  intros Vb Vc Hqb Hqc Hc0 Hcb Hbig.
  pose proof (pow2Q_pos (-1021)) as Htiny.
  destruct balance as [ sb | sb | | sb mb eb ]; try discriminate Hqb.
  { injection Hqb as <-. lra. }
  injection Hqb as <-.
  destruct sb.
  { exfalso. cbn [cond_Zopp Z.opp] in *. pose proof (dyadic_pos mb eb) as Hp.
    unfold dyadic in Hp. change (inject_Z (Z.neg mb)) with (- inject_Z (Z.pos mb))%Q in *.
    lra. }
  cbn [cond_Zopp] in *. fold (dyadic (Z.pos mb) eb) in *.
  set (qb := dyadic (Z.pos mb) eb) in *.
  destruct (mul_half_exact mb eb Vb Hbig) as (mh & eh & Hhalf & Vh & Eh).
  fold qb in Eh.
  assert (Hnodanger : ltb (sub (S754_finite false mb eb) item_cost) zero = false).
  { rewrite (sub_ltb_zero _ _ Vb Vc).
    destruct (ltb (S754_finite false mb eb) item_cost) eqn:El; [ exfalso | reflexivity ].
    destruct item_cost as [ sc | sc | | sc mc ec ]; try discriminate Hqc.
    - destruct sc; discriminate El.
    - destruct sc; [ discriminate El | ].
      apply (ltb_values false false _ _ qb qc Vb Vc) in El;
        [ lra | right; eauto | right; eauto | reflexivity | exact Hqc ]. }
  rewrite assess_transaction_outcome, Hnodanger.
  change (eqb (S754_finite false mb eb) zero) with false. cbv iota.
  rewrite Hhalf.
  assert (Hstatus : gtb item_cost (S754_finite false mh eh) = true <-> (qb < 2 * qc)%Q).
  { unfold gtb.
    destruct item_cost as [ sc | sc | | sc mc ec ]; try discriminate Hqc.
    - injection Hqc as <-. pose proof (dyadic_pos mh eh).
      split; [ destruct sc; discriminate | intros H0; lra ].
    - destruct sc.
      { exfalso. injection Hqc as <-. cbn [cond_Zopp Z.opp] in *.
        pose proof (dyadic_pos mc ec) as Hp. unfold dyadic in Hp.
        change (inject_Z (Z.neg mc)) with (- inject_Z (Z.pos mc))%Q in *. lra. }
      rewrite (ltb_values false false _ _ (dyadic (Z.pos mh) eh) qc Vh Vc);
        [ | right; eauto | right; eauto | reflexivity | exact Hqc ].
      rewrite Eh. split; intros H0; lra. }
  assert (Hshare : exists q qq,
             div item_cost (S754_finite false mb eb) = q
             /\ valid q /\ to_Q q = Some qq /\ (0 <= qq <= 1)%Q
             /\ ((exists s, q = S754_zero s) \/ exists m e, q = S754_finite false m e)
             /\ ((2 * qc <= qb)%Q -> (qq <= 1 # 2)%Q)
             /\ ((qb <= 2 * qc)%Q -> (1 # 2 <= qq)%Q)
             /\ ((qb <= qc)%Q -> (1 <= qq)%Q)).
  { destruct item_cost as [ sc | sc | | sc mc ec ]; try discriminate Hqc.
    - injection Hqc as <-. exists (S754_zero sc), 0%Q.
      split; [ destruct sc; reflexivity | ].
      split; [ reflexivity | ]. split; [ reflexivity | ].
      split; [ lra | ].
      split; [ left; exists sc; reflexivity | ].
      split; [ | split ]; intros H0; lra.
    - destruct sc.
      { exfalso. injection Hqc as <-. cbn [cond_Zopp Z.opp] in *.
        pose proof (dyadic_pos mc ec) as Hp. unfold dyadic in Hp.
        change (inject_Z (Z.neg mc)) with (- inject_Z (Z.pos mc))%Q in *. lra. }
      injection Hqc as <-. cbn [cond_Zopp] in *. fold (dyadic (Z.pos mc) ec) in *.
      apply share_of_balance. exact Hcb. }
  destruct Hshare as (q & qq & -> & Vq & Hqq & Hrange & Hform & Hlow & Hhigh & Hone).
  destruct (percent_of_share _ qq Vq Hqq Hrange Hform)
    as (qp & Hqp & Hprange & Hp50 & Hp50' & Hp100).
  assert (Hfull : (qc == qb)%Q -> (qp == 100)%Q).
  { intros E. apply Qle_antisym; [ apply Hprange | ].
    apply Hp100. apply Hone. rewrite E. apply Qle_refl. }
  destruct (gtb item_cost (S754_finite false mh eh)) eqn:Eg.
  - assert (Hc : (qb < 2 * qc)%Q) by (apply Hstatus; reflexivity).
    eexists _, _, qp. split; [ reflexivity | ].
    cbn [cost_percentage_of_free_cash status].
    split; [ reflexivity | ]. split; [ exact Hqp | ]. split; [ exact Hprange | ].
    split; [ split; [ intros H0; discriminate H0 | intros H0; lra ] | ].
    split; [ split; [ intros _; exact Hc | reflexivity ] | ].
    split; [ intros H0; discriminate H0 | ].
    split; [ | exact Hfull ].
    intros _. apply Hp50'. apply Hhigh. lra.
  - assert (Hc : ~ (qb < 2 * qc)%Q).
    { intros H0. apply Hstatus in H0. discriminate H0. }
    apply Qnot_lt_le in Hc.
    eexists _, _, qp. split; [ reflexivity | ].
    cbn [cost_percentage_of_free_cash status].
    split; [ reflexivity | ]. split; [ exact Hqp | ]. split; [ exact Hprange | ].
    split; [ split; [ intros _; exact Hc | reflexivity ] | ].
    split; [ split; [ intros H0; discriminate H0 | intros H0; lra ] | ].
    split; [ | split; [ intros H0; discriminate H0 | exact Hfull ] ].
    intros _. apply Hp50. apply Hlow. exact Hc.
Qed.

End Percentage.

Section Shares.
Import Binary64 Binary64Facts Binary64Rounding BudgetCalculator Located Binary64Located.

(** A float whose value is not negative is a zero or a positive
    float. *)
Lemma not_negative_form (x : float) (q : Q) :
  to_Q x = Some q -> (0 <= q)%Q ->
  (exists s, x = S754_zero s /\ q = 0%Q)
  \/ exists m e, x = S754_finite false m e /\ q = dyadic (Z.pos m) e.
Proof.
  intros Hq H0.
  destruct x as [ s | s | | s m e ]; try discriminate Hq.
  - left. exists s. injection Hq as <-. split; reflexivity.
  - right. injection Hq as <-. destruct s.
    + exfalso. cbn [cond_Zopp Z.opp] in H0.
      change (inject_Z (Z.neg m)) with (- inject_Z (Z.pos m))%Q in H0.
      pose proof (dyadic_pos m e) as Hp. unfold dyadic in Hp. lra.
    + exists m, e. split; reflexivity.
Qed.

(** Two shares of two amounts: the smaller share of the smaller amount
    is the smaller product, and no product is above its amount. *)
Lemma mul_fraction_le (x x' : float) (q q' : Q) (mf mf' : positive) (ef ef' : Z) :
  valid x -> valid x' -> to_Q x = Some q -> to_Q x' = Some q' ->
  (0 <= q)%Q -> (q <= q')%Q ->
  valid (S754_finite false mf ef) -> valid (S754_finite false mf' ef') ->
  (dyadic (Z.pos mf) ef <= dyadic (Z.pos mf') ef')%Q ->
  (dyadic (Z.pos mf') ef' <= 1)%Q ->
  exists qp qp',
    to_Q (mul x (S754_finite false mf ef)) = Some qp
    /\ to_Q (mul x' (S754_finite false mf' ef')) = Some qp'
    /\ (0 <= qp)%Q /\ (qp <= qp')%Q /\ (qp' <= q')%Q.
Proof.
  intros Vx Vx' Hq Hq' H0 Hqq Vf Vf' Hff Hf1.
  pose proof (dyadic_pos mf ef) as HF. pose proof (dyadic_pos mf' ef') as HF'.
  assert (H0' : (0 <= q')%Q) by lra.
  destruct (not_negative_form x' q' Hq' H0') as [(s' & -> & ->) | (m' & e' & -> & ->)].
  - assert (E : (q == 0)%Q) by lra.
    destruct (not_negative_form x q Hq H0) as [(s & -> & ->) | (m & e & -> & ->)].
    + exists 0%Q, 0%Q. repeat split; try reflexivity; lra.
    + exfalso. pose proof (dyadic_pos m e). lra.
  - destruct (mul_fraction m' mf' e' ef' Vx' Vf' Hf1)
      as (p' & qp' & -> & _ & Hqp' & [Hp0' Hp1'] & Hrd' & _).
    destruct (not_negative_form x q Hq H0) as [(s & -> & ->) | (m & e & -> & ->)].
    + exists 0%Q, qp'. repeat split; try reflexivity; try assumption; lra.
    + destruct (mul_fraction m mf e ef Vx Vf ltac:(lra))
        as (p & qp & -> & _ & Hqp & [Hp0 Hp1] & Hrd & _).
      exists qp, qp'. repeat split; try assumption.
      apply (rounds_mono _ _ _ _ Hrd Hrd').
      pose proof (dyadic_pos m e). nra.
Qed.

Lemma lit_0_40_le_lit_0_60 :
  (dyadic 7205759403792794 (-54) <= dyadic 5404319552844595 (-53))%Q.
Proof. apply Qle_bool_iff. reflexivity. Qed.

Lemma lit_0_20_le_lit_0_30 :
  (dyadic 7205759403792794 (-55) <= dyadic 5404319552844595 (-54))%Q.
Proof. apply Qle_bool_iff. reflexivity. Qed.

Lemma lit_0_30_le_lit_0_50 :
  (dyadic 5404319552844595 (-54) <= dyadic 4503599627370496 (-53))%Q.
Proof. apply Qle_bool_iff. reflexivity. Qed.

Lemma lit_0_60_le_1 : (dyadic 5404319552844595 (-53) <= 1)%Q.
Proof. apply Qle_bool_iff. reflexivity. Qed.

Lemma lit_0_30_le_1 : (dyadic 5404319552844595 (-54) <= 1)%Q.
Proof. apply Qle_bool_iff. reflexivity. Qed.

Lemma lit_0_20_le_1 : (dyadic 7205759403792794 (-55) <= 1)%Q.
Proof. apply Qle_bool_iff. reflexivity. Qed.

Lemma lit_0_50_le_1 : (dyadic 4503599627370496 (-53) <= 1)%Q.
Proof. apply Qle_bool_iff. reflexivity. Qed.

(** X25.  When the income covers the fixed expenses and what is left is a
    finite amount, the plan is a surplus whose recommended savings are not
    negative and not above the recommended wants, which are not above the
    discretionary total. *)
Theorem calculate_remaining_after_fixed_shares (income fixed_total : float) (qd : Q) :
  valid income -> valid fixed_total ->
  to_Q (sub income fixed_total) = Some qd -> (0 <= qd)%Q ->
  let p := calculate_remaining_after_fixed income fixed_total in
  status p = "surplus"%string
  /\ discretionary_total p = Some (sub income fixed_total)
  /\ exists s w qs qw,
       recommended_savings p = Some s /\ recommended_wants p = Some w
       /\ to_Q s = Some qs /\ to_Q w = Some qw
       /\ (0 <= qs)%Q /\ (qs <= qw)%Q /\ (qw <= qd)%Q.
Proof.
  intros Vi Vf Hqd H0. cbv zeta.
  pose proof (sub_valid _ _ Vi Vf) as Vd.
  unfold calculate_remaining_after_fixed.
  set (d := sub income fixed_total) in *.
  assert (Hs : ltb d zero = false).
  { destruct (not_negative_form d qd Hqd H0) as [(s & -> & _) | (m & e & -> & _)];
      reflexivity. }
  rewrite Hs.
  cbn [status discretionary_total recommended_savings recommended_wants].
  split; [ reflexivity | ]. split; [ reflexivity | ].
  destruct (mul_fraction_le d d qd qd 7205759403792794 5404319552844595 (-54) (-53)
              Vd Vd Hqd Hqd H0 (Qle_refl _) eq_refl eq_refl
              lit_0_40_le_lit_0_60 lit_0_60_le_1)
    as (qs & qw & Hqs & Hqw & Hs0 & Hsw & Hwd).
  exists (mul d lit_0_40), (mul d lit_0_60), qs, qw.
  repeat split; assumption.
Qed.

(** X26.  For an income that is not negative the three parts of the 50/30/20
    split are ordered: the savings are not negative and not above the wants,
    the wants not above the needs, the needs not above the income; and the
    needs are exactly half the income when the income is at least 2^-1021. *)
Theorem calculate_50_30_20_order (income : float) (q : Q) :
  valid income -> to_Q income = Some q -> (0 <= q)%Q ->
  exists qn qw qs,
    to_Q (needs (calculate_50_30_20 income)) = Some qn
    /\ to_Q (wants (calculate_50_30_20 income)) = Some qw
    /\ to_Q (savings (calculate_50_30_20 income)) = Some qs
    /\ (0 <= qs)%Q /\ (qs <= qw)%Q /\ (qw <= qn)%Q /\ (qn <= q)%Q
    /\ ((pow2Q (-1021) <= q)%Q -> (qn == q * (1 # 2))%Q).
Proof.
  intros V Hq H0.
  unfold calculate_50_30_20. cbn [needs wants savings].
  destruct (mul_fraction_le income income q q 7205759403792794 5404319552844595 (-55) (-54)
              V V Hq Hq H0 (Qle_refl _) eq_refl eq_refl
              lit_0_20_le_lit_0_30 lit_0_30_le_1)
    as (qs & qw & Hqs & Hqw & Hs0 & Hsw & _).
  destruct (mul_fraction_le income income q q 5404319552844595 4503599627370496 (-54) (-53)
              V V Hq Hq H0 (Qle_refl _) eq_refl eq_refl
              lit_0_30_le_lit_0_50 lit_0_50_le_1)
    as (qw' & qn & Hqw' & Hqn & _ & Hwn & Hnq).
  fold lit_0_20 in Hqs. fold lit_0_30 in Hqw, Hqw'. fold lit_0_5 in Hqn.
  rewrite Hqw in Hqw'. injection Hqw' as <-.
  exists qn, qw, qs. unfold lit_0_50.
  repeat split; try assumption.
  intros Hbig.
  destruct (not_negative_form income q Hq H0) as [(s & -> & ->) | (m & e & -> & ->)].
  - exfalso. pose proof (pow2Q_pos (-1021)). lra.
  - destruct (mul_half_exact m e V Hbig) as (mh & eh & Hh & _ & Eh).
    rewrite Hh in Hqn. injection Hqn as <-. exact Eh.
Qed.

(** X27.  A higher income never gives a smaller part: of two incomes that
    are not negative the larger has the larger needs, wants and savings. *)
Theorem calculate_50_30_20_monotone (income income' : float) (q q' : Q) :
  valid income -> valid income' ->
  to_Q income = Some q -> to_Q income' = Some q' ->
  (0 <= q)%Q -> (q <= q')%Q ->
  exists qn qw qs qn' qw' qs',
    to_Q (needs (calculate_50_30_20 income)) = Some qn
    /\ to_Q (wants (calculate_50_30_20 income)) = Some qw
    /\ to_Q (savings (calculate_50_30_20 income)) = Some qs
    /\ to_Q (needs (calculate_50_30_20 income')) = Some qn'
    /\ to_Q (wants (calculate_50_30_20 income')) = Some qw'
    /\ to_Q (savings (calculate_50_30_20 income')) = Some qs'
    /\ (qn <= qn')%Q /\ (qw <= qw')%Q /\ (qs <= qs')%Q.
Proof.
  intros V V' Hq Hq' H0 Hqq.
  unfold calculate_50_30_20. cbn [needs wants savings].
  destruct (mul_fraction_le income income' q q' 4503599627370496 4503599627370496 (-53) (-53)
              V V' Hq Hq' H0 Hqq eq_refl eq_refl (Qle_refl _) lit_0_50_le_1)
    as (qn & qn' & Hqn & Hqn' & _ & Hn & _).
  destruct (mul_fraction_le income income' q q' 5404319552844595 5404319552844595 (-54) (-54)
              V V' Hq Hq' H0 Hqq eq_refl eq_refl (Qle_refl _) lit_0_30_le_1)
    as (qw & qw' & Hqw & Hqw' & _ & Hw & _).
  destruct (mul_fraction_le income income' q q' 7205759403792794 7205759403792794 (-55) (-55)
              V V' Hq Hq' H0 Hqq eq_refl eq_refl (Qle_refl _) lit_0_20_le_1)
    as (qs & qs' & Hqs & Hqs' & _ & Hs & _).
  exists qn, qw, qs, qn', qw', qs'.
  repeat split; assumption.
Qed.

End Shares.

Module Binary64Order.
Import Binary64 Binary64Facts Binary64Rounding Located Binary64Located.

Lemma dyadic_opp (m e : Z) : (dyadic (- m) e == - dyadic m e)%Q.
Proof. unfold dyadic. rewrite inject_Z_opp. ring. Qed.

Lemma dyadic_signed (s : bool) (m : positive) (e : Z) :
  (dyadic (cond_Zopp s (Z.pos m)) e
   == if s then - dyadic (Z.pos m) e else dyadic (Z.pos m) e)%Q.
Proof.
  destruct s; cbn [cond_Zopp]; [ | reflexivity ].
  change (- Z.pos m) with (- (Z.pos m)). apply dyadic_opp.
Qed.

Lemma dyadic_align_signed (s : bool) (m : positive) (e e' : Z) :
  e' <= e ->
  (dyadic (cond_Zopp s (Z.pos (fst (shl_align m e e')))) e'
   == dyadic (cond_Zopp s (Z.pos m)) e)%Q.
Proof.
  intros Hle. rewrite !dyadic_signed.
  destruct s; rewrite (dyadic_align m e e' Hle); reflexivity.
Qed.

(** The order of two finite floats is the order of their values. *)
Lemma ltb_finite_values (sx sy : bool) (mx my : positive) (ex ey : Z) :
  valid (S754_finite sx mx ex) -> valid (S754_finite sy my ey) ->
  ltb (S754_finite sx mx ex) (S754_finite sy my ey) = true
  <-> (dyadic (cond_Zopp sx (Z.pos mx)) ex < dyadic (cond_Zopp sy (Z.pos my)) ey)%Q.
Proof.
  intros Vx Vy.
  rewrite (finite_ltb_aligned sx sy mx my ex ey Vx Vy).
  rewrite <- (dyadic_align_signed sx mx ex (Z.min ex ey)) by lia.
  rewrite <- (dyadic_align_signed sy my ey (Z.min ex ey)) by lia.
  rewrite dyadic_lt_iff, Z.ltb_lt. lia.
Qed.

Lemma leb_negb_ltb (x y : float) :
  SFcompare x y <> None -> leb x y = negb (ltb y x).
Proof.
  intros H. unfold leb, ltb, SFleb, SFltb. rewrite (compare_antisym x y).
  destruct (SFcompare x y) as [ [ | | ] | ]; simpl; congruence.
Qed.

(** On floats that have a value, [<=] is the order of the values. *)
Lemma leb_values (x y : float) (qx qy : Q) :
  valid x -> valid y -> to_Q x = Some qx -> to_Q y = Some qy ->
  leb x y = true <-> (qx <= qy)%Q.
Proof.
  intros Vx Vy Hx Hy.
  destruct x as [ sx | sx | | sx mx ex ]; try discriminate Hx;
    destruct y as [ sy | sy | | sy my ey ]; try discriminate Hy;
    injection Hx as <-; injection Hy as <-.
  - split; [ intros _; lra | intros _; destruct sx, sy; reflexivity ].
  - fold (dyadic (cond_Zopp sy (Z.pos my)) ey). rewrite dyadic_signed.
    pose proof (dyadic_pos my ey).
    destruct sy; (split; [ intros H0; first [ discriminate H0 | lra ]
                         | intros H0; first [ reflexivity | lra ] ]).
  - fold (dyadic (cond_Zopp sx (Z.pos mx)) ex). rewrite dyadic_signed.
    pose proof (dyadic_pos mx ex).
    destruct sx; (split; [ intros H0; first [ discriminate H0 | lra ]
                         | intros H0; first [ reflexivity | lra ] ]).
  - fold (dyadic (cond_Zopp sx (Z.pos mx)) ex) (dyadic (cond_Zopp sy (Z.pos my)) ey).
    rewrite leb_negb_ltb.
    + pose proof (ltb_finite_values sy sx my mx ey ex Vy Vx) as H.
      destruct (ltb (S754_finite sy my ey) (S754_finite sx mx ex)); cbn [negb].
      * split; [ discriminate | ]. intros H0. apply proj1 in H.
        specialize (H eq_refl). lra.
      * split; [ intros _ | reflexivity ]. apply Qnot_lt_le. intros H0.
        apply H in H0. discriminate H0.
    + cbn [SFcompare]. destruct sx, sy; try discriminate;
        destruct (ex ?= ey); try discriminate;
        destruct (Pos.compare_cont Eq mx my); discriminate.
Qed.

(** [binary_round] rounds the number it is given to nearest. *)
Lemma binary_round_rounds (sx : bool) (m : positive) (e : Z) :
  exists m3 e3,
    binary_round prec emax sx m e = float_of sx m3 e3
    /\ faithful (dyadic (Z.pos m) e) m3 e3
    /\ rounds (dyadic (Z.pos m) e) (dyadic m3 e3).
Proof.
  unfold binary_round.
  pose proof (shl_align_fexp m e) as Hal.
  destruct (shl_align m e (fexp prec emax (Z.pos (digits2_pos m) + e))) as [mz ez].
  destruct Hal as (Hdig & Hle & Hez & Hmz).
  assert (Hfe : ez <= fexp prec emax (Zdigits2 (Z.pos mz) + ez)).
  { cbn [Zdigits2]. rewrite Hdig. exact Hle. }
  destruct (binary_round_aux_rounds sx (Z.pos mz) 1 (Z.pos mz) ez loc_Exact
              (Pos2Z.is_nonneg _) ltac:(lia)
              (shifted_w_exact _ (Pos2Z.is_nonneg _)) Hfe)
    as (m3 & e3 & Hr & Hf & Hrd).
  assert (Ev : (quotient (Z.pos mz) 1 ez == dyadic (Z.pos m) e)%Q).
  { rewrite quotient_one, Hmz, <- dyadic_shift by lia.
    replace (ez + (e - ez)) with e by lia. reflexivity. }
  exists m3, e3. split; [ exact Hr | ].
  split.
  - destruct Hf as (H0 & Hc & Hsep).
    split; [ exact H0 | ]. split; [ exact Hc | ].
    intros M E HME. specialize (Hsep M E HME). rewrite Ev in Hsep. exact Hsep.
  - apply (rounds_value _ _ _ Ev). apply Hrd. apply Pos2Z.is_pos.
Qed.

Lemma canonical_finite_valid (s : bool) (m : positive) (e : Z) :
  canonical (Z.pos m) e -> e <= 971 -> valid (S754_finite s m e).
Proof.
  intros [_ Hc] He. cbn [Zdigits2] in Hc.
  unfold valid. cbn [valid_binary]. unfold bounded, canonical_mantissa.
  rewrite Hc, Z.eqb_refl. change (emax - prec) with 971.
  apply Z.leb_le in He. rewrite He. reflexivity.
Qed.

(** Taking an amount that is not negative off a float never gives a
    float above it, whatever the rounding. *)
Lemma sub_not_above (x y : float) (q : Q) :
  valid x -> valid y -> to_Q x = Some q -> geb y zero = true ->
  leb (sub x y) x = true.
Proof.
  intros Vx Vy Hq Hy.
  destruct y as [ sy | sy | | sy my ey ]; try discriminate Hy.
  - destruct x as [ sx | sx | | sx mx ex ]; try discriminate Hq.
    + destruct sx, sy; reflexivity.
    + unfold sub, SFsub.
      apply (leb_values _ _ _ _ Vx Vx eq_refl eq_refl). apply Qle_refl.
  - destruct sy; [ discriminate Hy | ].
    destruct x as [ sx | sx | | sx mx ex ]; try discriminate Hq; reflexivity.
  - destruct sy; [ discriminate Hy | ].
    destruct x as [ sx | sx | | sx mx ex ]; try discriminate Hq.
    + destruct sx; reflexivity.
    + clear Hq Hy.
      pose proof (dyadic_pos mx ex) as Hpx. pose proof (dyadic_pos my ey) as Hpy.
      assert (Ex : (dyadic (cond_Zopp sx (Z.pos (fst (shl_align mx ex (Z.min ex ey)))))
                           (Z.min ex ey)
                    == if sx then - dyadic (Z.pos mx) ex else dyadic (Z.pos mx) ex)%Q).
      { rewrite dyadic_align_signed by lia. apply dyadic_signed. }
      pose proof (dyadic_align my ey (Z.min ex ey) ltac:(lia)) as Ey.
      unfold sub, SFsub. cbv zeta. cbn [cond_Zopp negb].
      set (X := cond_Zopp sx (Z.pos (fst (shl_align mx ex (Z.min ex ey))))) in *.
      set (Y := Z.pos (fst (shl_align my ey (Z.min ex ey)))) in *.
      assert (ED : (dyadic (X - Y) (Z.min ex ey)
                    == (if sx then - dyadic (Z.pos mx) ex else dyadic (Z.pos mx) ex)
                       - dyadic (Z.pos my) ey)%Q).
      { unfold Z.sub. rewrite dyadic_add, dyadic_opp, Ex, Ey. ring. }
      destruct (X - Y) as [ | p | p ] eqn:HD; cbn [binary_normalize].
      * (* the difference is zero *)
        assert (E0 : (dyadic 0 (Z.min ex ey) == 0)%Q)
          by (unfold dyadic; change (inject_Z 0) with 0%Q; ring).
        destruct sx; [ exfalso; lra | reflexivity ].
      * (* the difference is positive, so [x] is *)
        pose proof (dyadic_pos p (Z.min ex ey)) as Hp.
        destruct sx; [ exfalso; lra | ].
        destruct (binary_round_rounds false p (Z.min ex ey))
          as (m3 & e3 & -> & (H0 & Hc & Hsep) & _).
        destruct (Hsep _ _ (canonical_valid _ _ _ Vx)) as [Hup _].
        assert (Hle : (dyadic m3 e3 <= dyadic (Z.pos mx) ex)%Q) by (apply Hup; lra).
        pose proof (valid_below_overflow _ _ _ Vx) as Hlt.
        destruct (float_of_value m3 e3 1024 H0 Hc ltac:(lra) ltac:(lia))
          as (V & (q3 & Hq3 & Eq3) & _).
        apply (leb_values _ _ _ _ V Vx Hq3 eq_refl).
        cbn [cond_Zopp]. fold (dyadic (Z.pos mx) ex). lra.
      * (* the difference is negative *)
        pose proof (dyadic_pos p (Z.min ex ey)) as Hp.
        change (Z.neg p) with (- Z.pos p) in ED. rewrite dyadic_opp in ED.
        destruct (binary_round_rounds true p (Z.min ex ey))
          as (m3 & e3 & -> & (H0 & Hc & Hsep) & _).
        destruct sx.
        -- destruct (Hsep _ _ (canonical_valid _ _ _ Vx)) as [_ Hdown].
           assert (Hle : (dyadic (Z.pos mx) ex <= dyadic m3 e3)%Q) by (apply Hdown; lra).
           destruct m3 as [ | q3 | q3 ]; [ | | lia ].
           ++ exfalso. unfold dyadic at 2 in Hle. change (inject_Z 0) with 0%Q in Hle. lra.
           ++ destruct Hc as [Hc | Hc]; [ discriminate Hc | ].
              unfold float_of. destruct (Z.leb_spec e3 971) as [He | He]; [ | reflexivity ].
              apply (leb_values _ _ _ _ (canonical_finite_valid true q3 e3 Hc He) Vx
                       eq_refl eq_refl).
              fold (dyadic (cond_Zopp true (Z.pos q3)) e3).
              fold (dyadic (cond_Zopp true (Z.pos mx)) ex).
              rewrite !dyadic_signed. lra.
        -- destruct m3 as [ | q3 | q3 ]; [ reflexivity | | lia ].
           unfold float_of. destruct (e3 <=? 971); reflexivity.
Qed.

(** [<=] on floats is transitive through a float that has a value. *)
Lemma leb_trans_value (x y z : float) (qy qz : Q) :
  valid x -> valid y -> valid z -> to_Q y = Some qy -> to_Q z = Some qz ->
  leb x y = true -> leb y z = true -> leb x z = true.
Proof.
  intros Vx Vy Vz Hy Hz Hxy Hyz.
  apply (leb_values _ _ _ _ Vy Vz Hy Hz) in Hyz.
  destruct x as [ sx | sx | | sx mx ex ].
  - apply (leb_values _ _ _ _ Vx Vy eq_refl Hy) in Hxy.
    apply (leb_values _ _ _ _ Vx Vz eq_refl Hz). lra.
  - destruct sx.
    + destruct z as [ sz | sz | | sz mz ez ]; try discriminate Hz; reflexivity.
    + destruct y as [ sy | sy | | sy my ey ]; try discriminate Hy; discriminate Hxy.
  - discriminate Hxy.
  - apply (leb_values _ _ _ _ Vx Vy eq_refl Hy) in Hxy.
    apply (leb_values _ _ _ _ Vx Vz eq_refl Hz). lra.
Qed.

End Binary64Order.

Section NeverAbove.
Import Binary64 Binary64Facts Binary64Rounding Binary64Sums Binary64Order.
Import StorageEngine ImpactSimulator Ledger.

(** X28.  Whatever the call returns, for a balance that is a number and a
    cost that is not negative, the remaining balance it reports is the float
    difference of the two and is not above the balance. *)
Theorem assess_transaction_remaining_not_above
    (balance current_savings savings_goal item_cost : float) (qb : Q) (a : assessment) :
  valid balance -> valid item_cost ->
  to_Q balance = Some qb -> geb item_cost zero = true ->
  assess_transaction balance current_savings savings_goal item_cost = Ok a ->
  remaining_balance a = sub balance item_cost
  /\ leb (remaining_balance a) balance = true.
Proof.
  intros Vb Vc Hqb Hc Ha.
  assert (Hr : remaining_balance a = sub balance item_cost).
  { rewrite assess_transaction_outcome in Ha.
    destruct (ltb (sub balance item_cost) zero).
    - injection Ha as <-. reflexivity.
    - destruct (eqb balance zero); [ discriminate Ha | ].
      injection Ha as <-. reflexivity. }
  split; [ exact Hr | ]. rewrite Hr.
  exact (sub_not_above _ _ _ Vb Vc Hqb Hc).
Qed.

(** X29.  When no amount of the document is negative and the income is a
    number, the free cash flow of the snapshot is not above the income,
    however the sums and the two subtractions round. *)
Theorem get_todays_state_not_above_income (d : data) (qi : Q) :
  valid_amounts d -> amounts_not_negative d ->
  to_Q (monthly_income (user_profile d)) = Some qi ->
  let s := FinancialStateAgent.get_todays_state d in
  leb (FinancialStateAgent.free_cash_flow s) (FinancialStateAgent.income s) = true.
Proof.
  intros (Vi & Vf & Vt) (Nf & Nt) Hqi. cbv zeta.
  unfold FinancialStateAgent.get_todays_state.
  cbn [FinancialStateAgent.free_cash_flow FinancialStateAgent.income].
  unfold FinancialStateAgent.get_total_fixed_expenses, get_fixed_expenses,
    get_transactions, FinancialStateAgent.get_profile, get_user_profile.
  rewrite variable_spend_filter.
  pose proof (Forall_map_filter _ tx_amount FinancialStateAgent.is_expense _ Vt) as Vt'.
  pose proof (Forall_map_filter _ tx_amount FinancialStateAgent.is_expense _ Nt) as Nt'.
  destruct (sum_from_nonneg _ zero (Forall_and_valid _ Vf Nf) eq_refl eq_refl)
    as [Vsf Hsf].
  destruct (sum_from_nonneg _ zero (Forall_and_valid _ Vt' Nt') eq_refl eq_refl)
    as [Vst Hst].
  fold (sum (map amount (fixed_expenses d))) in *.
  fold (sum (map tx_amount (filter FinancialStateAgent.is_expense (transactions d)))) in *.
  set (I := monthly_income (user_profile d)) in *.
  set (F := sum (map amount (fixed_expenses d))) in *.
  set (V := sum (map tx_amount (filter FinancialStateAgent.is_expense (transactions d)))) in *.
  clearbody I F V.
  pose proof (sub_not_above I F qi Vi Vsf Hqi Hsf) as HA.
  pose proof (sub_valid _ _ Vi Vsf) as VA.
  destruct (to_Q (sub I F)) as [ qa | ] eqn:HqA.
  - pose proof (sub_not_above (sub I F) V qa VA Vst HqA Hst) as HB.
    exact (leb_trans_value _ _ _ _ _ (sub_valid _ _ VA Vst) VA Vi HqA Hqi HB HA).
  - destruct (sub I F) as [ sa | sa | | sa ma ea ]; try discriminate HqA.
    + destruct sa.
      * destruct V as [ sv | sv | | sv mv ev ]; try discriminate Hst;
          destruct I as [ si | si | | si mi ei ]; try discriminate Hqi;
          try (destruct sv; try discriminate Hst); reflexivity.
      * destruct I as [ si | si | | si mi ei ]; try discriminate Hqi; discriminate HA.
    + discriminate HA.
Qed.

End NeverAbove.

Module Binary64Monotone.
Import Binary64 Binary64Facts Binary64Rounding Binary64Whole Located Binary64Located Binary64Order.

(** A number of the format rounds to itself. *)
Lemma rounds_exact (m : positive) (e : Z) :
  canonical (Z.pos m) e -> rounds (dyadic (Z.pos m) e) (dyadic (Z.pos m) e).
Proof.
  intros [_ Hc]. cbn [Zdigits2] in Hc.
  exists (Z.pos (digits2_pos m) + e), (Z.pos m). rewrite Hc.
  split; [ split; [ apply dyadic_digits_ge | apply dyadic_digits_lt ] | ].
  split; [ | reflexivity ].
  assert (Et : (dyadic (Z.pos m) e / pow2Q e == inject_Z (Z.pos m))%Q).
  { unfold dyadic. pose proof (pow2Q_pos e). field. lra. }
  assert (E0 : (inject_Z (Z.pos m) - dyadic (Z.pos m) e / pow2Q e == 0)%Q)
    by (rewrite Et; ring).
  split.
  - rewrite E0. discriminate.
  - rewrite E0. intros H. discriminate H.
Qed.

Lemma dyadic_zero (e : Z) : (dyadic 0 e == 0)%Q.
Proof. unfold dyadic. change (inject_Z 0) with 0%Q. ring. Qed.

Lemma canonical_pos (m e : Z) : canonical m e -> (0 < dyadic m e)%Q.
Proof.
  intros [Hm _]. destruct m as [ | p | p ]; try lia. apply dyadic_pos.
Qed.

(** The order of two rounded sizes is the order of the floats that
    hold them, under either sign. *)
Lemma leb_float_of_pos (m m' e e' : Z) :
  0 <= m -> m = 0 \/ canonical m e -> 0 <= m' -> m' = 0 \/ canonical m' e' ->
  (dyadic m e <= dyadic m' e')%Q ->
  leb (float_of false m e) (float_of false m' e') = true.
Proof.
  intros Hm Hc Hm' Hc' Hle.
  destruct m' as [ | p' | p' ]; [ | | lia ].
  - rewrite dyadic_zero in Hle.
    destruct Hc as [-> | Hc]; [ reflexivity | ].
    apply canonical_pos in Hc. lra.
  - destruct Hc' as [Hc' | Hc']; [ discriminate Hc' | ].
    unfold float_of at 2.
    destruct (Z.leb_spec e' 971) as [He' | He'].
    + pose proof (canonical_finite_valid false p' e' Hc' He') as V'.
      pose proof (valid_below_overflow _ _ _ V') as Hlt.
      destruct (float_of_value m e 1024 Hm Hc ltac:(lra) ltac:(lia))
        as (V & (q & Hq & Eq) & _).
      apply (leb_values _ _ _ _ V V' Hq eq_refl).
      cbn [cond_Zopp]. fold (dyadic (Z.pos p') e'). lra.
    + destruct m as [ | p | p ]; [ reflexivity | | lia ].
      unfold float_of. destruct (e <=? 971); reflexivity.
Qed.

Lemma leb_float_of_neg (m m' e e' : Z) :
  0 <= m -> m = 0 \/ canonical m e -> 0 <= m' -> m' = 0 \/ canonical m' e' ->
  (dyadic m' e' <= dyadic m e)%Q ->
  leb (float_of true m e) (float_of true m' e') = true.
Proof.
  intros Hm Hc Hm' Hc' Hle.
  destruct m as [ | p | p ]; [ | | lia ].
  - rewrite dyadic_zero in Hle.
    destruct Hc' as [-> | Hc']; [ reflexivity | ].
    apply canonical_pos in Hc'. lra.
  - destruct Hc as [Hc | Hc]; [ discriminate Hc | ].
    unfold float_of at 1.
    destruct (Z.leb_spec e 971) as [He | He].
    + pose proof (canonical_finite_valid true p e Hc He) as V.
      pose proof (valid_below_overflow _ _ _ V) as Hlt.
      destruct m' as [ | p' | p' ]; [ reflexivity | | lia ].
      destruct Hc' as [Hc' | Hc']; [ discriminate Hc' | ].
      assert (He' : e' <= 971)
        by (apply (canonical_exponent _ _ 1024 Hc'); [ lra | lia ]).
      unfold float_of. apply Z.leb_le in He'. rewrite He'. apply Z.leb_le in He'.
      apply (leb_values _ _ _ _ V (canonical_finite_valid true p' e' Hc' He')
               eq_refl eq_refl).
      fold (dyadic (cond_Zopp true (Z.pos p)) e).
      fold (dyadic (cond_Zopp true (Z.pos p')) e').
      rewrite !dyadic_signed. lra.
    + destruct m' as [ | p' | p' ]; [ reflexivity | | lia ].
      unfold float_of. destruct (e' <=? 971); reflexivity.
Qed.

Lemma leb_float_of_mixed (m m' e e' : Z) :
  0 <= m -> 0 <= m' -> leb (float_of true m e) (float_of false m' e') = true.
Proof.
  intros Hm Hm'.
  destruct m as [ | p | p ]; [ | | lia ]; destruct m' as [ | p' | p' ]; try lia;
    unfold float_of; try destruct (e <=? 971); try destruct (e' <=? 971); reflexivity.
Qed.

Lemma leb_zero_float_of (s : bool) (m e : Z) :
  0 <= m -> leb (S754_zero s) (float_of false m e) = true.
Proof.
  intros Hm. destruct m as [ | p | p ]; [ | | lia ];
    unfold float_of; try destruct (e <=? 971); destruct s; reflexivity.
Qed.

Lemma leb_float_of_zero (s : bool) (m e : Z) :
  0 <= m -> leb (float_of true m e) (S754_zero s) = true.
Proof.
  intros Hm. destruct m as [ | p | p ]; [ | | lia ];
    unfold float_of; try destruct (e <=? 971); destruct s; reflexivity.
Qed.

(** Rounding with the sign keeps the order of the numbers. *)
Lemma rounded_mono (z z' : Q) (r r' : float) :
  rounded z r -> rounded z' r' -> (z <= z')%Q -> leb r r' = true.
Proof.
  intros (Hz & Hp & Hn) (Hz' & Hp' & Hn') Hle.
  destruct (Q_dec z' 0) as [[Hneg' | Hpos'] | Hzero'].
  - destruct (Hn' Hneg') as (m' & e' & -> & Hm' & Hc' & Hrd').
    destruct (Hn ltac:(lra)) as (m & e & -> & Hm & Hc & Hrd).
    apply leb_float_of_neg; try assumption.
    apply (rounds_mono _ _ _ _ Hrd' Hrd). lra.
  - destruct (Hp' Hpos') as (m' & e' & -> & Hm' & Hc' & Hrd').
    destruct (Q_dec z 0) as [[Hneg | Hpos] | Hzero].
    + destruct (Hn Hneg) as (m & e & -> & Hm & _).
      apply leb_float_of_mixed; assumption.
    + destruct (Hp Hpos) as (m & e & -> & Hm & Hc & Hrd).
      apply leb_float_of_pos; try assumption.
      apply (rounds_mono _ _ _ _ Hrd Hrd'). exact Hle.
    + destruct (Hz Hzero) as (s & ->). apply leb_zero_float_of. exact Hm'.
  - destruct (Hz' Hzero') as (s' & ->).
    destruct (Q_dec z 0) as [[Hneg | Hpos] | Hzero].
    + destruct (Hn Hneg) as (m & e & -> & Hm & _).
      apply leb_float_of_zero. exact Hm.
    + exfalso. lra.
    + destruct (Hz Hzero) as (s & ->). destruct s, s'; reflexivity.
Qed.

(** No rounded number is NaN or above an infinity of its sign. *)
Lemma rounded_above_neg_infinity (z : Q) (r : float) :
  rounded z r -> leb (S754_infinity true) r = true.
Proof.
  intros (Hz & Hp & Hn).
  destruct (Q_dec z 0) as [[Hneg | Hpos] | Hzero].
  - destruct (Hn Hneg) as (m & e & -> & Hm & _).
    destruct m as [ | p | p ]; [ reflexivity | | lia ].
    unfold float_of. destruct (e <=? 971); reflexivity.
  - destruct (Hp Hpos) as (m & e & -> & Hm & _).
    destruct m as [ | p | p ]; [ reflexivity | | lia ].
    unfold float_of. destruct (e <=? 971); reflexivity.
  - destruct (Hz Hzero) as (s & ->). reflexivity.
Qed.

(** A float that has a value is that value rounded. *)
Lemma rounded_self (x : float) (q : Q) :
  valid x -> to_Q x = Some q -> rounded q x.
Proof.
  intros V Hq.
  destruct x as [ s | s | | s m e ]; try discriminate Hq; injection Hq as <-.
  - split; [ intros _; exists s; reflexivity | ]. split; intros H; exfalso; lra.
  - fold (dyadic (cond_Zopp s (Z.pos m)) e).
    pose proof (dyadic_signed s m e) as Es.
    pose proof (dyadic_pos m e) as Hpos.
    pose proof (canonical_valid _ _ _ V) as Hc.
    pose proof (valid_canonical _ _ _ V) as [_ He].
    assert (Ef : float_of s (Z.pos m) e = S754_finite s m e).
    { unfold float_of. apply Z.leb_le in He. rewrite He. reflexivity. }
    destruct s; (split; [ intros H; exfalso; lra | ]);
      (split; intros H; [ try (exfalso; lra) | try (exfalso; lra) ]);
      exists (Z.pos m), e; (split; [ symmetry; exact Ef | ]);
      (split; [ lia | ]); (split; [ right; exact Hc | ]).
    + apply (rounds_value (dyadic (Z.pos m) e)); [ rewrite Es; ring | ].
      apply rounds_exact. exact Hc.
    + apply (rounds_value (dyadic (Z.pos m) e)); [ rewrite Es; reflexivity | ].
      apply rounds_exact. exact Hc.
Qed.

(** What [binary_normalize] gives for a whole number of units is the
    number rounded. *)
Lemma binary_normalize_rounded (D ez : Z) (z : Q) :
  (dyadic D ez == z)%Q -> rounded z (binary_normalize prec emax D ez false).
Proof.
  intros ED.
  destruct D as [ | p | p ]; cbn [binary_normalize].
  - rewrite dyadic_zero in ED.
    split; [ intros _; exists false; reflexivity | ]. split; intros H; exfalso; lra.
  - pose proof (dyadic_pos p ez) as Hp.
    split; [ intros H; exfalso; lra | ]. split; [ | intros H; exfalso; lra ].
    intros _.
    destruct (binary_round_rounds false p ez) as (m3 & e3 & Hr & (H0 & Hc & _) & Hrd).
    exists m3, e3. split; [ exact Hr | ]. split; [ exact H0 | ]. split; [ exact Hc | ].
    apply (rounds_value _ _ _ ED). exact Hrd.
  - pose proof (dyadic_pos p ez) as Hp.
    change (Z.neg p) with (- Z.pos p) in ED. rewrite dyadic_opp in ED.
    split; [ intros H; exfalso; lra | ]. split; [ intros H; exfalso; lra | ].
    intros _.
    destruct (binary_round_rounds true p ez) as (m3 & e3 & Hr & (H0 & Hc & _) & Hrd).
    exists m3, e3. split; [ exact Hr | ]. split; [ exact H0 | ]. split; [ exact Hc | ].
    apply (rounds_value (dyadic (Z.pos p) ez)); [ rewrite <- ED; ring | exact Hrd ].
Qed.

Lemma rounded_value (z z' : Q) (r : float) : (z == z')%Q -> rounded z r -> rounded z' r.
Proof.
  intros E (Hz & Hp & Hn).
  split; [ intros H; apply Hz; lra | ].
  split; intros H.
  - destruct (Hp ltac:(lra)) as (m & e & Hr & Hm & Hc & Hrd).
    exists m, e. repeat split; try assumption. apply (rounds_value _ _ _ E Hrd).
  - destruct (Hn ltac:(lra)) as (m & e & Hr & Hm & Hc & Hrd).
    exists m, e. repeat split; try assumption.
    apply (rounds_value (- z)); [ rewrite E; reflexivity | exact Hrd ].
Qed.

Lemma to_Q_opp (x : float) (q : Q) :
  to_Q x = Some q -> exists q', to_Q (SFopp x) = Some q' /\ (q' == - q)%Q.
Proof.
  destruct x as [ s | s | | s m e ]; intros H; try discriminate H; injection H as <-.
  - exists 0%Q. split; [ reflexivity | ring ].
  - eexists. split; [ reflexivity | ].
    fold (dyadic (cond_Zopp (negb s) (Z.pos m)) e) (dyadic (cond_Zopp s (Z.pos m)) e).
    rewrite !dyadic_signed. destruct s; cbn [negb]; ring.
Qed.

Lemma opp_valid (x : float) : valid x -> valid (SFopp x).
Proof. destruct x as [ s | s | | s m e ]; intros V; exact V. Qed.

(** The difference of two floats that have values is the difference of
    the values, rounded. *)
Lemma sub_rounded (x y : float) (qx qy : Q) :
  valid x -> valid y -> to_Q x = Some qx -> to_Q y = Some qy ->
  rounded (qx - qy) (sub x y).
Proof.
  intros Vx Vy Hx Hy.
  destruct x as [ sx | sx | | sx mx ex ]; try discriminate Hx;
    destruct y as [ sy | sy | | sy my ey ]; try discriminate Hy.
  - injection Hx as <-. injection Hy as <-.
    split; [ intros _; destruct sx, sy; eexists; reflexivity | ].
    split; intros H; exfalso; lra.
  - injection Hx as <-.
    destruct (to_Q_opp _ _ Hy) as (q' & Hq' & Eq').
    apply (rounded_value q'); [ rewrite Eq'; ring | ].
    exact (rounded_self _ _ (opp_valid _ Vy) Hq').
  - injection Hy as <-.
    apply (rounded_value qx); [ ring | ].
    exact (rounded_self _ _ Vx Hx).
  - injection Hx as <-. injection Hy as <-.
    fold (dyadic (cond_Zopp sx (Z.pos mx)) ex) (dyadic (cond_Zopp sy (Z.pos my)) ey).
    unfold sub, SFsub. cbv zeta.
    apply binary_normalize_rounded.
    unfold Z.sub. rewrite dyadic_add, dyadic_opp.
    rewrite (dyadic_align_signed sx mx ex (Z.min ex ey)) by lia.
    rewrite (dyadic_align_signed sy my ey (Z.min ex ey)) by lia.
    ring.
Qed.

(** The sum of two floats that have values is the sum of the values,
    rounded. *)
Lemma add_rounded (x y : float) (qx qy : Q) :
  valid x -> valid y -> to_Q x = Some qx -> to_Q y = Some qy ->
  rounded (qx + qy) (add x y).
Proof.
  intros Vx Vy Hx Hy.
  destruct x as [ sx | sx | | sx mx ex ]; try discriminate Hx;
    destruct y as [ sy | sy | | sy my ey ]; try discriminate Hy.
  - injection Hx as <-. injection Hy as <-.
    split; [ intros _; destruct sx, sy; eexists; reflexivity | ].
    split; intros H; exfalso; lra.
  - injection Hx as <-.
    apply (rounded_value qy); [ ring | ].
    exact (rounded_self _ _ Vy Hy).
  - injection Hy as <-.
    apply (rounded_value qx); [ ring | ].
    exact (rounded_self _ _ Vx Hx).
  - injection Hx as <-. injection Hy as <-.
    fold (dyadic (cond_Zopp sx (Z.pos mx)) ex) (dyadic (cond_Zopp sy (Z.pos my)) ey).
    unfold add, SFadd. cbv zeta.
    apply binary_normalize_rounded.
    rewrite dyadic_add.
    rewrite (dyadic_align_signed sx mx ex (Z.min ex ey)) by lia.
    rewrite (dyadic_align_signed sy my ey (Z.min ex ey)) by lia.
    reflexivity.
Qed.

(** A float that is not below zero has a value that is not, or is the
    infinity. *)
Lemma not_below_zero_value (x : float) :
  geb x zero = true ->
  x = S754_infinity false \/ exists q, to_Q x = Some q /\ (0 <= q)%Q.
Proof.
  destruct x as [ s | s | | s m e ]; intros H; try discriminate H.
  - right. exists 0%Q. split; [ reflexivity | lra ].
  - destruct s; [ discriminate H | left; reflexivity ].
  - destruct s; [ discriminate H | ]. right. eexists. split; [ reflexivity | ].
    cbn [cond_Zopp]. fold (dyadic (Z.pos m) e). pose proof (dyadic_pos m e). lra.
Qed.

(** Adding an amount that is not negative never gives a smaller
    total. *)
Lemma add_not_below (x y : float) :
  valid x -> valid y -> geb x zero = true -> geb y zero = true ->
  leb x (add x y) = true.
Proof.
  intros Vx Vy Hx Hy.
  destruct (not_below_zero_value x Hx) as [-> | (qx & Hqx & Hx0)].
  - destruct y as [ sy | sy | | sy my ey ]; try discriminate Hy;
      try (destruct sy; try discriminate Hy); reflexivity.
  - destruct (not_below_zero_value y Hy) as [-> | (qy & Hqy & Hy0)].
    + destruct x as [ sx | sx | | sx mx ex ]; try discriminate Hqx;
        try (destruct sx; try discriminate Hx); reflexivity.
    + apply (rounded_mono qx (qx + qy)).
      * exact (rounded_self _ _ Vx Hqx).
      * exact (add_rounded _ _ _ _ Vx Vy Hqx Hqy).
      * lra.
Qed.

(** The more is taken off a float, the less is left, whatever the
    rounding. *)
Lemma sub_antitone (x y y' : float) (qx : Q) :
  valid x -> valid y -> valid y' -> to_Q x = Some qx ->
  geb y zero = true -> geb y' zero = true -> leb y y' = true ->
  leb (sub x y') (sub x y) = true.
Proof.
  intros Vx Vy Vy' Hqx Hy Hy' Hle.
  destruct (not_below_zero_value y Hy) as [-> | (qy & Hqy & Hy0)].
  - destruct y' as [ s' | s' | | s' m' e' ]; try discriminate Hy';
      try (destruct s'); try discriminate Hle; try discriminate Hy'.
    destruct x as [ sx | sx | | sx mx ex ]; try discriminate Hqx; reflexivity.
  - destruct (not_below_zero_value y' Hy') as [-> | (qy' & Hqy' & Hy0')].
    + assert (E : sub x (S754_infinity false) = S754_infinity true)
        by (destruct x as [ sx | sx | | sx mx ex ]; try discriminate Hqx; reflexivity).
      rewrite E.
      exact (rounded_above_neg_infinity _ _ (sub_rounded _ _ _ _ Vx Vy Hqx Hqy)).
    + apply (leb_values _ _ _ _ Vy Vy' Hqy Hqy') in Hle.
      apply (rounded_mono (qx - qy') (qx - qy)).
      * exact (sub_rounded _ _ _ _ Vx Vy' Hqx Hqy').
      * exact (sub_rounded _ _ _ _ Vx Vy Hqx Hqy).
      * lra.
Qed.

End Binary64Monotone.

Section Purchases.
Import Binary64 Binary64Facts Binary64Rounding Binary64Sums Binary64Order Binary64Monotone.
Import StorageEngine Ledger.

(** X30.  When no amount of the document is negative and the income is a
    number, logging a purchase of a cost that is not negative never lowers
    the variable expenses of the snapshot and never raises its free cash
    flow, however the sums and the subtractions round. *)
Theorem log_transaction_never_raises_free_cash_flow
    (now item_name : string) (a : float) (cat : string) (d : data) (qi : Q) :
  valid_amounts d -> amounts_not_negative d ->
  to_Q (monthly_income (user_profile d)) = Some qi ->
  valid a -> geb a zero = true ->
  let s := FinancialStateAgent.get_todays_state d in
  let s' := FinancialStateAgent.get_todays_state
              (FinancialStateAgent.log_transaction now item_name a cat d) in
  leb (FinancialStateAgent.variable_expenses s)
      (FinancialStateAgent.variable_expenses s') = true
  /\ leb (FinancialStateAgent.free_cash_flow s')
         (FinancialStateAgent.free_cash_flow s) = true.
Proof.
  intros (Vi & Vf & Vt) (Nf & Nt) Hqi Va Ha. cbv zeta.
  unfold FinancialStateAgent.get_todays_state, FinancialStateAgent.log_transaction,
    log_transaction, get_transactions, FinancialStateAgent.get_profile,
    get_user_profile, FinancialStateAgent.get_total_fixed_expenses, get_fixed_expenses.
  cbn [FinancialStateAgent.variable_expenses FinancialStateAgent.free_cash_flow
       transactions user_profile fixed_expenses].
  rewrite variable_spend_snoc.
  cbn [FinancialStateAgent.is_expense tx_type tx_amount String.eqb Ascii.eqb Bool.eqb].
  rewrite variable_spend_filter.
  pose proof (Forall_map_filter _ tx_amount FinancialStateAgent.is_expense _ Vt) as Vt'.
  pose proof (Forall_map_filter _ tx_amount FinancialStateAgent.is_expense _ Nt) as Nt'.
  destruct (sum_from_nonneg _ zero (Forall_and_valid _ Vf Nf) eq_refl eq_refl)
    as [Vsf Hsf].
  destruct (sum_from_nonneg _ zero (Forall_and_valid _ Vt' Nt') eq_refl eq_refl)
    as [Vst Hst].
  fold (sum (map amount (fixed_expenses d))) in *.
  fold (sum (map tx_amount (filter FinancialStateAgent.is_expense (transactions d)))) in *.
  set (I := monthly_income (user_profile d)) in *.
  set (F := sum (map amount (fixed_expenses d))) in *.
  set (V := sum (map tx_amount (filter FinancialStateAgent.is_expense (transactions d)))) in *.
  clearbody I F V.
  pose proof (add_not_below V a Vst Va Hst Ha) as HV.
  split; [ exact HV | ].
  pose proof (add_valid _ _ Vst Va) as VV'.
  pose proof (add_nonneg _ _ Vst Va Hst Ha) as HV'.
  pose proof (sub_not_above I F qi Vi Vsf Hqi Hsf) as HA.
  pose proof (sub_valid _ _ Vi Vsf) as VA.
  destruct (to_Q (sub I F)) as [ qa | ] eqn:HqA.
  - exact (sub_antitone _ _ _ _ VA Vst VV' HqA Hst HV' HV).
  - destruct (sub I F) as [ sa | sa | | sa ma ea ]; try discriminate HqA.
    + destruct sa.
      * destruct V as [ sv | sv | | sv mv ev ]; try discriminate Hst;
          try (destruct sv; try discriminate Hst);
          destruct (add _ a) as [ sw | sw | | sw mw ew ]; try discriminate HV';
          try (destruct sw; try discriminate HV'); reflexivity.
      * destruct I as [ si | si | | si mi ei ]; try discriminate Hqi; discriminate HA.
    + discriminate HA.
Qed.

End Purchases.

Section MoreInstances.
Import Binary64 StorageEngine Ledger Visits Samples.

Lemma sample_document_valid : valid_amounts sample_document.
Proof. repeat split; repeat constructor. Qed.


Lemma calculate_remaining_after_fixed_not_negative_witness :
  ltb (of_Z 20000) zero = false
  /\ not_negative
       (BudgetCalculator.recommended_savings
          (BudgetCalculator.calculate_remaining_after_fixed (of_Z 50000) (of_Z 20000)))
  /\ not_negative
       (BudgetCalculator.needs_gap
          (BudgetCalculator.calculate_remaining_after_fixed (of_Z 20000) (of_Z 50000))).
Proof.
  split; [ reflexivity | ].
  destruct (calculate_remaining_after_fixed_not_negative (of_Z 50000) (of_Z 20000)
              eq_refl) as (_ & _ & _ & _ & Hs & _).
  destruct (calculate_remaining_after_fixed_not_negative (of_Z 20000) (of_Z 50000)
              eq_refl) as (_ & Hg & _).
  split; [ exact Hs | exact Hg ].
Defined.

Lemma calculate_50_30_20_sum_witness :
  ltb (of_Z 30000) zero = false
  /\ exists qn qw qs,
       to_Q (BudgetCalculator.needs (BudgetCalculator.calculate_50_30_20 (of_Z 30000)))
       = Some qn
       /\ to_Q (BudgetCalculator.wants (BudgetCalculator.calculate_50_30_20 (of_Z 30000)))
          = Some qw
       /\ to_Q (BudgetCalculator.savings (BudgetCalculator.calculate_50_30_20 (of_Z 30000)))
          = Some qs
       /\ (Qabs (qn + qw + qs - inject_Z 8246337208320000 * pow2Q (-38))
           <= 1 # 1000000000)%Q.
Proof.
  split; [ reflexivity | ].
  destruct (calculate_50_30_20_sum (of_Z 30000)
              (inject_Z 8246337208320000 * pow2Q (-38))
              eq_refl eq_refl ltac:(vm_compute; discriminate))
    as (qn & qw & qs & Hn & Hw & Hs & _ & Hsmall).
  exists qn, qw, qs.
  split; [ exact Hn | ]. split; [ exact Hw | ]. split; [ exact Hs | ].
  apply Hsmall. reflexivity.
Defined.

Lemma state_agent_names_distinct_witness :
  NoDup (map name (fixed_expenses two_expenses))
  /\ NoDup (map name
              (fixed_expenses
                 (FinancialStateAgent.run
                    [ FinancialStateAgent.AddFixedExpense "Rent" (of_Z 600);
                      FinancialStateAgent.AddFixedExpense "Gym" (of_Z 30) ]
                    two_expenses))).
Proof.
  assert (H : NoDup (map name (fixed_expenses two_expenses))).
  { repeat constructor; simpl; intuition discriminate. }
  split; [ exact H | ].
  exact (proj1 (state_agent_names_distinct _ two_expenses H)).
Defined.

Lemma get_todays_state_not_negative_witness :
  valid_amounts sample_document /\ amounts_not_negative sample_document
  /\ geb (FinancialStateAgent.total_fixed_expenses
            (FinancialStateAgent.get_todays_state sample_document)) zero = true
  /\ geb (FinancialStateAgent.variable_expenses
            (FinancialStateAgent.get_todays_state sample_document)) zero = true.
Proof.
  assert (Hn : amounts_not_negative sample_document)
    by (repeat split; repeat constructor).
  split; [ exact sample_document_valid | ]. split; [ exact Hn | ].
  destruct (get_todays_state_not_negative sample_document sample_document_valid Hn)
    as (H1 & H2 & _).
  split; assumption.
Defined.

Lemma analyze_purchase_report_witness :
  valid_amounts sample_document /\ valid (of_Z 30000)
  /\ forall r,
       PurchaseImpactAgent.analyze_purchase "Laptop" (of_Z 30000) "Wants" sample_document
       = Ok r ->
       PurchaseImpactAgent.item r = "Laptop"%string
       /\ PurchaseImpactAgent.cost r = of_Z 30000.
Proof.
  split; [ exact sample_document_valid | ]. split; [ reflexivity | ].
  intros r Hr.
  destruct (analyze_purchase_report "Laptop" (of_Z 30000) "Wants" sample_document
              sample_document_valid eq_refl) as [_ H].
  destruct (H r Hr) as (H1 & H2 & _).
  split; assumption.
Defined.

Lemma create_budget_plan_status_witness :
  valid_amounts sample_document
  /\ BudgetCalculator.status
       (BudgetPlanningAgent.plan_details
          (BudgetPlanningAgent.create_budget_plan sample_document))
     = "surplus"%string.
Proof.
  split; [ exact sample_document_valid | ].
  destruct (create_budget_plan_status sample_document sample_document_valid)
    as (_ & _ & H & _).
  rewrite H. reflexivity.
Defined.

Lemma get_todays_state_whole_witness :
  monthly_income (user_profile sample_document) = of_Z 50000
  /\ map amount (fixed_expenses sample_document) = map of_Z [20000; 500]
  /\ map tx_amount (filter FinancialStateAgent.is_expense (transactions sample_document))
     = map of_Z [2000]
  /\ FinancialStateAgent.free_cash_flow
       (FinancialStateAgent.get_todays_state sample_document)
     = of_Z 27500.
Proof.
  do 3 (split; [ reflexivity | ]).
  destruct (get_todays_state_whole sample_document 50000 [20000; 500] [2000]
              eq_refl eq_refl eq_refl) as (_ & _ & H).
  - split; [ discriminate | reflexivity ].
  - repeat constructor; discriminate.
  - repeat constructor; discriminate.
  - reflexivity.
  - exact H.
Defined.

Lemma confirm_purchase_settles_witness :
  monthly_income (user_profile sample_document) = of_Z 50000
  /\ exists r,
       PurchaseImpactAgent.analyze_purchase "Book" (of_Z 500) "Wants" sample_document
       = Ok r
       /\ ImpactSimulator.remaining_balance (PurchaseImpactAgent.assessment r)
          = of_Z 27000
       /\ FinancialStateAgent.free_cash_flow
            (FinancialStateAgent.get_todays_state
               (PurchaseImpactAgent.confirm_purchase "2024-01-02T09:30:00" "Book"
                  (of_Z 500) "Wants" sample_document))
          = ImpactSimulator.remaining_balance (PurchaseImpactAgent.assessment r).
Proof.
  split; [ reflexivity | ].
  destruct (confirm_purchase_settles sample_document 50000 [20000; 500] [2000] 500
              "2024-01-02T09:30:00" "Book" "Wants" eq_refl eq_refl eq_refl)
    as (r & Hr & _ & Hrem & Hfree).
  - split; [ discriminate | reflexivity ].
  - repeat constructor; discriminate.
  - repeat constructor; discriminate.
  - reflexivity.
  - reflexivity.
  - exists r. split; [ exact Hr | ]. split; [ exact Hrem | exact Hfree ].
Defined.

Lemma provide_advice_mock_witness :
  exists r,
    PurchaseImpactAgent.analyze_purchase "Book" (of_Z 500) "Wants" sample_document = Ok r
    /\ MentorReasoningAgent.provide_advice
         (LLMInterface.generate_response no_digits (fun _ => echo_status)
            (LLMInterface._select_provider None))
         (user_profile sample_document) r
       <> "I cannot assess this purchase without a valid risk status."%string.
Proof.
  eexists. split; [ reflexivity | ].
  apply (provide_advice_mock no_digits (fun _ => echo_status) None
           (user_profile sample_document) "Book" (of_Z 500) "Wants" sample_document _
           (or_introl eq_refl) eq_refl).
Defined.

Lemma dashboard_shows_witness :
  valid_amounts sample_document
  /\ exists v,
       App.dashboard sample_document = inr v
       /\ App.shown_fixed_expenses v = of_Z 20500.
Proof.
  split; [ exact sample_document_valid | ].
  destruct (dashboard_shows sample_document sample_document_valid)
    as (v & Hv & _ & Hf & _).
  exists v. split; [ exact Hv | ]. rewrite Hf. reflexivity.
Defined.

Lemma visit_logs_analysed_purchases_witness :
  exists d' s',
    App.visit echo_status sample_visit (sample_document, App.new_session) = inr (d', s')
    /\ exists l,
         transactions d' = transactions sample_document ++ l
         /\ Forall purchase l
         /\ (List.length l <= analyses sample_visit)%nat.
Proof.
  destruct (App.visit echo_status sample_visit (sample_document, App.new_session))
    as [ e | [d' s'] ] eqn:E.
  - vm_compute in E. discriminate E.
  - exists d', s'. split; [ reflexivity | ].
    exact (visit_logs_analysed_purchases echo_status sample_visit sample_document d' s' E).
Defined.


Lemma assess_transaction_percentage_witness :
  exists a p qp,
    ImpactSimulator.assess_transaction (of_Z 30000) zero zero (of_Z 20000) = Ok a
    /\ ImpactSimulator.cost_percentage_of_free_cash a = Some p
    /\ to_Q p = Some qp
    /\ ImpactSimulator.status a = "CAUTION"%string
    /\ (50 <= qp)%Q /\ (qp <= 100)%Q.
Proof.
  destruct (assess_transaction_percentage (of_Z 30000) zero zero (of_Z 20000)
              (inject_Z 8246337208320000 * pow2Q (-38))
              (inject_Z 5497558138880000 * pow2Q (-38))
              eq_refl eq_refl eq_refl eq_refl
              ltac:(vm_compute; discriminate) ltac:(vm_compute; discriminate)
              ltac:(vm_compute; discriminate))
    as (a & p & qp & Ha & Hp & Hqp & [_ H100] & _ & Hc & _ & H50 & _).
  assert (Hs : ImpactSimulator.status a = "CAUTION"%string) by (apply Hc; reflexivity).
  exists a, p, qp.
  split; [ exact Ha | ]. split; [ exact Hp | ]. split; [ exact Hqp | ].
  split; [ exact Hs | ]. split; [ exact (H50 Hs) | exact H100 ].
Defined.

Lemma calculate_remaining_after_fixed_shares_witness :
  exists s w qs qw,
    BudgetCalculator.recommended_savings
      (BudgetCalculator.calculate_remaining_after_fixed (of_Z 50000) (of_Z 20000)) = Some s
    /\ BudgetCalculator.recommended_wants
         (BudgetCalculator.calculate_remaining_after_fixed (of_Z 50000) (of_Z 20000)) = Some w
    /\ to_Q s = Some qs /\ to_Q w = Some qw
    /\ (0 <= qs)%Q /\ (qs <= qw)%Q
    /\ (qw <= inject_Z 8246337208320000 * pow2Q (-38))%Q.
Proof.
  destruct (calculate_remaining_after_fixed_shares (of_Z 50000) (of_Z 20000)
              (inject_Z 8246337208320000 * pow2Q (-38))
              eq_refl eq_refl eq_refl ltac:(vm_compute; discriminate))
    as (_ & _ & s & w & qs & qw & H).
  exists s, w, qs, qw. exact H.
Defined.

Lemma calculate_50_30_20_order_witness :
  exists qn qw qs,
    to_Q (BudgetCalculator.needs (BudgetCalculator.calculate_50_30_20 (of_Z 30000)))
    = Some qn
    /\ to_Q (BudgetCalculator.wants (BudgetCalculator.calculate_50_30_20 (of_Z 30000)))
       = Some qw
    /\ to_Q (BudgetCalculator.savings (BudgetCalculator.calculate_50_30_20 (of_Z 30000)))
       = Some qs
    /\ (0 <= qs)%Q /\ (qs <= qw)%Q /\ (qw <= qn)%Q
    /\ (qn == inject_Z 8246337208320000 * pow2Q (-38) * (1 # 2))%Q.
Proof.
  destruct (calculate_50_30_20_order (of_Z 30000)
              (inject_Z 8246337208320000 * pow2Q (-38))
              eq_refl eq_refl ltac:(vm_compute; discriminate))
    as (qn & qw & qs & Hn & Hw & Hs & H0 & Hsw & Hwn & _ & Hhalf).
  exists qn, qw, qs.
  split; [ exact Hn | ]. split; [ exact Hw | ]. split; [ exact Hs | ].
  split; [ exact H0 | ]. split; [ exact Hsw | ]. split; [ exact Hwn | ].
  apply Hhalf. vm_compute. discriminate.
Defined.

Lemma calculate_50_30_20_monotone_witness :
  exists qs qs',
    to_Q (BudgetCalculator.savings (BudgetCalculator.calculate_50_30_20 (of_Z 30000)))
    = Some qs
    /\ to_Q (BudgetCalculator.savings (BudgetCalculator.calculate_50_30_20 (of_Z 50000)))
       = Some qs'
    /\ (qs <= qs')%Q.
Proof.
  destruct (calculate_50_30_20_monotone (of_Z 30000) (of_Z 50000)
              (inject_Z 8246337208320000 * pow2Q (-38))
              (inject_Z 6871947673600000 * pow2Q (-37))
              eq_refl eq_refl eq_refl eq_refl
              ltac:(vm_compute; discriminate) ltac:(vm_compute; discriminate))
    as (qn & qw & qs & qn' & qw' & qs' & _ & _ & Hs & _ & _ & Hs' & _ & _ & H).
  exists qs, qs'. split; [ exact Hs | ]. split; [ exact Hs' | exact H ].
Defined.

Lemma assess_transaction_remaining_not_above_witness :
  exists a,
    ImpactSimulator.assess_transaction (of_Z 30000) zero zero (of_Z 20000) = Ok a
    /\ leb (ImpactSimulator.remaining_balance a) (of_Z 30000) = true.
Proof.
  destruct (ImpactSimulator.assess_transaction (of_Z 30000) zero zero (of_Z 20000))
    as [ a | e ] eqn:Ha; [ | vm_compute in Ha; discriminate Ha ].
  exists a. split; [ reflexivity | ].
  exact (proj2 (assess_transaction_remaining_not_above (of_Z 30000) zero zero (of_Z 20000)
                  (inject_Z 8246337208320000 * pow2Q (-38)) a
                  eq_refl eq_refl eq_refl eq_refl Ha)).
Defined.

Lemma get_todays_state_not_above_income_witness :
  valid_amounts sample_document /\ amounts_not_negative sample_document
  /\ leb (FinancialStateAgent.free_cash_flow
            (FinancialStateAgent.get_todays_state sample_document))
         (FinancialStateAgent.income
            (FinancialStateAgent.get_todays_state sample_document)) = true.
Proof.
  assert (Hn : amounts_not_negative sample_document)
    by (repeat split; repeat constructor).
  split; [ exact sample_document_valid | ]. split; [ exact Hn | ].
  exact (get_todays_state_not_above_income sample_document
           (inject_Z 6871947673600000 * pow2Q (-37))
           sample_document_valid Hn eq_refl).
Defined.

Lemma log_transaction_never_raises_free_cash_flow_witness :
  valid_amounts sample_document /\ amounts_not_negative sample_document
  /\ leb (FinancialStateAgent.free_cash_flow
            (FinancialStateAgent.get_todays_state
               (FinancialStateAgent.log_transaction
                  "2024-01-03T18:45:00" "Book" (of_Z 500) "Wants" sample_document)))
         (FinancialStateAgent.free_cash_flow
            (FinancialStateAgent.get_todays_state sample_document)) = true.
Proof.
  assert (Hn : amounts_not_negative sample_document)
    by (repeat split; repeat constructor).
  split; [ exact sample_document_valid | ]. split; [ exact Hn | ].
  exact (proj2 (log_transaction_never_raises_free_cash_flow
                  "2024-01-03T18:45:00" "Book" (of_Z 500) "Wants" sample_document
                  (inject_Z 6871947673600000 * pow2Q (-37))
                  sample_document_valid Hn eq_refl eq_refl eq_refl)).
Defined.

Lemma get_total_fixed_expenses_after_add_witness :
  FinancialStateAgent.get_total_fixed_expenses
    (FinancialStateAgent.add_fixed_expense "Rent" (of_Z 600) two_expenses)
  = of_Z 640.
Proof.
  exact (proj2 (proj2 (get_total_fixed_expenses_after_add "Rent" (of_Z 600) two_expenses))
           [40] 600 eq_refl eq_refl
           ltac:(repeat constructor; lia) ltac:(lia) ltac:(cbn; lia)).
Defined.

End MoreInstances.
